(** * Fleet telemetry overlay: simulation, pool, governor and frame update

    A shallow embedding of [FleetTelematicsData] (the entity store and its
    simulation tick) and of [ParticlesOptimized] (the overlay pool, the
    performance governor and the per-frame update), followed by the
    properties the specification states about them.

    Numbers.  JavaScript numbers are IEEE doubles.  The simulation and the
    governor are embedded over exact rationals [Q], which keeps every
    definition executable; the frame update needs [Math.sin] and is
    embedded over the real numbers [R].  Rounding error is therefore not
    modelled.

    Effects.  [Math.random()] reads from an explicit tape of draws that is
    threaded through the simulation by a small state monad; [Date.now()]
    and [performance.now()] are passed in as arguments. *)

From stdpp Require Import base list strings.
From Stdlib Require Import ZArith QArith Qminmax Qround Reals Psatz Lia.
From Stdlib Require Import Ascii DecimalString.

Set Default Proof Using "Type".

(* ===================================================================== *)
(** * JavaScript helpers *)
(* ===================================================================== *)

Module JS.

Local Open Scope Q_scope.

(** [a < b] on numbers, as a boolean. *)
Definition ltb (a b : Q) : bool := negb (Qle_bool b a).
(** [a > b]. *)
Definition gtb (a b : Q) : bool := ltb b a.
(** [a <= b]. *)
Definition leb (a b : Q) : bool := Qle_bool a b.

Definition Math_max (a b : Q) : Q := Qmax a b.
Definition Math_min (a b : Q) : Q := Qmin a b.
Definition Math_floor (a : Q) : Z := Qfloor a.
(** [Math.round] rounds half up: [floor (x + 0.5)]. *)
Definition Math_round (a : Q) : Z := Qfloor (a + 0.5).

(** Truncation toward zero, and the [%] operator on numbers
    ([x % m] has the sign of [x]). *)
Definition trunc (a : Q) : Z := Z.quot (Qnum a) (Zpos (Qden a)).
Definition rem (x m : Q) : Q := x - m * inject_Z (trunc (x / m)).

(** [String(n)] for an integer. *)
Definition String_of_Z (z : Z) : string :=
  NilZero.string_of_int (Z.to_int z).

Fixpoint repeat_char (n : nat) (c : ascii) : string :=
  match n with
  | O => EmptyString
  | S n' => String c (repeat_char n' c)
  end.

(** [s.padStart(n, c)] for a one-character pad. *)
Definition padStart (n : nat) (c : ascii) (s : string) : string :=
  String.append (repeat_char (n - String.length s) c) s.

(** Arrays: [pop] removes and returns the last element, [push] appends,
    [indexOf] returns the first position of an element, [splice(i, 1)]
    removes one position. *)
Definition pop {A} (l : list A) : option (A * list A) :=
  match rev l with
  | [] => None
  | x :: r => Some (x, rev r)
  end.

Definition push {A} (l : list A) (x : A) : list A := l ++ [x].

Fixpoint indexOf {A} `{EqDecision A} (l : list A) (x : A) : option nat :=
  match l with
  | [] => None
  | y :: l' => if decide (y = x) then Some O else S <$> indexOf l' x
  end.

Definition splice1 {A} (i : nat) (l : list A) : list A := delete i l.

Definition includes {A} `{EqDecision A} (l : list A) (x : A) : bool :=
  bool_decide (x ∈ l).

(** [a[i]] for an integer-valued index: [None] is [undefined]. *)
Definition array_get {A} (l : list A) (i : Z) : option A :=
  if (i <? 0)%Z then None else l !! Z.to_nat i.

(** A [Map] keeps its keys in insertion order; [set] on an existing key
    replaces the value in place. *)
Fixpoint Map_set {V} (m : list (string * V)) (k : string) (v : V)
  : list (string * V) :=
  match m with
  | [] => [(k, v)]
  | (k', v') :: m' =>
      if String.eqb k' k then (k, v) :: m' else (k', v') :: Map_set m' k v
  end.

Definition Map_values {V} (m : list (string * V)) : list V := snd <$> m.

(** [Math.abs]. *)
Definition Math_abs (a : Q) : Q := if ltb a 0 then (- a)%Q else a.

(** [m.get(k)]: [None] is [undefined]. *)
Fixpoint Map_get {V} (m : list (string * V)) (k : string) : option V :=
  match m with
  | [] => None
  | (k', v) :: m' => if String.eqb k' k then Some v else Map_get m' k
  end.

#[global] Arguments ltb : simpl never.
#[global] Arguments gtb : simpl never.
#[global] Arguments leb : simpl never.
#[global] Arguments Math_max : simpl never.
#[global] Arguments Math_min : simpl never.
#[global] Arguments Math_floor : simpl never.
#[global] Arguments Math_round : simpl never.
#[global] Arguments rem : simpl never.

End JS.

(* ===================================================================== *)
(** * The random tape *)
(* ===================================================================== *)

(** The draws [Math.random()] will return, in order. *)
Definition Tape := nat -> Q.

(** A computation that consumes draws. *)
Definition Rand (A : Type) : Type := Tape -> A * Tape.

Definition ret {A} (a : A) : Rand A := fun t => (a, t).

Definition bind {A B} (c : Rand A) (k : A -> Rand B) : Rand B :=
  fun t => let (a, t') := c t in k a t'.

Notation "'let*' x ':=' c 'in' k" := (bind c (fun x => k))
  (at level 10, x name, c at level 100, k at level 200).

(** [Math.random()]: the head of the tape; the rest remains. *)
Definition Math_random : Rand Q :=
  fun t => (t O, fun n => t (S n)).

(** Every draw lies in [[0, 1)]. *)
Definition tape_ok (t : Tape) : Prop :=
  forall n, (0 <= t n /\ t n < 1)%Q.

Definition in_unit (r : Q) : Prop := (0 <= r /\ r < 1)%Q.

(** [rand_post c P]: on a tape of draws in range, [c] returns a value
    satisfying [P] and leaves a tape of draws in range. *)
Definition rand_post {A} (c : Rand A) (P : A -> Prop) : Prop :=
  forall t, tape_ok t -> P (fst (c t)) /\ tape_ok (snd (c t)).

(** Run a monadic action over a list, left to right. *)
Fixpoint mapM {A B} (f : A -> Rand B) (l : list A) : Rand (list B) :=
  match l with
  | [] => ret []
  | a :: l' => let* b := f a in let* bs := mapM f l' in ret (b :: bs)
  end.

(* ===================================================================== *)
(** * FleetTelematicsData: the entity store *)
(* ===================================================================== *)

Module Fleet.

Import JS.
Local Open Scope Q_scope.

(** [status.state] is ['driving'] or ['idle']. *)
Inductive RunState := driving | idle.

#[export] Instance RunState_eq_dec : EqDecision RunState.
Proof. solve_decision. Defined.

Record Location := {
  lat : Q; lng : Q; speed : Q; heading : Q; altitude : Q }.

Record Fuel := {
  level : Q; capacity : Q; efficiency : Q; consumption : Q; lastFill : Q }.

(** An entry of [faultCodes] is a code, or [None] for [undefined] (what
    indexing the catalog out of range would give). *)
Record Engine := {
  rpm : Q; temperature : Q; oilPressure : Q; voltage : Q;
  faultCodes : list (option string); hours : Z }.

Record Driver := {
  driver_id : string; score : Q;
  harshAcceleration : Z; harshBraking : Z; harshCornering : Z;
  idleTime : Q; drivingTime : Q }.

Record Status := {
  state : RunState; route : string; nextMaintenance : Q;
  lastUpdate : Q; connected : bool }.

Record Vehicle := {
  id : string; vtype : string;
  location : Location; fuel : Fuel; engine : Engine;
  driver : Driver; status : Status }.

Definition with_location (v : Vehicle) (l : Location) : Vehicle :=
  {| id := id v; vtype := vtype v; location := l; fuel := fuel v;
     engine := engine v; driver := driver v; status := status v |}.
Definition with_fuel (v : Vehicle) (f : Fuel) : Vehicle :=
  {| id := id v; vtype := vtype v; location := location v; fuel := f;
     engine := engine v; driver := driver v; status := status v |}.
Definition with_engine (v : Vehicle) (e : Engine) : Vehicle :=
  {| id := id v; vtype := vtype v; location := location v; fuel := fuel v;
     engine := e; driver := driver v; status := status v |}.
Definition with_driver (v : Vehicle) (d : Driver) : Vehicle :=
  {| id := id v; vtype := vtype v; location := location v; fuel := fuel v;
     engine := engine v; driver := d; status := status v |}.
Definition with_status (v : Vehicle) (s : Status) : Vehicle :=
  {| id := id v; vtype := vtype v; location := location v; fuel := fuel v;
     engine := engine v; driver := driver v; status := s |}.

(** The service object.  [vehicles] is the [Map] from id to vehicle. *)
Record FleetTelematicsData := {
  vehicles : list (string * Vehicle);
  updateInterval : Q;
  isRunning : bool }.

Record VehicleType := { vt_type : string; vt_fuel : Q; vt_efficiency : Q }.

Definition vehicleTypes : list VehicleType :=
  [ {| vt_type := "Truck"; vt_fuel := 200; vt_efficiency := 8.5 |};
    {| vt_type := "Van"; vt_fuel := 80; vt_efficiency := 12.0 |};
    {| vt_type := "Car"; vt_fuel := 60; vt_efficiency := 15.0 |};
    {| vt_type := "Bus"; vt_fuel := 300; vt_efficiency := 6.0 |} ].

Definition routes : list string :=
  [ "Highway 401 E"; "Downtown Core"; "Industrial Zone";
    "Airport Route"; "Suburban Loop" ]%string.

(** [`VH-${String(n).padStart(3, '0')}`] and its driver counterpart. *)
Definition vehicle_id (n : Z) : string :=
  String.append "VH-" (padStart 3 "0" (String_of_Z n)).
Definition driver_id_of (n : Z) : string :=
  String.append "DR-" (padStart 3 "0" (String_of_Z n)).

(** The object literal of [initializeFleet], for loop index [i]; the
    draws are taken in the order the properties are written. *)
Definition newVehicle (now : Q) (i : nat) : Rand Vehicle :=
  let vehicleType :=
    nth (i mod length vehicleTypes) vehicleTypes
        {| vt_type := ""; vt_fuel := 0; vt_efficiency := 0 |} in
  let route_ := nth (i mod length routes) routes ""%string in
  let* r_lat := Math_random in
  let* r_lng := Math_random in
  let* r_speed := Math_random in
  let* r_heading := Math_random in
  let* r_alt := Math_random in
  let* r_level := Math_random in
  let* r_fill := Math_random in
  let* r_rpm := Math_random in
  let* r_temp := Math_random in
  let* r_oil := Math_random in
  let* r_volt := Math_random in
  let* r_hours := Math_random in
  let* r_did := Math_random in
  let* r_score := Math_random in
  let* r_acc := Math_random in
  let* r_brk := Math_random in
  let* r_cor := Math_random in
  let* r_idle := Math_random in
  let* r_drv := Math_random in
  let* r_state := Math_random in
  let* r_maint := Math_random in
  let* r_conn := Math_random in
  ret {|
    id := vehicle_id (Z.of_nat i + 1);
    vtype := vt_type vehicleType;
    location := {|
      lat := 43.6532 + (r_lat - 0.5) * 0.1;
      lng := -79.3832 + (r_lng - 0.5) * 0.1;
      speed := r_speed * 80 + 20;
      heading := r_heading * 360;
      altitude := 76 + r_alt * 50 |};
    fuel := {|
      level := vt_fuel vehicleType * (0.3 + r_level * 0.6);
      capacity := vt_fuel vehicleType;
      efficiency := vt_efficiency vehicleType;
      consumption := 0;
      lastFill := now - r_fill * 86400000 |};
    engine := {|
      rpm := 1500 + r_rpm * 2000;
      temperature := 85 + r_temp * 15;
      oilPressure := 30 + r_oil * 20;
      voltage := 12.5 + r_volt * 1.5;
      faultCodes := [];
      hours := (Math_floor (r_hours * 5000) + 1000)%Z |};
    driver := {|
      driver_id := driver_id_of (Math_floor (r_did * 100) + 1);
      score := 75 + r_score * 20;
      harshAcceleration := Math_floor (r_acc * 5);
      harshBraking := Math_floor (r_brk * 3);
      harshCornering := Math_floor (r_cor * 2);
      idleTime := inject_Z (Math_floor (r_idle * 120));
      drivingTime := inject_Z (Math_floor (r_drv * 480) + 60) |};
    status := {|
      state := if gtb r_state 0.8 then idle else driving;
      route := route_;
      nextMaintenance := inject_Z (Math_floor (r_maint * 5000) + 500);
      lastUpdate := now;
      connected := gtb r_conn 0.05 |}
  |}.

(** The body of [for (let i = 0; i < 12; i++)], over the remaining
    indices. *)
Fixpoint initializeFleet_loop (now : Q) (idxs : list nat)
    (m : list (string * Vehicle)) : Rand (list (string * Vehicle)) :=
  match idxs with
  | [] => ret m
  | i :: idxs' =>
      let* vehicle := newVehicle now i in
      initializeFleet_loop now idxs' (Map_set m (id vehicle) vehicle)
  end.

Definition initializeFleet (now : Q) (this : FleetTelematicsData)
  : Rand FleetTelematicsData :=
  let* m := initializeFleet_loop now (seq 0 12) (vehicles this) in
  ret {| vehicles := m; updateInterval := updateInterval this;
         isRunning := isRunning this |}.

Definition startDataSimulation (this : FleetTelematicsData)
  : FleetTelematicsData :=
  if isRunning this then this
  else {| vehicles := vehicles this; updateInterval := updateInterval this;
          isRunning := true |}.

(** [new FleetTelematicsData()]. *)
Definition constructor (now : Q) : Rand FleetTelematicsData :=
  let* this := initializeFleet now
    {| vehicles := []; updateInterval := 1000; isRunning := false |} in
  ret (startDataSimulation this).

(** [Math.cos], [Math.sin] and [Math.PI] are library functions; the
    simulation only uses them to move [lat] and [lng]. *)
Record MathLib := {
  Math_cos : Q -> Q; Math_sin : Q -> Q; Math_PI : Q }.

Section Simulation.

Context (Math : MathLib).

(** The simulation methods read [this.updateInterval] only. *)
Variable this_updateInterval : Q.

Definition updateVehicleLocation (vehicle : Vehicle) : Rand Vehicle :=
  match state (status vehicle) with
  | driving =>
      let loc := location vehicle in
      let speedKmh := speed loc in
      let speedMs := speedKmh / 3.6 in
      let deltaTime := this_updateInterval / 1000 in
      let distance := speedMs * deltaTime in
      let latDelta :=
        (distance / 111000) * Math_cos Math (heading loc * Math_PI Math / 180) in
      let lngDelta :=
        (distance / 111000) * Math_sin Math (heading loc * Math_PI Math / 180) in
      let* r1 := Math_random in
      let speed1 := speed loc + (r1 - 0.5) * 5 in
      let speed2 := Math_max 10 (Math_min 100 speed1) in
      let* r2 := Math_random in
      let* heading2 :=
        (if ltb r2 0.1 then
           let* r3 := Math_random in
           let heading1 := heading loc + (r3 - 0.5) * 30 in
           ret (rem (heading1 + 360) 360)
         else ret (heading loc)) in
      ret (with_location vehicle
             {| lat := lat loc + latDelta; lng := lng loc + lngDelta;
                speed := speed2; heading := heading2;
                altitude := altitude loc |})
  | idle => ret vehicle
  end.

Definition updateFuelData (vehicle : Vehicle) : Vehicle :=
  let f := fuel vehicle in
  match state (status vehicle) with
  | driving =>
      let consumption_ :=
        speed (location vehicle) / efficiency f / 3600 in
      let deltaTime := this_updateInterval / 1000 in
      let fuelUsed := consumption_ * deltaTime in
      with_fuel vehicle
        {| level := Math_max 0 (level f - fuelUsed);
           capacity := capacity f; efficiency := efficiency f;
           consumption := consumption_ * 3600;
           lastFill := lastFill f |}
  | idle =>
      with_fuel vehicle
        {| level := level f; capacity := capacity f;
           efficiency := efficiency f; consumption := 0;
           lastFill := lastFill f |}
  end.

Definition faultCatalog : list string :=
  [ "P0171"; "P0300"; "P0420"; "P0128"; "P0442" ]%string.

Definition updateEngineData (vehicle : Vehicle) : Rand Vehicle :=
  let e := engine vehicle in
  let* e1 :=
    (match state (status vehicle) with
     | driving =>
         let baseRpm := 800 + (speed (location vehicle) / 100) * 2500 in
         let* r1 := Math_random in
         let* r2 := Math_random in
         let temperature1 := temperature e + (r2 - 0.5) * 2 in
         let* r3 := Math_random in
         let oilPressure1 := oilPressure e + (r3 - 0.5) * 2 in
         ret {| rpm := baseRpm + (r1 - 0.5) * 200;
                temperature := Math_max 80 (Math_min 105 temperature1);
                oilPressure := Math_max 25 (Math_min 55 oilPressure1);
                voltage := voltage e; faultCodes := faultCodes e;
                hours := hours e |}
     | idle =>
         let* r1 := Math_random in
         ret {| rpm := 800 + (r1 - 0.5) * 100;
                temperature := Math_max 85 (temperature e - 0.5);
                oilPressure := oilPressure e;
                voltage := voltage e; faultCodes := faultCodes e;
                hours := hours e |}
     end) in
  let* r4 := Math_random in
  let voltage1 := voltage e1 + (r4 - 0.5) * 0.1 in
  let voltage2 := Math_max 12.0 (Math_min 14.5 voltage1) in
  let* r5 := Math_random in
  let* faultCodes2 :=
    (if ltb r5 0.001 && bool_decide (length (faultCodes e1) < 3)%nat then
       let* r6 := Math_random in
       let newFault :=
         array_get faultCatalog
           (Math_floor (r6 * inject_Z (Z.of_nat (length faultCatalog)))) in
       if includes (faultCodes e1) newFault
       then ret (faultCodes e1)
       else ret (push (faultCodes e1) newFault)
     else ret (faultCodes e1)) in
  ret (with_engine vehicle
         {| rpm := rpm e1; temperature := temperature e1;
            oilPressure := oilPressure e1; voltage := voltage2;
            faultCodes := faultCodes2; hours := hours e1 |}).

Definition updateDriverBehavior (vehicle : Vehicle) : Rand Vehicle :=
  let d := driver vehicle in
  let* d1 :=
    (match state (status vehicle) with
     | driving =>
         let* r1 := Math_random in
         let* d0 :=
           (if ltb r1 0.01 then
              let* eventType := Math_random in
              if ltb eventType 0.4 then
                ret {| driver_id := driver_id d; score := score d;
                       harshAcceleration := (harshAcceleration d + 1)%Z;
                       harshBraking := harshBraking d;
                       harshCornering := harshCornering d;
                       idleTime := idleTime d;
                       drivingTime := drivingTime d |}
              else if ltb eventType 0.7 then
                ret {| driver_id := driver_id d; score := score d;
                       harshAcceleration := harshAcceleration d;
                       harshBraking := (harshBraking d + 1)%Z;
                       harshCornering := harshCornering d;
                       idleTime := idleTime d;
                       drivingTime := drivingTime d |}
              else
                ret {| driver_id := driver_id d; score := score d;
                       harshAcceleration := harshAcceleration d;
                       harshBraking := harshBraking d;
                       harshCornering := (harshCornering d + 1)%Z;
                       idleTime := idleTime d;
                       drivingTime := drivingTime d |}
            else ret d) in
         ret {| driver_id := driver_id d0; score := score d0;
                harshAcceleration := harshAcceleration d0;
                harshBraking := harshBraking d0;
                harshCornering := harshCornering d0;
                idleTime := idleTime d0;
                drivingTime :=
                  drivingTime d0 + this_updateInterval / 60000 |}
     | idle =>
         ret {| driver_id := driver_id d; score := score d;
                harshAcceleration := harshAcceleration d;
                harshBraking := harshBraking d;
                harshCornering := harshCornering d;
                idleTime := idleTime d + this_updateInterval / 60000;
                drivingTime := drivingTime d |}
     end) in
  let events :=
    inject_Z (harshAcceleration d1 + harshBraking d1 + harshCornering d1) in
  let hours_ := drivingTime d1 / 60 in
  let eventsPerHour := if gtb hours_ 0 then events / hours_ else 0 in
  ret (with_driver vehicle
         {| driver_id := driver_id d1;
            score := Math_max 50 (100 - (eventsPerHour * 10));
            harshAcceleration := harshAcceleration d1;
            harshBraking := harshBraking d1;
            harshCornering := harshCornering d1;
            idleTime := idleTime d1; drivingTime := drivingTime d1 |}).

Definition updateVehicleStatus (vehicle : Vehicle) : Rand Vehicle :=
  let s := status vehicle in
  let* r1 := Math_random in
  let state1 :=
    if ltb r1 0.01
    then (match state s with driving => idle | idle => driving end)
    else state s in
  let* r2 := Math_random in
  let connected1 := if ltb r2 0.001 then negb (connected s) else connected s in
  let nextMaintenance1 :=
    match state1 with
    | driving =>
        Math_max 0
          (nextMaintenance s
           - speed (location vehicle) * (this_updateInterval / 3600000))
    | idle => nextMaintenance s
    end in
  ret (with_status vehicle
         {| state := state1; route := route s;
            nextMaintenance := nextMaintenance1;
            lastUpdate := lastUpdate s; connected := connected1 |}).

(** The callback of [this.vehicles.forEach] in [updateVehicleData]. *)
Definition updateVehicle (now : Q) (vehicle : Vehicle) : Rand Vehicle :=
  let* v1 := updateVehicleLocation vehicle in
  let v2 := updateFuelData v1 in
  let* v3 := updateEngineData v2 in
  let* v4 := updateDriverBehavior v3 in
  let* v5 := updateVehicleStatus v4 in
  let s := status v5 in
  ret (with_status v5
         {| state := state s; route := route s;
            nextMaintenance := nextMaintenance s;
            lastUpdate := now; connected := connected s |}).

End Simulation.

(** [updateVehicleData]: every vehicle once, in [Map] order. *)
Definition updateVehicleData (Math : MathLib) (now : Q)
    (this : FleetTelematicsData) : Rand FleetTelematicsData :=
  let* m :=
    mapM (fun kv : string * Vehicle =>
            let* v := updateVehicle Math (updateInterval this) now (snd kv) in
            ret (fst kv, v))
         (vehicles this) in
  ret {| vehicles := m; updateInterval := updateInterval this;
         isRunning := isRunning this |}.

Definition getAllVehicles (this : FleetTelematicsData) : list Vehicle :=
  Map_values (vehicles this).

Definition getVehicle (this : FleetTelematicsData) (id_ : string)
  : option Vehicle :=
  Map_get (vehicles this) id_.

Definition stopDataSimulation (this : FleetTelematicsData)
  : FleetTelematicsData :=
  {| vehicles := vehicles this; updateInterval := updateInterval this;
     isRunning := false |}.

(** [destroy()]: stop the timer and clear the [Map]. *)
Definition destroy (this : FleetTelematicsData) : FleetTelematicsData :=
  let this1 := stopDataSimulation this in
  {| vehicles := []; updateInterval := updateInterval this1;
     isRunning := isRunning this1 |}.

Definition Qsum (l : list Q) : Q := foldl Qplus 0 l.
Definition Q_of_nat (n : nat) : Q := inject_Z (Z.of_nat n).

Module Summary.
(** The object [getFleetSummary] returns.  [avgDriverScore] is [None]
    when the division is [0 / 0] (an empty fleet). *)
Record t := {
  total : nat; active : nat; idle : nat; connected : nat;
  avgSpeed : Q; totalFuel : Q; avgDriverScore : option Q;
  maintenanceAlerts : nat; faultCodes : nat }.
End Summary.

Definition getFleetSummary (this : FleetTelematicsData) : Summary.t :=
  let vehicles_ := getAllVehicles this in
  let activeVehicles :=
    filter (fun v => state (status v) = driving) vehicles_ in
  let connectedVehicles :=
    filter (fun v => connected (status v) = true) vehicles_ in
  {| Summary.total := length vehicles_;
     Summary.active := length activeVehicles;
     Summary.idle := length vehicles_ - length activeVehicles;
     Summary.connected := length connectedVehicles;
     Summary.avgSpeed :=
       if bool_decide (0 < length activeVehicles)%nat
       then Qsum ((fun v => speed (location v)) <$> activeVehicles)
            / Q_of_nat (length activeVehicles)
       else 0;
     Summary.totalFuel := Qsum ((fun v => level (fuel v)) <$> vehicles_);
     Summary.avgDriverScore :=
       if bool_decide (length vehicles_ = 0)%nat then None
       else Some (Qsum ((fun v => score (driver v)) <$> vehicles_)
                  / Q_of_nat (length vehicles_));
     Summary.maintenanceAlerts :=
       length (filter (fun v => ltb (nextMaintenance (status v)) 500 = true)
                 vehicles_);
     Summary.faultCodes :=
       foldl (fun sum v => (sum + length (faultCodes (engine v)))%nat)
             0%nat vehicles_ |}.

(** The numbers a metric's [value] and [detail] strings are rendered
    from.  The rendering itself ([toFixed] and the template text) is not
    modelled. *)
Inductive MetricText :=
| TSpeed (kmh : Q)
| TLatLng (lat_ lng_ : Q)
| TPercent (percent : Q)
| TLitres (level_ capacity_ : Q)
| TCelsius (temperature_ : Q)
| TRpm (rpm_ : Q)
| TScore (score_ : Q)
| THours (drivingTime_ : Q)
| TRatio (active_ total_ : nat)
| TConnected (connected_ : nat).

Module Metric.
(** [type], [status] and [priority] are the source's string tags. *)
Record t := {
  type : string; vehicleId : string; label : string;
  value : MetricText; detail : MetricText;
  status : string; priority : string }.
End Metric.

Definition state_string (s : RunState) : string :=
  match s with driving => "driving" | idle => "idle" end.

(** The four [metrics.push] calls for one vehicle. *)
Definition vehicleMetrics (vehicle : Vehicle) : list Metric.t :=
  let fuelPercent :=
    level (fuel vehicle) / capacity (fuel vehicle) * 100 in
  [ {| Metric.type := "location";
       Metric.vehicleId := id vehicle;
       Metric.label := id vehicle;
       Metric.value := TSpeed (speed (location vehicle));
       Metric.detail :=
         TLatLng (lat (location vehicle)) (lng (location vehicle));
       Metric.status := state_string (state (status vehicle));
       Metric.priority :=
         match state (status vehicle) with
         | driving => "high" | idle => "normal"
         end |};
    {| Metric.type := "fuel";
       Metric.vehicleId := id vehicle;
       Metric.label := vtype vehicle;
       Metric.value := TPercent fuelPercent;
       Metric.detail :=
         TLitres (level (fuel vehicle)) (capacity (fuel vehicle));
       Metric.status :=
         if ltb fuelPercent 20 then "critical"
         else if ltb fuelPercent 40 then "warning" else "normal";
       Metric.priority :=
         if ltb fuelPercent 20 then "critical" else "normal" |};
    {| Metric.type := "engine";
       Metric.vehicleId := id vehicle;
       Metric.label := "Engine";
       Metric.value := TCelsius (temperature (engine vehicle));
       Metric.detail := TRpm (rpm (engine vehicle));
       Metric.status :=
         if gtb (temperature (engine vehicle)) 100
         then "warning" else "normal";
       Metric.priority :=
         if bool_decide (0 < length (faultCodes (engine vehicle)))%nat
         then "high" else "normal" |};
    {| Metric.type := "driver";
       Metric.vehicleId := id vehicle;
       Metric.label := String.append "Driver " (driver_id (driver vehicle));
       Metric.value := TScore (score (driver vehicle));
       Metric.detail := THours (drivingTime (driver vehicle));
       Metric.status :=
         if ltb (score (driver vehicle)) 70 then "warning" else "normal";
       Metric.priority :=
         if ltb (score (driver vehicle)) 60 then "high" else "normal" |}
  ]%string.

Definition fleetMetric (summary : Summary.t) : Metric.t :=
  {| Metric.type := "fleet";
     Metric.vehicleId := "FLEET";
     Metric.label := "Fleet Status";
     Metric.value := TRatio (Summary.active summary) (Summary.total summary);
     Metric.detail := TConnected (Summary.connected summary);
     Metric.status :=
       if ltb (Q_of_nat (Summary.connected summary))
              (Q_of_nat (Summary.total summary) * 0.9)
       then "warning" else "normal";
     Metric.priority := "high" |}%string.

Definition getDisplayMetrics (this : FleetTelematicsData)
  : list Metric.t :=
  let vehicles_ := getAllVehicles this in
  let metrics := vehicles_ ≫= vehicleMetrics in
  let summary := getFleetSummary this in
  push metrics (fleetMetric summary).

End Fleet.

(* ===================================================================== *)
(** * ParticlesOptimized: pool, governor and frame update *)
(* ===================================================================== *)

Module Overlay.

Import JS.

(** ** Data *)

Record Vector3 := { x : R; y : R; z : R }.

(** [element.style.display]. *)
Inductive Display := display_none | display_block.

(** What [element.innerHTML] shows: the initial placeholder, the three
    lines rendered from a metric with the status colour, or the fallback
    of the [default] branch. *)
Inductive Content :=
| content_initial
| content_metric (header : string) (value detail : Fleet.MetricText)
    (statusColor : string)
| content_default.

(** The DOM element: the style properties the code writes, and its
    content.  [transform] is the pair of pixel offsets of
    [translate3d(x px, y px, 0)], absent until first written. *)
Record TextElement := {
  display : Display; opacity : R; transform : option (R * R);
  innerHTML : Content }.

Record UserData := {
  originalPosition : Vector3; velocity : Vector3;
  life : R; random : R; metricIndex : nat; isVisible : bool }.

Record Mesh := { position : Vector3; userData : UserData }.

(** [mesh.userData.element] is the same DOM element as [element]; it is
    kept once. *)
Record PooledObject := {
  element : TextElement; mesh : Mesh; isActive : bool; lastUpdate : Q }.

Record Settings := {
  scale : Q; textCount : Z; updateInterval : Q; maxVisibleDistance : Q;
  cullingEnabled : bool; poolSize : nat }.

(** [Math.round(1000 * frameCount / deltaTime)]: an integer, or
    [Infinity]/[NaN] when [deltaTime] is 0. *)
Inductive Number := Finite (n : Z) | Infinity | NaN.

(** The instance.  A pooled object is a shared mutable object: it lives
    once, in [textElementPool], and [activeElements] and
    [inactiveElements] hold references to it, a reference being the
    object's position in [textElementPool]. *)
Record t := {
  settings : Settings;
  textElementPool : list PooledObject;
  activeElements : list nat;
  inactiveElements : list nat;
  fleetData : Fleet.FleetTelematicsData;
  currentMetrics : list Fleet.Metric.t;
  frameCount : nat;
  lastFPSCheck : Q;
  currentFPS : Number }.

Definition with_textCount (s : Settings) (n : Z) : Settings :=
  {| scale := scale s; textCount := n; updateInterval := updateInterval s;
     maxVisibleDistance := maxVisibleDistance s;
     cullingEnabled := cullingEnabled s; poolSize := poolSize s |}.

Definition with_pool (this : t) (pool : list PooledObject)
    (active inactive : list nat) : t :=
  {| settings := settings this; textElementPool := pool;
     activeElements := active; inactiveElements := inactive;
     fleetData := fleetData this; currentMetrics := currentMetrics this;
     frameCount := frameCount this; lastFPSCheck := lastFPSCheck this;
     currentFPS := currentFPS this |}.

Definition with_element (obj : PooledObject) (e : TextElement)
  : PooledObject :=
  {| element := e; mesh := mesh obj; isActive := isActive obj;
     lastUpdate := lastUpdate obj |}.

Definition with_userData (obj : PooledObject) (u : UserData)
  : PooledObject :=
  {| element := element obj;
     mesh := {| position := position (mesh obj); userData := u |};
     isActive := isActive obj; lastUpdate := lastUpdate obj |}.

Definition with_position (obj : PooledObject) (p : Vector3)
  : PooledObject :=
  {| element := element obj;
     mesh := {| position := p; userData := userData (mesh obj) |};
     isActive := isActive obj; lastUpdate := lastUpdate obj |}.

Definition with_isActive (obj : PooledObject) (b : bool) : PooledObject :=
  {| element := element obj; mesh := mesh obj; isActive := b;
     lastUpdate := lastUpdate obj |}.

Definition with_display (e : TextElement) (d : Display) : TextElement :=
  {| display := d; opacity := opacity e; transform := transform e;
     innerHTML := innerHTML e |}.

Definition with_isVisible (u : UserData) (b : bool) : UserData :=
  {| originalPosition := originalPosition u; velocity := velocity u;
     life := life u; random := random u; metricIndex := metricIndex u;
     isVisible := b |}.

Definition with_life (u : UserData) (l : R) : UserData :=
  {| originalPosition := originalPosition u; velocity := velocity u;
     life := l; random := random u; metricIndex := metricIndex u;
     isVisible := isVisible u |}.

(** [obj.element.style.display = d; obj.mesh.userData.isVisible = b]. *)
Definition show (d : Display) (b : bool) (obj : PooledObject)
  : PooledObject :=
  with_userData (with_element obj (with_display (element obj) d))
    (with_isVisible (userData (mesh obj)) b).

(** ** Device capability *)

Record Navigator := {
  userAgent : string; hardwareConcurrency : option Z }.

Definition lower (c : ascii) : ascii :=
  let n := nat_of_ascii c in
  if bool_decide (65 ≤ n)%nat && bool_decide (n ≤ 90)%nat
  then ascii_of_nat (n + 32) else c.

Fixpoint lowercase (s : string) : string :=
  match s with
  | EmptyString => EmptyString
  | String c s' => String (lower c) (lowercase s')
  end.

Fixpoint contains (sub s : string) : bool :=
  String.prefix sub s
  || match s with
     | EmptyString => false
     | String _ s' => contains sub s'
     end.

(** [/Android|webOS|iPhone|iPad|iPod|BlackBerry|IEMobile|Opera Mini/i]. *)
Definition mobile_names : list string :=
  [ "Android"; "webOS"; "iPhone"; "iPad"; "iPod"; "BlackBerry";
    "IEMobile"; "Opera Mini" ]%string.

Definition isMobile_test (ua : string) : bool :=
  existsb (fun name => contains (lowercase name) (lowercase ua))
          mobile_names.

Definition getOptimalTextCount (navigator : Navigator) : Z :=
  let isMobile := isMobile_test (userAgent navigator) in
  let isLowEnd :=
    match hardwareConcurrency navigator with
    | Some n => (n <=? 4)%Z
    | None => false
    end in
  if isMobile then 12%Z else if isLowEnd then 16%Z else 24%Z.

(** ** The pool *)

Local Open Scope R_scope.

(** [createTextElement] and [createMeshForElement]; [draws k] is the
    [k]-th value [Math.random()] returns while the pool is built (eight
    per object). *)
Definition createTextElement (index : nat) : TextElement :=
  {| display := display_none; opacity := 0; transform := None;
     innerHTML := content_initial |}.

Definition createMeshForElement (draws : nat -> R) (index : nat) : Mesh :=
  let d k := draws (8 * index + k)%nat in
  let radius := 2 + d 0%nat * 3 in
  let theta := d 1%nat * PI * 2 in
  let phi := d 2%nat * PI in
  let x_ := radius * sin phi * cos theta in
  let y_ := radius * sin phi * sin theta in
  let z_ := radius * cos phi in
  {| position := {| x := x_; y := y_; z := z_ |};
     userData := {|
       originalPosition := {| x := x_; y := y_; z := z_ |};
       velocity := {| x := (d 3%nat - 0.5) * 0.01;
                      y := (d 4%nat - 0.5) * 0.01;
                      z := (d 5%nat - 0.5) * 0.01 |};
       life := d 6%nat; random := d 7%nat;
       metricIndex := (index mod 4)%nat; isVisible := false |} |}.

Definition newPooledObject (draws : nat -> R) (i : nat) : PooledObject :=
  {| element := createTextElement i; mesh := createMeshForElement draws i;
     isActive := false; lastUpdate := 0%Q |}.

(** The loop of [createObjectPool] over the remaining indices. *)
Fixpoint createObjectPool_loop (draws : nat -> R) (idxs : list nat)
    (this : t) : t :=
  match idxs with
  | [] => this
  | i :: idxs' =>
      let pooledObject := newPooledObject draws i in
      (* the new object's reference is its position in the pool *)
      let ref := length (textElementPool this) in
      createObjectPool_loop draws idxs'
        (with_pool this
           (push (textElementPool this) pooledObject)
           (activeElements this)
           (push (inactiveElements this) ref))
  end.

Definition createObjectPool (draws : nat -> R) (this : t) : t :=
  createObjectPool_loop draws (seq 0 (poolSize (settings this))) this.

Definition getActiveObject (this : t) : option nat * t :=
  match pop (inactiveElements this) with
  | Some (obj, inactive') =>
      (Some obj,
       with_pool this
         (alter (fun o => with_isActive o true) obj (textElementPool this))
         (push (activeElements this) obj)
         inactive')
  | None => (None, this)
  end.

(** [releaseObject(obj)] for a reference into the pool.  A reference to
    no pooled object leaves the instance as it is. *)
Definition releaseObject (this : t) (obj : nat) : t :=
  match textElementPool this !! obj with
  | None => this
  | Some o =>
      if negb (isActive o) then this
      else
        let pool' :=
          alter (fun o => show display_none false (with_isActive o false))
                obj (textElementPool this) in
        match indexOf (activeElements this) obj with
        | Some activeIndex =>
            with_pool this pool'
              (splice1 activeIndex (activeElements this))
              (push (inactiveElements this) obj)
        | None =>
            with_pool this pool' (activeElements this)
              (inactiveElements this)
        end
  end.

(** ** The governor *)

Definition with_governor (this : t) (n : Z) (fps : Number) (now : Q) : t :=
  {| settings := with_textCount (settings this) n;
     textElementPool := textElementPool this;
     activeElements := activeElements this;
     inactiveElements := inactiveElements this;
     fleetData := fleetData this; currentMetrics := currentMetrics this;
     frameCount := 0; lastFPSCheck := now; currentFPS := fps |}.

(** [Math.round(1000 * frameCount / deltaTime)]. *)
Definition measureFPS (frames : nat) (deltaTime : Q) : Number :=
  if Qeq_bool deltaTime 0 then
    match frames with O => NaN | S _ => Infinity end
  else Finite (Math_round (1000 * Fleet.Q_of_nat frames / deltaTime)%Q).

(** [fps < k] and [fps > k]; every comparison with [NaN] is false. *)
Definition Number_ltb (fps : Number) (k : Z) : bool :=
  match fps with Finite n => (n <? k)%Z | Infinity => false | NaN => false end.
Definition Number_gtb (fps : Number) (k : Z) : bool :=
  match fps with Finite n => (k <? n)%Z | Infinity => true | NaN => false end.

(** [checkPerformance()], with [now] the value of [performance.now()]. *)
Definition checkPerformance (navigator : Navigator) (now : Q) (this : t)
  : t :=
  let deltaTime := (now - lastFPSCheck this)%Q in
  let fps := measureFPS (frameCount this) deltaTime in
  let count := textCount (settings this) in
  let count' :=
    if Number_ltb fps 30 && (8 <? count)%Z then Z.max 8 (count - 2)
    else if Number_gtb fps 50 && (count <? getOptimalTextCount navigator)%Z
         then Z.min (getOptimalTextCount navigator) (count + 1)
         else count in
  with_governor this count' fps now.

(** [setupPerformanceMonitoring()] is
    [setInterval(() => this.checkPerformance(), 5000)]: the period of
    the governor's timer, in milliseconds. *)
Definition setupPerformanceMonitoring_period : Q := 5000.

(** ** Reconciliation *)

(** How a call ends: it returns, it throws, or the model's bound on loop
    iterations was too small to tell. *)
Inductive Outcome (A : Type) :=
| Returns (a : A)
| Throws
| OutOfFuel.
Arguments Returns {A} a.
Arguments Throws {A}.
Arguments OutOfFuel {A}.

(** [this.activeElements.forEach((obj, index) => ...)] for a callback
    that mutates [obj]. *)
Fixpoint forEach (f : nat -> PooledObject -> PooledObject)
    (active : list nat) (index : nat) (pool : list PooledObject)
  : list PooledObject :=
  match active with
  | [] => pool
  | obj :: rest => forEach f rest (S index) (alter (f index) obj pool)
  end.

Definition statusColor_of (status : string) : string :=
  if String.eqb status "warning" then "#ffb366"
  else if String.eqb status "critical" then "#ff6b6b"
  else "#60b2ff".

Definition updateElementContent (now : Q) (metric : Fleet.Metric.t)
    (obj : PooledObject) : PooledObject :=
  let statusColor := statusColor_of (Fleet.Metric.status metric) in
  let ty := Fleet.Metric.type metric in
  let content :=
    if String.eqb ty "location" || String.eqb ty "fuel"
       || String.eqb ty "engine"
    then content_metric (Fleet.Metric.vehicleId metric)
           (Fleet.Metric.value metric) (Fleet.Metric.detail metric)
           statusColor
    else if String.eqb ty "driver" || String.eqb ty "fleet"
    then content_metric (Fleet.Metric.label metric)
           (Fleet.Metric.value metric) (Fleet.Metric.detail metric)
           statusColor
    else content_default in
  let e := element obj in
  {| element := {| display := display e; opacity := opacity e;
                   transform := transform e; innerHTML := content |};
     mesh := mesh obj; isActive := isActive obj; lastUpdate := now |}.

(** The callback shared by [updateDisplayMetrics] and
    [updateTextContent]. *)
Definition refreshContent (now : Q) (metrics : list Fleet.Metric.t)
    (index : nat) (obj : PooledObject) : PooledObject :=
  match metrics !! index with
  | Some metric => updateElementContent now metric obj
  | None => obj
  end.

(** [while (activeElements.length > textCount) releaseObject(last)]. *)
Fixpoint releaseExcess (fuel : nat) (this : t) : Outcome t :=
  if bool_decide
       (textCount (settings this)
        < Z.of_nat (length (activeElements this)))%Z
  then
    match fuel with
    | O => OutOfFuel
    | S fuel' =>
        match last (activeElements this) with
        | Some obj => releaseExcess fuel' (releaseObject this obj)
        | None => Throws
        end
    end
  else Returns this.

(** [while (activeElements.length < Math.min(textCount, metrics.length))]
    with its [break] on an exhausted pool. *)
Fixpoint activateNeeded (fuel : nat) (this : t) : Outcome t :=
  if bool_decide
       (Z.of_nat (length (activeElements this))
        < Z.min (textCount (settings this))
                (Z.of_nat (length (currentMetrics this))))%Z
  then
    match fuel with
    | O => OutOfFuel
    | S fuel' =>
        match getActiveObject this with
        | (Some obj, this') =>
            activateNeeded fuel'
              (with_pool this'
                 (alter (show display_block true) obj
                    (textElementPool this'))
                 (activeElements this') (inactiveElements this'))
        | (None, _) => Returns this
        end
    end
  else Returns this.

Definition with_currentMetrics (this : t) (m : list Fleet.Metric.t) : t :=
  {| settings := settings this; textElementPool := textElementPool this;
     activeElements := activeElements this;
     inactiveElements := inactiveElements this;
     fleetData := fleetData this; currentMetrics := m;
     frameCount := frameCount this; lastFPSCheck := lastFPSCheck this;
     currentFPS := currentFPS this |}.

Definition updateDisplayMetrics_fuel (fuel : nat) (now : Q) (this : t)
  : Outcome t :=
  let this0 :=
    with_currentMetrics this (Fleet.getDisplayMetrics (fleetData this)) in
  match releaseExcess fuel this0 with
  | Returns this1 =>
      match activateNeeded fuel this1 with
      | Returns this2 =>
          Returns
            (with_pool this2
               (forEach (refreshContent now (currentMetrics this2))
                  (activeElements this2) 0 (textElementPool this2))
               (activeElements this2) (inactiveElements this2))
      | Throws => Throws
      | OutOfFuel => OutOfFuel
      end
  | Throws => Throws
  | OutOfFuel => OutOfFuel
  end.

(** Neither loop can run more often than there are references. *)
Definition updateDisplayMetrics (now : Q) (this : t) : Outcome t :=
  updateDisplayMetrics_fuel
    (S (length (activeElements this) + length (inactiveElements this)))
    now this.

Definition updateTextContent (now : Q) (this : t) : t :=
  let this0 :=
    with_currentMetrics this (Fleet.getDisplayMetrics (fleetData this)) in
  with_pool this0
    (forEach (refreshContent now (currentMetrics this0))
       (activeElements this0) 0 (textElementPool this0))
    (activeElements this0) (inactiveElements this0).

(** ** The frame update *)

(** [a > b], [a < b] and [a <= b] on real numbers, as booleans. *)
Definition Rgtb (a b : R) : bool := if Rgt_dec a b then true else false.
Definition Rltb (a b : R) : bool := if Rlt_dec a b then true else false.
Definition Rleb (a b : R) : bool := if Rle_dec a b then true else false.

Section Frame.

(** The camera and [Vector3.project(camera)] belong to the 3D library. *)
Context {Camera : Type} (project : Camera -> Vector3 -> Vector3).

(** What one call of [update()] reads from its environment:
    [gl.time.elapsed], the camera if there is one, whether
    [window.requestIdleCallback] exists, the audio level if there is
    one, and [gl.sizes]. *)
Record FrameContext := {
  elapsed : R; camera : option Camera; requestIdleCallback : bool;
  synthLoop : option R; width : R; height : R }.

Definition updateNonCritical_obj (obj : PooledObject) : PooledObject :=
  let u := userData (mesh obj) in
  let life1 := life u + 0.005 in
  with_userData obj
    (with_life u (if Rgtb life1 1 then 0 else life1)).

Definition updateNonCritical (this : t) : t :=
  with_pool this
    (forEach (fun _ => updateNonCritical_obj)
       (activeElements this) 0 (textElementPool this))
    (activeElements this) (inactiveElements this).

(** [lifeAlpha * distanceAlpha * 0.9] of [updateCritical]. *)
Definition finalAlpha_of (life_ distance : R) : R :=
  let lifeAlpha := sin (life_ * PI) in
  let distanceAlpha := if Rgtb distance 1 then 0 else 1 - distance in
  lifeAlpha * distanceAlpha * 0.9.

(** Where the flow field puts the anchor of the member at position
    [index] of [activeElements]. *)
Definition flowPosition (flowStrength time : R) (index : nat) (u : UserData)
  : Vector3 :=
  let noiseX := sin (time * 0.5 + INR index * 0.1) * 0.02 in
  let noiseY := cos (time * 0.3 + INR index * 0.15) * 0.02 in
  let noiseZ := sin (time * 0.7 + INR index * 0.2) * 0.02 in
  {| x := x (originalPosition u) + noiseX * flowStrength;
     y := y (originalPosition u) + noiseY * flowStrength;
     z := z (originalPosition u) + noiseZ * flowStrength |}.

(** The callback of [updateCritical]'s [forEach]. *)
Definition updateCritical_obj (culling : bool) (flowStrength : R)
    (time : R) (cam : Camera) (width_ height_ : R)
    (index : nat) (obj : PooledObject) : PooledObject :=
  let u := userData (mesh obj) in
  let position1 := flowPosition flowStrength time index u in
  let obj1 := with_position obj position1 in
  let worldPosition := project cam position1 in
  let distance := z worldPosition in
  if culling && (Rgtb distance 1 || Rltb distance (-1))
  then
    if isVisible u then show display_none false obj1 else obj1
  else
    let screenX := (x worldPosition * 0.5 + 0.5) * width_ in
    let screenY := (- y worldPosition * 0.5 + 0.5) * height_ in
    let finalAlpha := finalAlpha_of (life u) distance in
    let e := element obj1 in
    let shown :=
      if Rgtb finalAlpha 0.1 && negb (isVisible u)
      then (display_block, true)
      else if Rleb finalAlpha 0.1 && isVisible u
           then (display_none, false)
           else (display e, isVisible u) in
    with_userData
      (with_element obj1
         {| display := fst shown;
            opacity := if snd shown then finalAlpha else opacity e;
            transform := Some (screenX, screenY);
            innerHTML := innerHTML e |})
      (with_isVisible u (snd shown)).

Definition flowStrength_of (audio : option R) : R :=
  0.5 + (match audio with Some a => a | None => 0 end) * 0.001.

Definition updateCritical (ctx : FrameContext) (time : R) (cam : Camera)
    (this : t) : t :=
  let flowStrength := flowStrength_of (synthLoop ctx) in
  with_pool this
    (forEach
       (updateCritical_obj (cullingEnabled (settings this)) flowStrength
          time cam (width ctx) (height ctx))
       (activeElements this) 0 (textElementPool this))
    (activeElements this) (inactiveElements this).

Definition with_frameCount (this : t) (n : nat) : t :=
  {| settings := settings this; textElementPool := textElementPool this;
     activeElements := activeElements this;
     inactiveElements := inactiveElements this;
     fleetData := fleetData this; currentMetrics := currentMetrics this;
     frameCount := n; lastFPSCheck := lastFPSCheck this;
     currentFPS := currentFPS this |}.

(** [update()].  With [requestIdleCallback] the non-critical pass is
    only scheduled here and runs later, as [updateNonCritical]. *)
Definition update (ctx : FrameContext) (this : t) : t :=
  match activeElements this with
  | [] => this
  | _ :: _ =>
      let this1 := with_frameCount this (S (frameCount this)) in
      let time := elapsed ctx * 0.001 in
      match camera ctx with
      | None => this1
      | Some cam =>
          let this2 :=
            if requestIdleCallback ctx then this1
            else updateNonCritical this1 in
          updateCritical ctx time cam this2
      end
  end.

End Frame.

(** ** Construction *)

(** [new ParticlesOptimized()]: the settings, the fleet service, and
    [init()], whose effective [setupDataUpdates] is the second one the
    class declares (the later method of the same name replaces the
    earlier), so the initial refresh is [updateTextContent]. *)
Definition constructor (navigator : Navigator)
    (fleet : Fleet.FleetTelematicsData) (draws : nat -> R)
    (perfNow now : Q) : t :=
  let this :=
    {| settings := {| scale := 0.25;
                      textCount := getOptimalTextCount navigator;
                      updateInterval := 2000; maxVisibleDistance := 50;
                      cullingEnabled := true; poolSize := 32 |};
       textElementPool := []; activeElements := []; inactiveElements := [];
       fleetData := fleet; currentMetrics := [];
       frameCount := 0; lastFPSCheck := perfNow; currentFPS := Finite 60 |} in
  updateTextContent now (createObjectPool draws this).

End Overlay.

(* ===================================================================== *)
(** * The running system *)
(* ===================================================================== *)

Module System.

Import Overlay.

Definition with_fleetData (this : t) (f : Fleet.FleetTelematicsData) : t :=
  {| settings := settings this; textElementPool := textElementPool this;
     activeElements := activeElements this;
     inactiveElements := inactiveElements this;
     fleetData := f; currentMetrics := currentMetrics this;
     frameCount := frameCount this; lastFPSCheck := lastFPSCheck this;
     currentFPS := currentFPS this |}.

(** The fleet service after construction and any number of timer ticks. *)
Inductive fleet_reachable : Fleet.FleetTelematicsData -> Prop :=
| fleet_init now tape :
    tape_ok tape ->
    fleet_reachable (fst (Fleet.constructor now tape))
| fleet_tick Math now tape f :
    fleet_reachable f -> tape_ok tape ->
    fleet_reachable (fst (Fleet.updateVehicleData Math now f tape)).

(** One call into the overlay instance, or one tick of its fleet. *)
Inductive step (navigator : Navigator) : t -> t -> Prop :=
| step_acquire this :
    step navigator this (snd (getActiveObject this))
| step_release this obj :
    step navigator this (releaseObject this obj)
| step_reconcile this now this' :
    updateDisplayMetrics now this = Returns this' ->
    step navigator this this'
| step_textContent this now :
    step navigator this (updateTextContent now this)
| step_governor this now :
    step navigator this (checkPerformance navigator now this)
| step_frame (Camera : Type) (project : Camera -> Vector3 -> Vector3)
    (ctx : FrameContext) this :
    step navigator this (update project ctx this)
| step_idle this :
    step navigator this (updateNonCritical this)
| step_tick Math now tape this :
    tape_ok tape ->
    step navigator this
      (with_fleetData this
         (fst (Fleet.updateVehicleData Math now (fleetData this) tape))).

(** The instance after construction and any interleaving of calls. *)
Inductive reachable (navigator : Navigator) : t -> Prop :=
| reachable_init tape draws perfNow now :
    tape_ok tape ->
    reachable navigator
      (constructor navigator (fst (Fleet.constructor now tape)) draws
         perfNow now)
| reachable_step this this' :
    reachable navigator this -> step navigator this this' ->
    reachable navigator this'.

(** ** Invariants *)

(** The two lists partition the pool's references, and the flag of
    every pooled object says which list it is in. *)
Definition pool_wf (this : t) : Prop :=
  length (textElementPool this) = poolSize (settings this)
  /\ NoDup (activeElements this ++ inactiveElements this)
  /\ (forall i, i ∈ activeElements this ++ inactiveElements this
                <-> (i < length (textElementPool this))%nat)
  /\ (forall i o, textElementPool this !! i = Some o ->
                  (isActive o = true <-> i ∈ activeElements this)).

(** The element is displayed exactly when it is marked visible. *)
Definition visible_sync (o : PooledObject) : Prop :=
  display (element o)
  = if isVisible (userData (mesh o)) then display_block else display_none.

Definition sync_all (this : t) : Prop :=
  Forall visible_sync (textElementPool this).

(** The fields a pool operation does not touch. *)
Definition same_config (this this' : t) : Prop :=
  settings this' = settings this
  /\ currentMetrics this' = currentMetrics this
  /\ fleetData this' = fleetData this.

(** What the simulation keeps true of a vehicle. *)
Definition fault_inv (codes : list (option string)) : Prop :=
  NoDup codes
  /\ (length codes <= 3)%nat
  /\ (forall c, c ∈ codes ->
        exists code, c = Some code /\ code ∈ Fleet.faultCatalog).

Definition fuel_inv (f : Fleet.Fuel) : Prop :=
  (0 <= Fleet.level f /\ Fleet.level f <= Fleet.capacity f
   /\ 0 < Fleet.efficiency f)%Q.

Definition location_inv (l : Fleet.Location) : Prop :=
  (10 <= Fleet.speed l /\ Fleet.speed l <= 100)%Q.

Definition driver_inv (d : Fleet.Driver) : Prop :=
  (50 <= Fleet.score d /\ Fleet.score d <= 100)%Q
  /\ (0 <= Fleet.harshAcceleration d /\ 0 <= Fleet.harshBraking d
      /\ 0 <= Fleet.harshCornering d)%Z.

Definition engine_inv (e : Fleet.Engine) : Prop :=
  fault_inv (Fleet.faultCodes e).

Definition vehicle_inv (v : Fleet.Vehicle) : Prop :=
  fuel_inv (Fleet.fuel v) /\ location_inv (Fleet.location v)
  /\ driver_inv (Fleet.driver v) /\ engine_inv (Fleet.engine v).

Definition fleet_inv (f : Fleet.FleetTelematicsData) : Prop :=
  Fleet.updateInterval f = 1000%Q
  /\ length (Fleet.vehicles f) = 12%nat
  /\ Forall vehicle_inv (Fleet.getAllVehicles f).

(** One window of the governor: [update()] counted [frames] frames, then
    the timer called [checkPerformance] at time [now]. *)
Definition window (navigator : Navigator) (frames : nat) (now : Q)
    (this : t) : t :=
  checkPerformance navigator now (with_frameCount this frames).

(** The timer of [setupPerformanceMonitoring] at work.  The constructor
    reads [performance.now()] into [lastFPSCheck] and installs the timer
    in the same turn, and every callback stores its own
    [performance.now()] there, so with a timer that keeps its period
    each evaluation comes 5000 ms after the time in [lastFPSCheck].
    [frames] lists, window by window, the frames [update()] counted;
    the result lists the instance after each evaluation. *)
Fixpoint monitoring_run (navigator : Navigator) (frames : list nat)
    (this : t) : list t :=
  match frames with
  | [] => []
  | f :: rest =>
      let this' :=
        window navigator f
          (lastFPSCheck this + setupPerformanceMonitoring_period)%Q this in
      this' :: monitoring_run navigator rest this'
  end.

(** The governor rule in the specification's words, on the unrounded
    [measuredFPS = frames * 1000 / windowMs]: decrease by 2 with floor 8
    below 30, increase by 1 up to the ceiling above 50, otherwise keep. *)
Definition spec_targetActive (ceiling : Z) (measuredFPS : Q)
    (targetActive : Z) : Z :=
  if JS.ltb measuredFPS 30 then Z.max 8 (targetActive - 2)
  else if JS.gtb measuredFPS 50 then Z.min ceiling (targetActive + 1)
  else targetActive.

(** The visibility alpha in the specification's words:
    [sin(lifePhase * pi) * (1 - clamp(z, 0, 1)) * 0.9]. *)
Definition clamp (x lo hi : R) : R := Rmax lo (Rmin hi x).

Definition spec_alpha (lifePhase depth : R) : R :=
  (sin (lifePhase * PI) * (1 - clamp depth 0 1) * 0.9)%R.

(** What holds of the instance whatever has been called on it. *)
Definition sys_inv (navigator : Navigator) (this : t) : Prop :=
  pool_wf this
  /\ poolSize (settings this) = 32%nat
  /\ cullingEnabled (settings this) = true
  /\ (8 <= textCount (settings this) <= getOptimalTextCount navigator)%Z
  /\ sync_all this
  /\ fleet_reachable (fleetData this).

(** The calls the program as wired makes into the instance: the two
    timers [init] installs (the second [setupDataUpdates] and
    [setupPerformanceMonitoring]), the owner's per-frame [update] with
    the idle callback it schedules, and the fleet's own timer.  Nothing
    installed calls [updateDisplayMetrics]. *)
Inductive wired_step (navigator : Navigator) : t -> t -> Prop :=
| wired_textContent this now :
    wired_step navigator this (updateTextContent now this)
| wired_governor this now :
    wired_step navigator this (checkPerformance navigator now this)
| wired_frame (Camera : Type) (project : Camera -> Vector3 -> Vector3)
    (ctx : FrameContext) this :
    wired_step navigator this (update project ctx this)
| wired_idle this :
    wired_step navigator this (updateNonCritical this)
| wired_tick Math now tape this :
    tape_ok tape ->
    wired_step navigator this
      (with_fleetData this
         (fst (Fleet.updateVehicleData Math now (fleetData this) tape))).

Inductive wired (navigator : Navigator) (draws : nat -> R) : t -> Prop :=
| wired_init tape perfNow now :
    tape_ok tape ->
    wired navigator draws
      (constructor navigator (fst (Fleet.constructor now tape)) draws
         perfNow now)
| wired_next this this' :
    wired navigator draws this -> wired_step navigator this this' ->
    wired navigator draws this'.

(** The ranges the simulation keeps the engine readings in. *)
Definition engine_range (e : Fleet.Engine) : Prop :=
  (12 <= Fleet.voltage e /\ Fleet.voltage e <= 14.5
   /\ 80 <= Fleet.temperature e /\ Fleet.temperature e <= 105
   /\ 25 <= Fleet.oilPressure e /\ Fleet.oilPressure e <= 55
   /\ 750 <= Fleet.rpm e /\ Fleet.rpm e < 3500)%Q
  /\ (1000 <= Fleet.hours e < 6000)%Z.

(** A compass heading, a distance still to drive and a driving time
    that never drops under its first hour. *)
Definition travel_range (v : Fleet.Vehicle) : Prop :=
  (0 <= Fleet.heading (Fleet.location v)
   /\ Fleet.heading (Fleet.location v) < 360
   /\ 0 <= Fleet.nextMaintenance (Fleet.status v)
   /\ 0 <= Fleet.idleTime (Fleet.driver v)
   /\ 60 <= Fleet.drivingTime (Fleet.driver v))%Q.

(** The keys of the [Map] after [initializeFleet]. *)
Definition fleet_keys : list string :=
  (fun i => Fleet.vehicle_id (Z.of_nat i + 1)) <$> seq 0 12.

(** What [initializeFleet] fixes for the vehicle stored under [key]. *)
Definition identity_of (key : string) (v : Fleet.Vehicle) : Prop :=
  Fleet.id v = key
  /\ exists i : nat,
       (i < 12)%nat
       /\ key = Fleet.vehicle_id (Z.of_nat i + 1)
       /\ Fleet.vehicleTypes !! (i mod 4)%nat
          = Some {| Fleet.vt_type := Fleet.vtype v;
                    Fleet.vt_fuel := Fleet.capacity (Fleet.fuel v);
                    Fleet.vt_efficiency := Fleet.efficiency (Fleet.fuel v) |}
       /\ Fleet.routes !! (i mod 5)%nat
          = Some (Fleet.route (Fleet.status v)).

(** What no tick writes: the attributes [initializeFleet] gave. *)
Definition static_of (v : Fleet.Vehicle) :=
  (Fleet.id v, Fleet.vtype v, Fleet.capacity (Fleet.fuel v),
   Fleet.efficiency (Fleet.fuel v), Fleet.lastFill (Fleet.fuel v),
   Fleet.altitude (Fleet.location v), Fleet.hours (Fleet.engine v),
   Fleet.driver_id (Fleet.driver v), Fleet.route (Fleet.status v)).

(** A pooled object that is not active is not drawn. *)
Definition hidden_if_inactive (o : PooledObject) : Prop :=
  isActive o = false ->
  display (element o) = display_none
  /\ isVisible (userData (mesh o)) = false.

Definition inactive_hidden (this : t) : Prop :=
  Forall hidden_if_inactive (textElementPool this).

End System.

(* ===================================================================== *)
(** * Particles: the earlier overlay's own fleet simulation *)
(* ===================================================================== *)

(** The class [Particles] keeps its vehicles in a [Map] of its own and
    updates them once a second.  A vehicle has an ignition flag instead
    of a driving state, and remembers the speed of its last running
    tick in [previousSpeed], absent until the first one.  Longitude is
    divided by a cosine; where that cosine is zero the quotient here is
    zero rather than infinite, and nothing below depends on it. *)
Module Legacy.

Import JS.
Local Open Scope Q_scope.

Record Engine := {
  temperature : Q; rpm : Q; load : Q; runtime : Q;
  faultCodes : list string }.

Record Driver := {
  driver_id : string; score : Q; drivingTime : Q; violations : Z }.

Record Status := {
  connected : bool; ignition : bool; lastUpdate : Q; nextMaintenance : Q }.

Record Vehicle := {
  id : string; vtype : string;
  location : Fleet.Location; fuel : Fleet.Fuel;
  engine : Engine; driver : Driver; status : Status;
  previousSpeed : option Q }.

(** [vehicle.previousSpeed || vehicle.location.speed]: an absent or zero
    [previousSpeed] is falsy. *)
Definition previousSpeed_or (prev : option Q) (speed_ : Q) : Q :=
  match prev with
  | Some p => if Qeq_bool p 0 then speed_ else p
  | None => speed_
  end.

Definition updateLocation (Math : Fleet.MathLib) (vehicle : Vehicle)
  : Rand Fleet.Location :=
  let loc := location vehicle in
  if ignition (status vehicle) then
    let* r1 := Math_random in
    let speed1 := Math_max 0 (Fleet.speed loc + (r1 - 0.5) * 10) in
    let* r2 := Math_random in
    let heading1 := Fleet.heading loc + (r2 - 0.5) * 20 in
    let speedKmh := speed1 in
    let speedMs := speedKmh / 3.6 in
    let deltaTime := 1 in
    let distance := speedMs * deltaTime in
    let headingRad := heading1 * Fleet.Math_PI Math / 180 in
    let lat1 :=
      Fleet.lat loc + (distance * Fleet.Math_cos Math headingRad) / 111000 in
    let lng1 :=
      Fleet.lng loc
      + (distance * Fleet.Math_sin Math headingRad)
        / (111000 * Fleet.Math_cos Math (lat1 * Fleet.Math_PI Math / 180)) in
    ret {| Fleet.lat := lat1; Fleet.lng := lng1; Fleet.speed := speed1;
           Fleet.heading := heading1; Fleet.altitude := Fleet.altitude loc |}
  else
    ret {| Fleet.lat := Fleet.lat loc; Fleet.lng := Fleet.lng loc;
           Fleet.speed := 0; Fleet.heading := Fleet.heading loc;
           Fleet.altitude := Fleet.altitude loc |}.

Definition updateFuel (vehicle : Vehicle) (loc : Fleet.Location)
  : Fleet.Fuel :=
  let f := fuel vehicle in
  if ignition (status vehicle) && gtb (Fleet.speed loc) 0 then
    let consumption_ :=
      (Fleet.speed loc / 100) * Fleet.efficiency f * (1 / 3600) in
    {| Fleet.level := Math_max 0 (Fleet.level f - consumption_);
       Fleet.capacity := Fleet.capacity f;
       Fleet.efficiency := Fleet.efficiency f;
       Fleet.consumption := Fleet.consumption f + consumption_;
       Fleet.lastFill := Fleet.lastFill f |}
  else f.

Definition updateEngine (vehicle : Vehicle) (loc : Fleet.Location)
  : Rand Engine :=
  let e := engine vehicle in
  if ignition (status vehicle) then
    let* r1 := Math_random in
    let temperature1 :=
      Math_min 120 (Math_max 80 (temperature e + (r1 - 0.5) * 2)) in
    let* r2 := Math_random in
    let rpm1 := 800 + (Fleet.speed loc / 100) * 2000 + (r2 - 0.5) * 200 in
    let* r3 := Math_random in
    let load1 := (Fleet.speed loc / 100) * 80 + r3 * 20 in
    ret {| temperature := temperature1; rpm := rpm1; load := load1;
           runtime := runtime e + 1 / 3600; faultCodes := faultCodes e |}
  else
    ret {| temperature := Math_max 20 (temperature e - 0.5);
           rpm := 0; load := 0;
           runtime := runtime e; faultCodes := faultCodes e |}.

(** The driver block; it also writes [previousSpeed]. *)
Definition updateDriver (vehicle : Vehicle) (loc : Fleet.Location)
  : Driver * option Q :=
  let d := driver vehicle in
  if ignition (status vehicle) then
    let score1 :=
      if gtb (Fleet.speed loc) 80 then Math_max 0 (score d - 0.1)
      else score d in
    let score2 :=
      if gtb (Math_abs (Fleet.speed loc
                    - previousSpeed_or (previousSpeed vehicle)
                        (Fleet.speed loc))) 20
      then Math_max 0 (score1 - 0.2)
      else score1 in
    ({| driver_id := driver_id d; score := score2;
        drivingTime := drivingTime d + 1 / 3600;
        violations := violations d |},
     Some (Fleet.speed loc))
  else (d, previousSpeed vehicle).

(** The callback of [this.vehicles.forEach] in [updateVehicleData]. *)
Definition updateVehicle (Math : Fleet.MathLib) (now : Q)
    (vehicle : Vehicle) : Rand Vehicle :=
  let* loc1 := updateLocation Math vehicle in
  let fuel1 := updateFuel vehicle loc1 in
  let* engine1 := updateEngine vehicle loc1 in
  let dp := updateDriver vehicle loc1 in
  let* r := Math_random in
  let s := status vehicle in
  let ignition1 := if ltb r 0.001 then negb (ignition s) else ignition s in
  ret {| id := id vehicle; vtype := vtype vehicle;
         location := loc1; fuel := fuel1; engine := engine1;
         driver := fst dp;
         status := {| connected := connected s; ignition := ignition1;
                      lastUpdate := now;
                      nextMaintenance := nextMaintenance s |};
         previousSpeed := snd dp |}.

Definition updateVehicleData (Math : Fleet.MathLib) (now : Q)
    (vehicles : list (string * Vehicle))
  : Rand (list (string * Vehicle)) :=
  mapM (fun kv : string * Vehicle =>
          let* v := updateVehicle Math now (snd kv) in
          ret (fst kv, v))
       vehicles.

(** A running vehicle at 60 km/h that has driven one tick, and the same
    vehicle parked after driving at 90 km/h. *)
Definition sample_running : Vehicle :=
  {| id := "VH-001"; vtype := "truck";
     location := {| Fleet.lat := 43.6532; Fleet.lng := -79.3832;
                    Fleet.speed := 60; Fleet.heading := 90;
                    Fleet.altitude := 76 |};
     fuel := {| Fleet.level := 150; Fleet.capacity := 300;
                Fleet.efficiency := 8.5; Fleet.consumption := 0;
                Fleet.lastFill := 0 |};
     engine := {| temperature := 90; rpm := 2000; load := 50;
                  runtime := 100; faultCodes := [] |};
     driver := {| driver_id := "DR-001"; score := 90; drivingTime := 1;
                  violations := 0 |};
     status := {| connected := true; ignition := true; lastUpdate := 0;
                  nextMaintenance := 1000 |};
     previousSpeed := Some 60 |}.

Definition sample_restarted : Vehicle :=
  {| id := "VH-001"; vtype := "truck";
     location := {| Fleet.lat := 43.6532; Fleet.lng := -79.3832;
                    Fleet.speed := 0; Fleet.heading := 90;
                    Fleet.altitude := 76 |};
     fuel := fuel sample_running; engine := engine sample_running;
     driver := driver sample_running;
     status := status sample_running;
     previousSpeed := Some 90 |}.

Definition sample_parked : Vehicle :=
  {| id := "VH-001"; vtype := "truck";
     location := location sample_running;
     fuel := fuel sample_running; engine := engine sample_running;
     driver := driver sample_running;
     status := {| connected := true; ignition := false; lastUpdate := 0;
                  nextMaintenance := 1000 |};
     previousSpeed := Some 60 |}.

End Legacy.

(* ===================================================================== *)
(** * Sample inputs *)
(* ===================================================================== *)

Module Sample.

(** A tape on which every draw is one half. *)
Definition tape_half : Tape := fun _ => (1 # 2)%Q.

(** A library whose trigonometry is flat; only [lat] and [lng] see it. *)
Definition Math_flat : Fleet.MathLib :=
  {| Fleet.Math_cos := fun _ => 1%Q; Fleet.Math_sin := fun _ => 0%Q;
     Fleet.Math_PI := (355 # 113)%Q |}.

Definition desktop : Overlay.Navigator :=
  {| Overlay.userAgent := "Mozilla/5.0 (X11; Linux x86_64)";
     Overlay.hardwareConcurrency := Some 8%Z |}.

Definition draws_half : nat -> R := fun _ => (1 / 2)%R.

(** A tape on which every draw is nine tenths: every vehicle starts idle
    and nothing toggles. *)
Definition tape_high : Tape := fun _ => (9 # 10)%Q.

(** [n] ticks of the simulation, each reading draws from [tape]. *)
Fixpoint ticks (tape : Tape) (n : nat) (f : Fleet.FleetTelematicsData)
  : Fleet.FleetTelematicsData :=
  match n with
  | O => f
  | S n' => ticks tape n' (fst (Fleet.updateVehicleData Math_flat 0 f tape))
  end.

(** The fleet whose vehicles all start idle. *)
Definition fleet_idle : Fleet.FleetTelematicsData :=
  fst (Fleet.constructor 0 tape_high).

(** The first vehicle [initializeFleet] creates on [tape_half]; it is
    driving. *)
Definition vehicle0 : Fleet.Vehicle :=
  fst (Fleet.newVehicle 0 0 tape_half).

(** The vehicle is idle, shows speed [q] and reports no consumption. *)
Definition idle_at (q : Q) (v : Fleet.Vehicle) : bool :=
  match Fleet.state (Fleet.status v) with
  | Fleet.idle =>
      Qeq_bool (Fleet.speed (Fleet.location v)) q
      && Qeq_bool (Fleet.consumption (Fleet.fuel v)) 0
  | Fleet.driving => false
  end.

(** A pool member as reconciliation activates it, with life phase one
    half. *)
Definition member0 : Overlay.PooledObject :=
  Overlay.show Overlay.display_block true
    (Overlay.with_isActive (Overlay.newPooledObject draws_half 0) true).

(** A projection that puts every anchor at normalized depth minus one
    half. *)
Definition project_near (_ : unit) (_ : Overlay.Vector3) : Overlay.Vector3 :=
  {| Overlay.x := 0; Overlay.y := 0; Overlay.z := (- (1 / 2))%R |}.

(** A frame with a camera, no idle callback and no audio. *)
Definition frame0 : Overlay.FrameContext :=
  {| Overlay.elapsed := 0; Overlay.camera := Some ();
     Overlay.requestIdleCallback := false; Overlay.synthLoop := None;
     Overlay.width := 800; Overlay.height := 600 |}.

(** A freshly constructed fleet and overlay. *)
Definition fleet0 : Fleet.FleetTelematicsData :=
  fst (Fleet.constructor 0 tape_half).

Definition overlay0 : Overlay.t :=
  Overlay.constructor desktop fleet0 draws_half 0 0.

(** The overlay after one member has been acquired. *)
Definition overlay1 : Overlay.t := snd (Overlay.getActiveObject overlay0).

End Sample.

(* ===================================================================== *)
(** * Facts about the helpers *)
(* ===================================================================== *)

Section ArrayFacts.

Context {A : Type}.

Lemma pop_nil : JS.pop (@nil A) = None.
Proof. reflexivity. Qed.

Lemma pop_snoc (l : list A) (x : A) : JS.pop (l ++ [x]) = Some (x, l).
Proof.
  unfold JS.pop. rewrite rev_app_distr. simpl. by rewrite rev_involutive.
Qed.

Lemma pop_None (l : list A) : JS.pop l = None <-> l = [].
Proof.
  split; [|intros ->; reflexivity].
  destruct l as [|a l] using rev_ind; [done|].
  by rewrite pop_snoc.
Qed.

Lemma pop_Some (l l' : list A) (x : A) :
  JS.pop l = Some (x, l') <-> l = l' ++ [x].
Proof.
  split; [|intros ->; apply pop_snoc].
  destruct l as [|a l _] using rev_ind; [done|].
  rewrite pop_snoc. by intros [= -> ->].
Qed.

Context `{EqDecision A}.

Lemma indexOf_Some (l : list A) (x : A) (i : nat) :
  JS.indexOf l x = Some i ->
  l !! i = Some x /\ x ∉ take i l.
Proof.
  revert i. induction l as [|y l IH]; intros i; simpl; [done|].
  destruct (decide (y = x)) as [->|Hne].
  - intros [= <-]. split; [done|]. simpl. apply not_elem_of_nil.
  - destruct (JS.indexOf l x) as [j|] eqn:Hj; simpl; [|done].
    intros [= <-]. destruct (IH j eq_refl) as [Hl Hn].
    split; [done|]. simpl. rewrite elem_of_cons. intros [?|?]; congruence.
Qed.

Lemma indexOf_elem_of (l : list A) (x : A) :
  x ∈ l -> exists i, JS.indexOf l x = Some i.
Proof.
  induction l as [|y l IH]; [by intros ?%elem_of_nil|].
  intros Hx. simpl. destruct (decide (y = x)); [by eexists|].
  apply elem_of_cons in Hx as [?|Hx]; [congruence|].
  destruct (IH Hx) as [i ->]. by eexists.
Qed.

Lemma indexOf_None (l : list A) (x : A) :
  JS.indexOf l x = None -> x ∉ l.
Proof.
  intros Hn Hx. apply indexOf_elem_of in Hx as [i Hi]. congruence.
Qed.

(** Removing the position [indexOf] found removes the element from a
    duplicate-free list and nothing else. *)
Lemma splice1_indexOf (l : list A) (x : A) (i : nat) :
  NoDup l -> JS.indexOf l x = Some i ->
  (x ∉ JS.splice1 i l)
  /\ (forall y, y ∈ JS.splice1 i l <-> y ∈ l /\ y <> x)
  /\ NoDup (JS.splice1 i l)
  /\ S (length (JS.splice1 i l)) = length l.
Proof.
  intros Hnd Hi. apply indexOf_Some in Hi as [Hl Hn].
  unfold JS.splice1. rewrite delete_take_drop.
  pose proof (take_drop_middle l i x Hl) as Hsplit.
  remember (take i l) as a eqn:Ha. remember (drop (S i) l) as b eqn:Hb.
  clear Ha Hb Hl. subst l.
  apply NoDup_app in Hnd as (Hnd1 & Hdisj & Hnd2).
  apply NoDup_cons in Hnd2 as (Hx2 & Hnd2).
  assert (Hnotin : x ∉ a ++ b).
  { rewrite elem_of_app. intros [?|?]; done. }
  split; [done|]. split; [|split].
  - intros y. rewrite !elem_of_app, elem_of_cons. split.
    + intros Hy. split; [tauto|]. intros ->. apply Hnotin.
      by rewrite elem_of_app.
    + intros [[?|[?|?]] ?]; tauto.
  - apply NoDup_app. split; [done|]. split; [|done].
    intros y Hy1 Hy2. apply (Hdisj y Hy1). by right.
  - rewrite !length_app. simpl. lia.
Qed.

End ArrayFacts.

(* ===================================================================== *)
(** * The pool *)
(* ===================================================================== *)

Section PoolFacts.

Import Overlay System.

Lemma lookup_alter_Some {A} (f : A -> A) (l : list A) (i j : nat) (o : A) :
  alter f i l !! j = Some o ->
  (j = i /\ exists o0, l !! i = Some o0 /\ o = f o0)
  \/ (j <> i /\ l !! j = Some o).
Proof.
  destruct (decide (i = j)) as [->|Hne].
  - rewrite list_lookup_alter_eq. destruct (l !! j) as [o0|]; [|done].
    intros [= <-]. left. eauto.
  - rewrite list_lookup_alter_ne by done. right. eauto.
Qed.

(** A callback that leaves [isActive] alone preserves the invariant. *)
Lemma pool_wf_alter (this : t) (f : PooledObject -> PooledObject) (i : nat) :
  (forall o, isActive (f o) = isActive o) ->
  pool_wf this ->
  pool_wf (with_pool this (alter f i (textElementPool this))
             (activeElements this) (inactiveElements this)).
Proof.
  intros Hf (Hlen & Hnd & Hmem & Hflag). unfold pool_wf; simpl.
  rewrite length_alter. repeat split; try done; try apply Hmem.
  - intros Ha. apply lookup_alter_Some in H as [(-> & o0 & Ho0 & ->)|[_ Ho]].
    + rewrite Hf in Ha. by apply (Hflag i o0).
    + by apply (Hflag i0 o).
  - intros Ha. apply lookup_alter_Some in H as [(-> & o0 & Ho0 & ->)|[_ Ho]].
    + rewrite Hf. by apply (Hflag i o0).
    + by apply (Hflag i0 o).
Qed.

Lemma forEach_length f active index pool :
  length (forEach f active index pool) = length pool.
Proof.
  revert index pool. induction active as [|obj rest IH]; intros; simpl;
    [done|]. by rewrite IH, length_alter.
Qed.

Lemma pool_wf_forEach_refs (this : t) f refs index pool active inactive :
  (forall k o, isActive (f k o) = isActive o) ->
  pool_wf (with_pool this pool active inactive) ->
  pool_wf (with_pool this (forEach f refs index pool) active inactive).
Proof.
  intros Hf. revert index pool.
  induction refs as [|obj rest IH]; intros index pool Hwf; simpl; [done|].
  apply IH.
  exact (pool_wf_alter (with_pool this pool active inactive)
           (f index) obj (Hf index) Hwf).
Qed.

Lemma with_pool_id (this : t) :
  with_pool this (textElementPool this) (activeElements this)
    (inactiveElements this) = this.
Proof. by destruct this. Qed.

Lemma pool_wf_forEach (this : t) f index :
  (forall k o, isActive (f k o) = isActive o) ->
  pool_wf this ->
  pool_wf (with_pool this
             (forEach f (activeElements this) index (textElementPool this))
             (activeElements this) (inactiveElements this)).
Proof.
  intros Hf Hwf. apply pool_wf_forEach_refs; [done|].
  by rewrite with_pool_id.
Qed.

Lemma getActiveObject_None (this : t) :
  inactiveElements this = [] -> getActiveObject this = (None, this).
Proof. intros H. unfold getActiveObject. by rewrite H. Qed.

Lemma getActiveObject_Some (this : t) (l : list nat) (obj : nat) :
  inactiveElements this = l ++ [obj] ->
  getActiveObject this
  = (Some obj,
     with_pool this
       (alter (fun o => with_isActive o true) obj (textElementPool this))
       (activeElements this ++ [obj]) l).
Proof. intros H. unfold getActiveObject. by rewrite H, pop_snoc. Qed.

Lemma pool_wf_getActiveObject (this : t) :
  pool_wf this -> pool_wf (snd (getActiveObject this)).
Proof.
  intros Hwf. destruct (inactiveElements this) as [|x l _] eqn:Hin
    using rev_ind.
  { by rewrite getActiveObject_None. }
  rewrite (getActiveObject_Some this l x Hin). simpl.
  destruct Hwf as (Hlen & Hnd & Hmem & Hflag). rewrite Hin in Hnd, Hmem.
  assert (Hperm : (activeElements this ++ [x]) ++ l
                  ≡ₚ activeElements this ++ l ++ [x]).
  { rewrite <- (assoc_L (++)). apply Permutation_app_head.
    apply Permutation_app_comm. }
  unfold pool_wf; simpl. rewrite length_alter.
  split; [done|]. split; [by rewrite Hperm|]. split.
  - intros i. rewrite Hperm. apply Hmem.
  - assert (Hx : x ∉ activeElements this).
    { intros Hx. apply NoDup_app in Hnd as (_ & Hdisj & _).
      apply (Hdisj x Hx). rewrite elem_of_app, list_elem_of_singleton.
      by right. }
    intros i o Ho. rewrite elem_of_app, list_elem_of_singleton.
    apply lookup_alter_Some in Ho as [(-> & o0 & Ho0 & ->)|[Hne Ho]].
    + simpl. tauto.
    + rewrite (Hflag i o Ho). tauto.
Qed.

Lemma releaseObject_foreign (this : t) (obj : nat) :
  textElementPool this !! obj = None -> releaseObject this obj = this.
Proof. intros H. unfold releaseObject. by rewrite H. Qed.

Lemma releaseObject_inactive (this : t) (obj : nat) (o : PooledObject) :
  textElementPool this !! obj = Some o -> isActive o = false ->
  releaseObject this obj = this.
Proof. intros H Ha. unfold releaseObject. by rewrite H, Ha. Qed.

Lemma releaseObject_lookup (this : t) (obj : nat) (o : PooledObject) :
  textElementPool (releaseObject this obj) !! obj = Some o ->
  isActive o = false.
Proof.
  unfold releaseObject.
  destruct (textElementPool this !! obj) as [o0|] eqn:Ho0; [|congruence].
  destruct (isActive o0) eqn:Ha0; simpl; [|congruence].
  destruct (JS.indexOf (activeElements this) obj); simpl;
    rewrite list_lookup_alter_eq, Ho0; by intros [= <-].
Qed.

Lemma releaseObject_twice (this : t) (obj : nat) :
  releaseObject (releaseObject this obj) obj = releaseObject this obj.
Proof.
  destruct (textElementPool (releaseObject this obj) !! obj) as [o|] eqn:Ho.
  - apply (releaseObject_inactive _ _ o Ho).
    by apply (releaseObject_lookup this obj).
  - by apply releaseObject_foreign.
Qed.

Lemma pool_wf_lookup (this : t) (obj : nat) :
  pool_wf this -> obj ∈ activeElements this ->
  exists o, textElementPool this !! obj = Some o /\ isActive o = true.
Proof.
  intros (Hlen & Hnd & Hmem & Hflag) Hobj.
  assert (Hlt : (obj < length (textElementPool this))%nat).
  { apply Hmem. rewrite elem_of_app. by left. }
  apply lookup_lt_is_Some_2 in Hlt as [o Ho].
  exists o. split; [done|]. by apply (Hflag obj o).
Qed.

(** Releasing an active member moves its reference from one list to
    the other. *)
Lemma releaseObject_active (this : t) (obj : nat) :
  pool_wf this -> obj ∈ activeElements this ->
  exists k,
    JS.indexOf (activeElements this) obj = Some k
    /\ releaseObject this obj
       = with_pool this
           (alter (fun o => show display_none false (with_isActive o false))
                  obj (textElementPool this))
           (JS.splice1 k (activeElements this))
           (inactiveElements this ++ [obj]).
Proof.
  intros Hwf Hobj. destruct (pool_wf_lookup this obj Hwf Hobj) as (o & Ho & Ha).
  destruct (indexOf_elem_of _ _ Hobj) as [k Hk]. exists k. split; [done|].
  unfold releaseObject. by rewrite Ho, Ha, Hk.
Qed.

Lemma pool_wf_releaseObject (this : t) (obj : nat) :
  pool_wf this -> pool_wf (releaseObject this obj).
Proof.
  intros Hwf.
  destruct (textElementPool this !! obj) as [o|] eqn:Ho;
    [|by rewrite releaseObject_foreign].
  destruct (isActive o) eqn:Ha;
    [|by rewrite (releaseObject_inactive this obj o)].
  assert (Hobj : obj ∈ activeElements this).
  { destruct Hwf as (_ & _ & _ & Hflag). by apply (Hflag obj o). }
  destruct (releaseObject_active this obj Hwf Hobj) as (k & Hk & ->).
  destruct Hwf as (Hlen & Hnd & Hmem & Hflag).
  pose proof Hnd as Hnd'. apply NoDup_app in Hnd' as (Hnda & Hdisj & Hndi).
  destruct (splice1_indexOf _ _ _ Hnda Hk) as (Hnotin & Hiff & Hnds & _).
  unfold pool_wf; simpl. rewrite length_alter.
  split; [done|]. split; [|split].
  - apply NoDup_app. split; [done|]. split.
    + intros y Hy. apply Hiff in Hy as [Hy Hne].
      rewrite elem_of_app, list_elem_of_singleton.
      intros [Hyi|?]; [|done]. by apply (Hdisj y).
    + apply NoDup_app. split; [done|]. split; [|apply NoDup_singleton].
      intros y Hy ->%list_elem_of_singleton. by apply (Hdisj obj).
  - intros i. rewrite <- Hmem. rewrite !elem_of_app, Hiff,
      list_elem_of_singleton.
    destruct (decide (i = obj)) as [->|]; tauto.
  - intros i o' Ho'. rewrite Hiff.
    apply lookup_alter_Some in Ho' as [(-> & o0 & Ho0 & ->)|[Hne Ho']].
    + simpl. split; [done|]. tauto.
    + rewrite (Hflag i o' Ho'). tauto.
Qed.

Lemma same_config_refl this : same_config this this.
Proof. by unfold same_config. Qed.

Lemma same_config_trans a b c :
  same_config a b -> same_config b c -> same_config a c.
Proof. unfold same_config. intros (-> & -> & ->) (-> & -> & ->). done. Qed.

Lemma releaseObject_config this obj :
  same_config this (releaseObject this obj).
Proof.
  unfold releaseObject, same_config.
  destruct (textElementPool this !! obj) as [o|]; [|done].
  destruct (isActive o); simpl; [|done].
  by destruct (JS.indexOf (activeElements this) obj).
Qed.

Lemma getActiveObject_config this :
  same_config this (snd (getActiveObject this)).
Proof.
  unfold getActiveObject, same_config.
  by destruct (JS.pop (inactiveElements this)) as [[obj l]|].
Qed.

(** Under the invariant the two lists hold as many references as the
    pool has objects. *)
Lemma pool_wf_count (this : t) :
  pool_wf this ->
  (length (activeElements this) + length (inactiveElements this))%nat
  = poolSize (settings this).
Proof.
  intros (Hlen & Hnd & Hmem & _).
  assert (Hperm : activeElements this ++ inactiveElements this
                  ≡ₚ seq 0 (length (textElementPool this))).
  { apply NoDup_Permutation; [done|apply NoDup_seq|].
    intros i. rewrite Hmem, elem_of_seq. lia. }
  apply Permutation_length in Hperm.
  rewrite length_app, length_seq in Hperm. lia.
Qed.

Lemma releaseExcess_spec (fuel : nat) (this : t) :
  pool_wf this ->
  (0 <= textCount (settings this))%Z ->
  (Z.of_nat (length (activeElements this)) - textCount (settings this)
   <= Z.of_nat fuel)%Z ->
  exists this',
    releaseExcess fuel this = Returns this'
    /\ pool_wf this' /\ same_config this this'
    /\ Z.of_nat (length (activeElements this'))
       = Z.min (Z.of_nat (length (activeElements this)))
               (textCount (settings this)).
Proof.
  revert this. induction fuel as [|fuel IH]; intros this Hwf Htc Hfuel.
  - simpl. rewrite bool_decide_eq_false_2 by lia.
    exists this. split_and!; [done..|lia].
  - simpl. case_bool_decide as Hgt.
    2:{ exists this. split_and!; [done..|lia]. }
    destruct (last (activeElements this)) as [obj|] eqn:Hlast.
    2:{ apply last_None in Hlast. rewrite Hlast in Hgt. simpl in Hgt. lia. }
    assert (Hobj : obj ∈ activeElements this) by by apply last_Some_elem_of.
    destruct (releaseObject_active this obj Hwf Hobj) as (k & Hk & Hrel).
    pose proof (pool_wf_releaseObject this obj Hwf) as Hwf'.
    pose proof (releaseObject_config this obj) as Hcfg.
    assert (Hlen : S (length (activeElements (releaseObject this obj)))
                   = length (activeElements this)).
    { rewrite Hrel. simpl.
      destruct Hwf as (_ & Hnd & _). apply NoDup_app in Hnd as (Hnda & _).
      by destruct (splice1_indexOf _ _ _ Hnda Hk) as (_ & _ & _ & ?). }
    destruct Hcfg as (Hs & Hm & Hf).
    destruct (IH (releaseObject this obj) Hwf') as (this' & Hr & Hw & Hc & Hl).
    { by rewrite Hs. }
    { rewrite Hs. lia. }
    exists this'. split; [done|]. split; [done|]. split.
    + eapply same_config_trans; [|exact Hc]. by unfold same_config.
    + rewrite Hl, Hs. lia.
Qed.

Lemma activateNeeded_spec (fuel : nat) (this : t) :
  pool_wf this ->
  (length (inactiveElements this) < fuel)%nat ->
  exists this',
    activateNeeded fuel this = Returns this'
    /\ pool_wf this' /\ same_config this this'
    /\ Z.of_nat (length (activeElements this'))
       = Z.max (Z.of_nat (length (activeElements this)))
           (Z.min (Z.min (textCount (settings this))
                         (Z.of_nat (length (currentMetrics this))))
                  (Z.of_nat (length (activeElements this)
                             + length (inactiveElements this)))).
Proof.
  revert this. induction fuel as [|fuel IH]; intros this Hwf Hfuel; [lia|].
  simpl. case_bool_decide as Hlt.
  2:{ exists this. split_and!; [done..|lia]. }
  destruct (inactiveElements this) as [|obj l _] eqn:Hin using rev_ind.
  { rewrite getActiveObject_None by done.
    exists this. split_and!; [done..|simpl; lia]. }
  pose proof (pool_wf_getActiveObject this Hwf) as Hwf1.
  rewrite (getActiveObject_Some this l obj Hin) in Hwf1 |- *.
  simpl in Hwf1 |- *.
  set (this1 := with_pool this
                  (alter (fun o => with_isActive o true) obj
                     (textElementPool this))
                  (activeElements this ++ [obj]) l) in *.
  pose proof (pool_wf_alter this1 (show display_block true) obj
                (fun _ => eq_refl) Hwf1) as Hwf2.
  rewrite length_app in Hfuel. simpl in Hfuel.
  destruct (IH _ Hwf2) as (this' & Hr & Hw & Hc & Hl).
  { simpl. lia. }
  exists this'. split; [exact Hr|]. split; [done|]. split.
  - destruct Hc as (Hs & Hm & Hf). unfold same_config.
    by rewrite Hs, Hm, Hf.
  - rewrite Hl. simpl. rewrite !length_app. simpl. lia.
Qed.

(** More fuel never changes a result already reached. *)
Lemma releaseExcess_more_fuel (fuel : nat) (this this' : t) :
  releaseExcess fuel this = Returns this' ->
  releaseExcess (S fuel) this = Returns this'.
Proof.
  revert this. induction fuel as [|fuel IH]; intros this.
  - simpl. by case_bool_decide.
  - intros H. simpl in H. change (releaseExcess (S (S fuel)) this)
      with (if bool_decide
                 (textCount (settings this)
                  < Z.of_nat (length (activeElements this)))%Z
            then match last (activeElements this) with
                 | Some obj => releaseExcess (S fuel) (releaseObject this obj)
                 | None => Throws
                 end
            else Returns this).
    case_bool_decide; [|done].
    destruct (last (activeElements this)) as [obj|]; [|done].
    by apply IH.
Qed.

Lemma activateNeeded_more_fuel (fuel : nat) (this this' : t) :
  activateNeeded fuel this = Returns this' ->
  activateNeeded (S fuel) this = Returns this'.
Proof.
  revert this. induction fuel as [|fuel IH]; intros this.
  - simpl. by case_bool_decide.
  - intros H. simpl in H. change (activateNeeded (S (S fuel)) this)
      with (if bool_decide
                 (Z.of_nat (length (activeElements this))
                  < Z.min (textCount (settings this))
                          (Z.of_nat (length (currentMetrics this))))%Z
            then match getActiveObject this with
                 | (Some obj, this1) =>
                     activateNeeded (S fuel)
                       (with_pool this1
                          (alter (show display_block true) obj
                             (textElementPool this1))
                          (activeElements this1) (inactiveElements this1))
                 | (None, _) => Returns this
                 end
            else Returns this).
    case_bool_decide; [|done].
    destruct (getActiveObject this) as [[obj|] this1]; [|done].
    by apply IH.
Qed.

Lemma updateDisplayMetrics_more_fuel (fuel : nat) (now : Q) (this this' : t) :
  updateDisplayMetrics_fuel fuel now this = Returns this' ->
  updateDisplayMetrics_fuel (S fuel) now this = Returns this'.
Proof.
  unfold updateDisplayMetrics_fuel.
  destruct (releaseExcess fuel _) as [this1| |] eqn:H1; [|done..].
  rewrite (releaseExcess_more_fuel _ _ _ H1).
  destruct (activateNeeded fuel this1) as [this2| |] eqn:H2; [|done..].
  by rewrite (activateNeeded_more_fuel _ _ _ H2).
Qed.

(** Reconciliation returns, keeps the invariant, and leaves this many
    members active. *)
Lemma updateDisplayMetrics_spec (now : Q) (this : t) :
  pool_wf this ->
  (0 <= textCount (settings this))%Z ->
  exists this',
    updateDisplayMetrics now this = Returns this'
    /\ pool_wf this'
    /\ settings this' = settings this
    /\ fleetData this' = fleetData this
    /\ currentMetrics this' = Fleet.getDisplayMetrics (fleetData this)
    /\ Z.of_nat (length (activeElements this'))
       = Z.max
           (Z.min (Z.of_nat (length (activeElements this)))
                  (textCount (settings this)))
           (Z.min (Z.min (textCount (settings this))
                     (Z.of_nat
                        (length (Fleet.getDisplayMetrics (fleetData this)))))
                  (Z.of_nat (poolSize (settings this)))).
Proof.
  intros Hwf Htc. unfold updateDisplayMetrics, updateDisplayMetrics_fuel.
  set (this0 := with_currentMetrics this _).
  assert (Hwf0 : pool_wf this0) by exact Hwf.
  destruct (releaseExcess_spec
              (S (length (activeElements this)
                  + length (inactiveElements this))) this0 Hwf0)
    as (this1 & -> & Hwf1 & (Hs1 & Hm1 & Hf1) & Hl1); [done|simpl; lia|].
  pose proof (pool_wf_count this Hwf) as Hn.
  pose proof (pool_wf_count this1 Hwf1) as Hn1.
  rewrite Hs1 in Hn1. simpl in Hn1.
  destruct (activateNeeded_spec
              (S (length (activeElements this)
                  + length (inactiveElements this))) this1 Hwf1)
    as (this2 & -> & Hwf2 & (Hs2 & Hm2 & Hf2) & Hl2); [lia|].
  eexists. split; [reflexivity|]. simpl.
  split; [by apply pool_wf_forEach; [intros k o; unfold refreshContent;
              destruct (_ !! k)|]|].
  rewrite Hs2, Hs1, Hm2, Hm1, Hf2, Hf1. simpl.
  split_and!; [done..|].
  rewrite Hl2, Hl1, Hs1, Hm1, Hn1. simpl. done.
Qed.

End PoolFacts.

(* ===================================================================== *)
(** * The random tape: a small program logic *)
(* ===================================================================== *)

Section RandFacts.

Lemma post_ret {A} (a : A) (P : A -> Prop) : P a -> rand_post (ret a) P.
Proof. intros Ha t Ht. by split. Qed.

Lemma post_bind {A B} (c : Rand A) (k : A -> Rand B)
    (P : A -> Prop) (Q : B -> Prop) :
  rand_post c P -> (forall a, P a -> rand_post (k a) Q) ->
  rand_post (bind c k) Q.
Proof.
  intros Hc Hk t Ht. unfold bind.
  destruct (Hc t Ht) as [Ha Ht']. destruct (c t) as [a t']. simpl in *.
  exact (Hk a Ha t' Ht').
Qed.

Lemma post_random : rand_post Math_random in_unit.
Proof.
  intros t Ht. split; [apply Ht|]. intros n. apply Ht.
Qed.

Lemma post_weaken {A} (c : Rand A) (P Q : A -> Prop) :
  rand_post c P -> (forall a, P a -> Q a) -> rand_post c Q.
Proof. intros Hc HPQ t Ht. destruct (Hc t Ht). split; auto. Qed.

Lemma post_mapM {A B} (f : A -> Rand B) (P : A -> Prop) (Q : A -> B -> Prop)
    (l : list A) :
  (forall a, P a -> rand_post (f a) (Q a)) ->
  Forall P l ->
  rand_post (mapM f l) (Forall2 Q l).
Proof.
  intros Hf. induction 1 as [|a l Ha Hl IH]; simpl.
  - by apply post_ret.
  - eapply post_bind; [exact (Hf a Ha)|]. intros b Hb.
    eapply post_bind; [exact IH|]. intros bs Hbs.
    apply post_ret. by constructor.
Qed.

End RandFacts.

(** Take the next draw, or sequence the next call, in a [rand_post] goal. *)
Ltac post_draw r Hr :=
  eapply post_bind; [apply post_random|intros r Hr].

(* ===================================================================== *)
(** * Arithmetic of the simulation *)
(* ===================================================================== *)

Section NumberFacts.

Local Open Scope Q_scope.

Lemma ltb_true (a b : Q) : JS.ltb a b = true <-> a < b.
Proof.
  unfold JS.ltb. rewrite negb_true_iff.
  destruct (Qle_bool b a) eqn:H.
  - apply Qle_bool_iff in H. split; [done|]. intros ?. exfalso. lra.
  - split; [|done]. intros _. apply Qnot_le_lt. intros Hle.
    apply Qle_bool_iff in Hle. congruence.
Qed.

Lemma ltb_false (a b : Q) : JS.ltb a b = false <-> b <= a.
Proof.
  destruct (JS.ltb a b) eqn:H.
  - apply ltb_true in H. split; [done|]. intros ?. exfalso. lra.
  - split; [|done]. intros _. apply Qnot_lt_le. intros Hlt.
    apply ltb_true in Hlt. congruence.
Qed.

Lemma max_lb_l (a b : Q) : a <= JS.Math_max a b.
Proof. apply Q.le_max_l. Qed.

Lemma max_lb_r (a b : Q) : b <= JS.Math_max a b.
Proof. apply Q.le_max_r. Qed.

Lemma max_ub (a b c : Q) : a <= c -> b <= c -> JS.Math_max a b <= c.
Proof. apply Q.max_lub. Qed.

Lemma min_ub_l (a b : Q) : JS.Math_min a b <= a.
Proof. apply Q.le_min_l. Qed.

(** [Math.max(lo, Math.min(hi, x))] lies in [[lo, hi]]. *)
Lemma clamp_bounds (lo hi x : Q) :
  lo <= hi ->
  lo <= JS.Math_max lo (JS.Math_min hi x)
  /\ JS.Math_max lo (JS.Math_min hi x) <= hi.
Proof.
  intros H. split; [apply max_lb_l|].
  apply max_ub; [done|apply min_ub_l].
Qed.

Lemma Qdiv_nonneg (a b : Q) : 0 <= a -> 0 < b -> 0 <= a / b.
Proof.
  intros Ha Hb. apply Qle_shift_div_l; [done|]. lra.
Qed.

Lemma floor_nonneg (q : Q) : 0 <= q -> (0 <= JS.Math_floor q)%Z.
Proof.
  intros H. unfold JS.Math_floor.
  change 0%Z with (Qfloor (inject_Z 0)). by apply Qfloor_resp_le.
Qed.

Lemma floor_lt (q : Q) (n : Z) : q < inject_Z n -> (JS.Math_floor q < n)%Z.
Proof.
  intros H. unfold JS.Math_floor. rewrite Zlt_Qlt.
  eapply Qle_lt_trans; [apply Qfloor_le|done].
Qed.

End NumberFacts.

(* ===================================================================== *)
(** * The fleet: construction *)
(* ===================================================================== *)

Section FleetInit.

Import Fleet System.
Local Open Scope Q_scope.

Lemma vehicleType_cases (i : nat) :
  let vt := nth (i mod length vehicleTypes) vehicleTypes
              {| vt_type := ""; vt_fuel := 0; vt_efficiency := 0 |} in
  vt ∈ vehicleTypes.
Proof.
  cbv zeta. change (length vehicleTypes) with 4%nat.
  pose proof (Nat.mod_upper_bound i 4 ltac:(lia)) as Hlt.
  remember (i mod 4)%nat as k eqn:Hk. clear Hk.
  destruct k as [|[|[|[|n]]]]; try lia;
    unfold vehicleTypes; simpl; rewrite !elem_of_cons; tauto.
Qed.

Lemma vehicleType_positive (vt : VehicleType) :
  vt ∈ vehicleTypes ->
  0 < vt_fuel vt /\ 0 < vt_efficiency vt.
Proof.
  unfold vehicleTypes. rewrite !elem_of_cons, elem_of_nil.
  intros [->|[->|[->|[->|[]]]]]; simpl; split; reflexivity.
Qed.

Lemma newVehicle_post (now : Q) (i : nat) :
  rand_post (newVehicle now i)
    (fun v => vehicle_inv v /\ id v = vehicle_id (Z.of_nat i + 1)).
Proof.
  unfold newVehicle.
  pose proof (vehicleType_cases i) as Hvt. cbv zeta in Hvt |- *.
  apply vehicleType_positive in Hvt.
  set (vt := nth _ vehicleTypes _) in *. destruct Hvt as [Hfuel Heff].
  post_draw r_lat H1. post_draw r_lng H2. post_draw r_speed H3.
  post_draw r_heading H4. post_draw r_alt H5. post_draw r_level H6.
  post_draw r_fill H7. post_draw r_rpm H8. post_draw r_temp H9.
  post_draw r_oil H10. post_draw r_volt H11. post_draw r_hours H12.
  post_draw r_did H13. post_draw r_score H14. post_draw r_acc H15.
  post_draw r_brk H16. post_draw r_cor H17. post_draw r_idle H18.
  post_draw r_drv H19. post_draw r_state H20. post_draw r_maint H21.
  post_draw r_conn H22.
  apply post_ret. split; [|reflexivity].
  unfold vehicle_inv, fuel_inv, location_inv, driver_inv, engine_inv,
    fault_inv, in_unit in *; simpl.
  split_and!; try lra; try nra.
  - apply floor_nonneg. lra.
  - apply floor_nonneg. lra.
  - apply floor_nonneg. lra.
  - apply NoDup_nil_2.
  - lia.
  - intros c Hc. by apply elem_of_nil in Hc.
Qed.

Lemma Map_set_values_Forall {V} (P : V -> Prop) (m : list (string * V))
    (k : string) (v : V) :
  Forall P (JS.Map_values m) -> P v ->
  Forall P (JS.Map_values (JS.Map_set m k v)).
Proof.
  unfold JS.Map_values. intros Hm Hv.
  induction m as [|[k' v'] m IH]; simpl in *.
  - by constructor.
  - apply Forall_cons in Hm as [Hv' Hm].
    destruct (String.eqb k' k); simpl; constructor; auto.
Qed.

(** Which keys a [Map] has after [set] does not depend on the values. *)
Lemma Map_set_keys {V W} (m : list (string * V)) (m0 : list (string * W))
    (k : string) (v : V) (w : W) :
  m.*1 = m0.*1 -> (JS.Map_set m k v).*1 = (JS.Map_set m0 k w).*1.
Proof.
  revert m0. induction m as [|[k' v'] m IH]; intros [|[k0 w0] m0]; simpl;
    try done.
  intros [= -> Hk]. destruct (String.eqb k0 k); simpl; [by f_equal|].
  f_equal. by apply IH.
Qed.

Lemma initializeFleet_loop_post (now : Q) (idxs : list nat)
    (m : list (string * Vehicle)) (m0 : list (string * unit)) :
  Forall vehicle_inv (JS.Map_values m) -> m.*1 = m0.*1 ->
  rand_post (initializeFleet_loop now idxs m)
    (fun m' =>
       Forall vehicle_inv (JS.Map_values m')
       /\ m'.*1
          = (foldl (fun acc i =>
                      JS.Map_set acc (vehicle_id (Z.of_nat i + 1)) ())
                   m0 idxs).*1).
Proof.
  revert m m0. induction idxs as [|i idxs IH]; intros m m0 Hm Hk; simpl.
  - by apply post_ret.
  - eapply post_bind; [apply newVehicle_post|].
    intros v [Hv Hid]. apply IH.
    + by apply Map_set_values_Forall.
    + rewrite Hid. by apply Map_set_keys.
Qed.

Lemma constructor_post (now : Q) : rand_post (constructor now) fleet_inv.
Proof.
  unfold constructor, initializeFleet.
  apply (post_bind _ _
           (fun this =>
              updateInterval this = 1000
              /\ Forall vehicle_inv (getAllVehicles this)
              /\ length (vehicles this) = 12%nat)).
  { eapply post_bind.
    - apply (initializeFleet_loop_post now (seq 0 12) [] []); by constructor.
    - intros m [Hinv Hkeys]. apply post_ret. simpl.
      split; [done|]. split; [done|].
      apply (f_equal length) in Hkeys. rewrite length_fmap in Hkeys.
      rewrite Hkeys. vm_compute. reflexivity. }
  intros this (Hui & Hinv & Hlen). apply post_ret.
  unfold fleet_inv, startDataSimulation, getAllVehicles in *.
  by destruct (isRunning this).
Qed.

End FleetInit.

(* ===================================================================== *)
(** * The fleet: one tick *)
(* ===================================================================== *)

(** Unfold the monad and split on every branch the code takes. *)
Ltac rand_cases :=
  unfold bind, ret, Math_random; simpl;
  repeat (match goal with
          | |- context [if ?b then _ else _] => destruct b; simpl
          | |- context [match ?s with Fleet.driving => _ | Fleet.idle => _ end] =>
              destruct s; simpl
          end).

Section FleetTick.

Import Fleet System.
Local Open Scope Q_scope.

Context (Math : MathLib) (ui : Q).

Lemma post_frame {A} (c : Rand A) (P R : A -> Prop) :
  rand_post c P -> (forall t, R (fst (c t))) ->
  rand_post c (fun a => P a /\ R a).
Proof. intros Hc HR t Ht. destruct (Hc t Ht). split; [split|]; auto. Qed.

(** *** What each update leaves alone *)

Lemma updateVehicleLocation_frame v t :
  let v' := fst (updateVehicleLocation Math ui v t) in
  id v' = id v /\ vtype v' = vtype v /\ fuel v' = fuel v
  /\ engine v' = engine v /\ driver v' = driver v /\ status v' = status v.
Proof.
  unfold updateVehicleLocation.
  destruct (state (status v)); rand_cases; done.
Qed.

Lemma updateVehicleLocation_idle v t :
  state (status v) = idle -> updateVehicleLocation Math ui v t = (v, t).
Proof. unfold updateVehicleLocation. by intros ->. Qed.

Lemma updateFuelData_frame v :
  let v' := updateFuelData ui v in
  id v' = id v /\ vtype v' = vtype v /\ location v' = location v
  /\ engine v' = engine v /\ driver v' = driver v /\ status v' = status v.
Proof. unfold updateFuelData. by destruct (state (status v)). Qed.

Lemma updateEngineData_frame v t :
  let v' := fst (updateEngineData v t) in
  id v' = id v /\ vtype v' = vtype v /\ location v' = location v
  /\ fuel v' = fuel v /\ driver v' = driver v /\ status v' = status v.
Proof.
  unfold updateEngineData. destruct (state (status v)); rand_cases; done.
Qed.

Lemma updateDriverBehavior_frame v t :
  let v' := fst (updateDriverBehavior ui v t) in
  id v' = id v /\ vtype v' = vtype v /\ location v' = location v
  /\ fuel v' = fuel v /\ engine v' = engine v /\ status v' = status v.
Proof.
  unfold updateDriverBehavior. destruct (state (status v)); rand_cases; done.
Qed.

Lemma updateVehicleStatus_frame v t :
  let v' := fst (updateVehicleStatus ui v t) in
  id v' = id v /\ vtype v' = vtype v /\ location v' = location v
  /\ fuel v' = fuel v /\ engine v' = engine v /\ driver v' = driver v.
Proof. unfold updateVehicleStatus. rand_cases; done. Qed.

(** *** What each update keeps true *)

Lemma updateVehicleLocation_post v :
  location_inv (location v) ->
  rand_post (updateVehicleLocation Math ui v)
    (fun v' => location_inv (location v')).
Proof.
  intros Hv. unfold updateVehicleLocation.
  destruct (state (status v)); [|by apply post_ret].
  cbv zeta. post_draw r1 H1. post_draw r2 H2.
  apply (post_bind _ _ (fun _ => True)).
  { destruct (JS.ltb r2 0.1); [post_draw r3 H3|]; by apply post_ret. }
  intros heading2 _. apply post_ret. simpl.
  apply clamp_bounds. lra.
Qed.

Lemma fuelUsed_nonneg (spd eff : Q) :
  0 <= spd -> 0 < eff -> 0 <= ui -> 0 <= spd / eff / 3600 * (ui / 1000).
Proof.
  intros Hs He Hu. apply Qmult_le_0_compat.
  - apply Qdiv_nonneg; [|reflexivity]. by apply Qdiv_nonneg.
  - apply Qdiv_nonneg; [done|reflexivity].
Qed.

Lemma updateFuelData_inv v :
  0 <= ui -> fuel_inv (fuel v) -> location_inv (location v) ->
  fuel_inv (fuel (updateFuelData ui v)).
Proof.
  intros Hu (Hl0 & Hlc & He) [Hs _]. unfold updateFuelData, fuel_inv.
  destruct (state (status v)); simpl; [|done].
  pose proof (fuelUsed_nonneg (speed (location v)) (efficiency (fuel v))
                ltac:(lra) He Hu) as Hused.
  split; [apply max_lb_l|]. split; [|done].
  apply max_ub; lra.
Qed.

Lemma catalog_get (r : Q) :
  in_unit r ->
  exists code,
    JS.array_get faultCatalog
      (JS.Math_floor (r * inject_Z (Z.of_nat (length faultCatalog))))
    = Some code
    /\ code ∈ faultCatalog.
Proof.
  intros [H0 H1]. simpl length.
  change (inject_Z (Z.of_nat 5)) with 5.
  set (k := JS.Math_floor (r * 5)).
  assert (Hk : (0 <= k < 5)%Z).
  { split; [apply floor_nonneg|apply floor_lt; change (inject_Z 5) with 5];
      lra. }
  assert (Hcases : (k = 0 \/ k = 1 \/ k = 2 \/ k = 3 \/ k = 4)%Z) by lia.
  unfold faultCatalog.
  destruct Hcases as [->|[->|[->|[->| ->]]]]; eexists;
    (split; [reflexivity|]); rewrite !elem_of_cons; tauto.
Qed.

Lemma fault_inv_push (codes : list (option string)) (code : string) :
  fault_inv codes -> (length codes < 3)%nat -> code ∈ faultCatalog ->
  Some code ∉ codes ->
  fault_inv (JS.push codes (Some code)).
Proof.
  intros (Hnd & Hlen & Hcat) Hlt Hcode Hnew. unfold fault_inv, JS.push.
  split; [|split].
  - apply NoDup_app. split; [done|]. split; [|apply NoDup_singleton].
    intros c Hc ->%list_elem_of_singleton. done.
  - rewrite length_app. simpl. lia.
  - intros c Hc. apply elem_of_app in Hc as [Hc|Hc]; [eauto|].
    apply list_elem_of_singleton in Hc as ->. eauto.
Qed.

Lemma updateEngineData_post v :
  engine_inv (engine v) ->
  rand_post (updateEngineData v) (fun v' => engine_inv (engine v')).
Proof.
  intros Hv. unfold updateEngineData. cbv zeta.
  apply (post_bind _ _ (fun e1 => faultCodes e1 = faultCodes (engine v))).
  { destruct (state (status v)).
    - post_draw r1 H1. post_draw r2 H2. post_draw r3 H3. by apply post_ret.
    - post_draw r1 H1. by apply post_ret. }
  intros e1 He1. post_draw r4 H4. post_draw r5 H5.
  apply (post_bind _ _ fault_inv).
  2:{ intros codes Hcodes. apply post_ret. exact Hcodes. }
  rewrite He1. unfold engine_inv in Hv.
  destruct (JS.ltb r5 0.001 && bool_decide (length (faultCodes (engine v)) < 3)%nat)
    eqn:Hgate; [|by apply post_ret].
  apply andb_true_iff in Hgate as [_ Hlt%bool_decide_eq_true].
  post_draw r6 H6. destruct (catalog_get r6 H6) as (code & -> & Hcode).
  unfold JS.includes. case_bool_decide as Hin; apply post_ret; [done|].
  by apply fault_inv_push.
Qed.

Lemma score_bounds (events : Z) (hours_ : Q) :
  (0 <= events)%Z ->
  let eventsPerHour :=
    if JS.gtb hours_ 0 then inject_Z events / hours_ else 0 in
  50 <= JS.Math_max 50 (100 - eventsPerHour * 10)
  /\ JS.Math_max 50 (100 - eventsPerHour * 10) <= 100.
Proof.
  intros He. cbv zeta. split; [apply max_lb_l|].
  apply max_ub; [lra|].
  assert (0 <= inject_Z events) as Hq.
  { change 0 with (inject_Z 0). by rewrite <- Zle_Qle. }
  destruct (JS.gtb hours_ 0) eqn:Hh; [|lra].
  apply ltb_true in Hh.
  pose proof (Qdiv_nonneg _ _ Hq Hh). lra.
Qed.

Lemma updateDriverBehavior_post v :
  driver_inv (driver v) ->
  rand_post (updateDriverBehavior ui v) (fun v' => driver_inv (driver v')).
Proof.
  intros (_ & Ha & Hb & Hc). unfold updateDriverBehavior. cbv zeta.
  apply (post_bind _ _
           (fun d1 => (0 <= harshAcceleration d1 /\ 0 <= harshBraking d1
                       /\ 0 <= harshCornering d1)%Z)).
  { destruct (state (status v)); [|by apply post_ret].
    post_draw r1 H1.
    apply (post_bind _ _
             (fun d0 => (0 <= harshAcceleration d0 /\ 0 <= harshBraking d0
                         /\ 0 <= harshCornering d0)%Z)).
    - destruct (JS.ltb r1 0.01); [|by apply post_ret].
      post_draw eventType H2.
      destruct (JS.ltb eventType 0.4); [apply post_ret; simpl; lia|].
      destruct (JS.ltb eventType 0.7); apply post_ret; simpl; lia.
    - intros d0 Hd0. by apply post_ret. }
  intros d1 (Ha1 & Hb1 & Hc1). apply post_ret.
  unfold driver_inv. simpl. split; [|done].
  apply score_bounds. lia.
Qed.

Lemma updateVehicleStatus_post v :
  rand_post (updateVehicleStatus ui v) (fun _ => True).
Proof.
  unfold updateVehicleStatus. cbv zeta.
  post_draw r1 H1. post_draw r2 H2. by apply post_ret.
Qed.

(** *** The whole tick *)

Lemma updateVehicleLocation_inv v :
  vehicle_inv v -> rand_post (updateVehicleLocation Math ui v) vehicle_inv.
Proof.
  intros (Hf & Hl & Hd & He) t Ht.
  destruct (updateVehicleLocation_post v Hl t Ht) as [Hl' Ht'].
  destruct (updateVehicleLocation_frame v t) as (_ & _ & Ef & Ee & Ed & _).
  split; [|done]. unfold vehicle_inv. by rewrite Ef, Ee, Ed.
Qed.

Lemma updateFuelData_vehicle_inv v :
  0 <= ui -> vehicle_inv v -> vehicle_inv (updateFuelData ui v).
Proof.
  intros Hu (Hf & Hl & Hd & He).
  destruct (updateFuelData_frame v) as (_ & _ & El & Ee & Ed & _).
  unfold vehicle_inv. rewrite El, Ee, Ed.
  split; [by apply updateFuelData_inv|done].
Qed.

Lemma updateEngineData_inv v :
  vehicle_inv v -> rand_post (updateEngineData v) vehicle_inv.
Proof.
  intros (Hf & Hl & Hd & He) t Ht.
  destruct (updateEngineData_post v He t Ht) as [He' Ht'].
  destruct (updateEngineData_frame v t) as (_ & _ & El & Ef & Ed & _).
  split; [|done]. unfold vehicle_inv. by rewrite El, Ef, Ed.
Qed.

Lemma updateDriverBehavior_inv v :
  vehicle_inv v -> rand_post (updateDriverBehavior ui v) vehicle_inv.
Proof.
  intros (Hf & Hl & Hd & He) t Ht.
  destruct (updateDriverBehavior_post v Hd t Ht) as [Hd' Ht'].
  destruct (updateDriverBehavior_frame v t) as (_ & _ & El & Ef & Ee & _).
  split; [|done]. unfold vehicle_inv. by rewrite El, Ef, Ee.
Qed.

Lemma updateVehicleStatus_inv v :
  vehicle_inv v -> rand_post (updateVehicleStatus ui v) vehicle_inv.
Proof.
  intros (Hf & Hl & Hd & He) t Ht.
  destruct (updateVehicleStatus_post v t Ht) as [_ Ht'].
  destruct (updateVehicleStatus_frame v t) as (_ & _ & El & Ef & Ee & Ed).
  split; [|done]. unfold vehicle_inv. by rewrite El, Ef, Ee, Ed.
Qed.

Lemma updateVehicle_post (now : Q) v :
  0 <= ui -> vehicle_inv v ->
  rand_post (updateVehicle Math ui now v)
    (fun v' => vehicle_inv v' /\ id v' = id v).
Proof.
  intros Hu Hv.
  apply (post_frame _ vehicle_inv (fun v' => id v' = id v));
    unfold updateVehicle.
  - eapply post_bind; [by apply updateVehicleLocation_inv|].
    intros v1 Hv1. cbv zeta.
    eapply post_bind;
      [by apply updateEngineData_inv, updateFuelData_vehicle_inv|].
    intros v3 Hv3.
    eapply post_bind; [by apply updateDriverBehavior_inv|].
    intros v4 Hv4.
    eapply post_bind; [by apply updateVehicleStatus_inv|].
    intros v5 Hv5. by apply post_ret.
  - intros t. unfold bind.
    pose proof (updateVehicleLocation_frame v t) as F1.
    destruct (updateVehicleLocation Math ui v t) as [v1 t1].
    pose proof (updateFuelData_frame v1) as F2.
    pose proof (updateEngineData_frame (updateFuelData ui v1) t1) as F3.
    destruct (updateEngineData (updateFuelData ui v1) t1) as [v3 t3].
    pose proof (updateDriverBehavior_frame v3 t3) as F4.
    destruct (updateDriverBehavior ui v3 t3) as [v4 t4].
    pose proof (updateVehicleStatus_frame v4 t4) as F5.
    destruct (updateVehicleStatus ui v4 t4) as [v5 t5].
    simpl in *.
    destruct F1 as [E1 _], F2 as [E2 _], F3 as [E3 _], F4 as [E4 _],
      F5 as [E5 _]. congruence.
Qed.

End FleetTick.

Section FleetRun.

Import Fleet System.
Local Open Scope Q_scope.

Lemma updateVehicleData_post (Math : MathLib) (now : Q)
    (this : FleetTelematicsData) :
  fleet_inv this ->
  rand_post (updateVehicleData Math now this) fleet_inv.
Proof.
  intros (Hui & Hlen & Hinv). unfold updateVehicleData.
  eapply post_bind.
  { apply (post_mapM _ (fun kv => vehicle_inv (snd kv))
             (fun kv kv' => vehicle_inv (snd kv') /\ fst kv' = fst kv)).
    - intros [k v] Hv. simpl in *.
      eapply post_bind; [apply updateVehicle_post; [rewrite Hui; lra|done]|].
      intros v' [Hv' _]. by apply post_ret.
    - unfold getAllVehicles, JS.Map_values in Hinv.
      exact (proj1 (Forall_fmap snd vehicle_inv _) Hinv). }
  intros m Hm. apply post_ret. unfold fleet_inv; simpl.
  split; [done|]. split.
  - by rewrite <- (Forall2_length _ _ _ Hm).
  - unfold getAllVehicles, JS.Map_values. simpl.
    apply (proj2 (Forall_fmap snd vehicle_inv _)). clear -Hm.
    induction Hm as [|kv kv' l l' [Hv _] _ IH]; constructor; done.
Qed.

(** Every fleet the service can hold satisfies the invariant. *)
Lemma fleet_reachable_inv (f : FleetTelematicsData) :
  fleet_reachable f -> fleet_inv f.
Proof.
  induction 1 as [now tape Ht|Math now tape f _ IH Ht].
  - by apply constructor_post.
  - by apply updateVehicleData_post.
Qed.

End FleetRun.

(* ===================================================================== *)
(** * The overlay: construction, governor, frame passes *)
(* ===================================================================== *)

Section OverlayFacts.

Import Overlay System.

Lemma forEach_lookup_notin f refs index pool (obj : nat) :
  obj ∉ refs -> forEach f refs index pool !! obj = pool !! obj.
Proof.
  revert index pool. induction refs as [|r refs IH]; intros index pool Hn;
    simpl; [done|].
  apply not_elem_of_cons in Hn as [Hne Hn].
  rewrite IH by done. by apply list_lookup_alter_ne.
Qed.

(** With no reference repeated, [forEach] applies its callback exactly
    once to each referenced object, with that reference's position. *)
Lemma forEach_lookup_in f refs index pool (k obj : nat) :
  NoDup refs -> refs !! k = Some obj ->
  forEach f refs index pool !! obj = f (index + k)%nat <$> pool !! obj.
Proof.
  revert index pool k. induction refs as [|r refs IH];
    intros index pool k Hnd Hk; [done|].
  apply NoDup_cons in Hnd as [Hr Hnd]. simpl.
  destruct k as [|k]; simpl in Hk.
  - injection Hk as ->. rewrite forEach_lookup_notin by done.
    rewrite Nat.add_0_r. apply list_lookup_alter_eq.
  - rewrite (IH (S index) _ k Hnd Hk).
    assert (r <> obj).
    { intros ->. apply Hr. by apply list_elem_of_lookup_2 in Hk. }
    rewrite list_lookup_alter_ne by done. f_equal. f_equal. lia.
Qed.

Lemma forEach_Forall (P : PooledObject -> Prop) f refs index pool :
  (forall k o, P o -> P (f k o)) ->
  Forall P pool -> Forall P (forEach f refs index pool).
Proof.
  intros Hf. revert index pool.
  induction refs as [|r refs IH]; intros index pool Hp; simpl; [done|].
  apply IH. apply Forall_alter; [done|]. intros o _. apply Hf.
Qed.

(** *** Construction *)

Lemma createObjectPool_loop_spec draws idxs this :
  let this' := createObjectPool_loop draws idxs this in
  textElementPool this'
  = textElementPool this ++ (newPooledObject draws <$> idxs)
  /\ activeElements this' = activeElements this
  /\ inactiveElements this'
     = inactiveElements this
       ++ seq (length (textElementPool this)) (length idxs)
  /\ settings this' = settings this
  /\ fleetData this' = fleetData this.
Proof.
  revert this. induction idxs as [|i idxs IH]; intros this; simpl.
  - by rewrite !app_nil_r.
  - destruct (IH (with_pool this
                    (JS.push (textElementPool this)
                       (newPooledObject draws i))
                    (activeElements this)
                    (JS.push (inactiveElements this)
                       (length (textElementPool this)))))
      as (Hp & Ha & Hi & Hs & Hf).
    simpl in *.
    rewrite Hp, Ha, Hi, Hs, Hf. unfold JS.push.
    rewrite length_app, <- !(assoc_L (++)). simpl.
    by rewrite Nat.add_1_r.
Qed.

Lemma getOptimalTextCount_range navigator :
  (8 <= getOptimalTextCount navigator <= 24)%Z.
Proof.
  unfold getOptimalTextCount.
  destruct (isMobile_test _); [lia|].
  destruct (hardwareConcurrency navigator) as [n|]; [|lia].
  destruct (n <=? 4)%Z; lia.
Qed.

Lemma pool_wf_updateTextContent now this :
  pool_wf this -> pool_wf (updateTextContent now this).
Proof.
  intros Hwf. unfold updateTextContent.
  apply (pool_wf_forEach (with_currentMetrics this _)); [|exact Hwf].
  intros k o. unfold refreshContent. by destruct (_ !! k).
Qed.

(** *** The governor *)

Lemma checkPerformance_textCount navigator now this :
  let ceiling := getOptimalTextCount navigator in
  (8 <= textCount (settings this) <= ceiling)%Z ->
  (8 <= textCount (settings (checkPerformance navigator now this))
   <= ceiling)%Z.
Proof.
  intros ceiling H. unfold checkPerformance. simpl.
  pose proof (getOptimalTextCount_range navigator).
  destruct (Number_ltb _ 30 && _); [lia|].
  destruct (Number_gtb _ 50 && _); fold ceiling; lia.
Qed.

(** *** Display and visibility stay in step *)

Lemma sync_getActiveObject this :
  sync_all this -> sync_all (snd (getActiveObject this)).
Proof.
  unfold sync_all, getActiveObject. intros H.
  destruct (JS.pop (inactiveElements this)) as [[obj l]|]; simpl; [|done].
  apply Forall_alter; [done|]. by intros o _.
Qed.

Lemma sync_releaseObject this obj :
  sync_all this -> sync_all (releaseObject this obj).
Proof.
  unfold sync_all, releaseObject. intros H.
  destruct (textElementPool this !! obj) as [o|]; [|done].
  destruct (isActive o); simpl; [|done].
  destruct (JS.indexOf (activeElements this) obj); simpl;
    (apply Forall_alter; [done|]); by intros.
Qed.

Lemma sync_forEach this f index :
  (forall k o, visible_sync o -> visible_sync (f k o)) ->
  sync_all this ->
  sync_all (with_pool this
              (forEach f (activeElements this) index (textElementPool this))
              (activeElements this) (inactiveElements this)).
Proof. intros Hf H. unfold sync_all. simpl. by apply forEach_Forall. Qed.

Lemma releaseExcess_sync fuel this this' :
  sync_all this -> releaseExcess fuel this = Returns this' ->
  sync_all this'.
Proof.
  revert this. induction fuel as [|fuel IH]; intros this H; simpl.
  - case_bool_decide; [done|]. by intros [= <-].
  - case_bool_decide; [|by intros [= <-]].
    destruct (last (activeElements this)) as [obj|]; [|done].
    apply IH. by apply sync_releaseObject.
Qed.

Lemma activateNeeded_sync fuel this this' :
  sync_all this -> activateNeeded fuel this = Returns this' ->
  sync_all this'.
Proof.
  revert this. induction fuel as [|fuel IH]; intros this H; simpl.
  - case_bool_decide; [done|]. by intros [= <-].
  - case_bool_decide; [|by intros [= <-]].
    pose proof (sync_getActiveObject this H) as H1.
    destruct (getActiveObject this) as [[obj|] this1]; [|by intros [= <-]].
    apply IH. unfold sync_all in *. simpl in *.
    apply Forall_alter; [done|]. by intros.
Qed.

Lemma refreshContent_isActive now metrics k o :
  isActive (refreshContent now metrics k o) = isActive o.
Proof. unfold refreshContent. by destruct (metrics !! k). Qed.

Lemma refreshContent_sync now metrics k o :
  visible_sync o -> visible_sync (refreshContent now metrics k o).
Proof. unfold refreshContent. by destruct (metrics !! k). Qed.

Lemma updateNonCritical_obj_sync o :
  visible_sync o -> visible_sync (updateNonCritical_obj o).
Proof. done. Qed.

Section WithCamera.

Context {Camera : Type} (project : Camera -> Vector3 -> Vector3).

Lemma updateCritical_obj_isActive culling flow time cam w h index o :
  isActive (updateCritical_obj project culling flow time cam w h index o)
  = isActive o.
Proof.
  unfold updateCritical_obj. cbv zeta.
  destruct (culling && _); [by destruct (isVisible _)|done].
Qed.

Lemma updateCritical_obj_sync culling flow time cam w h index o :
  visible_sync o ->
  visible_sync
    (updateCritical_obj project culling flow time cam w h index o).
Proof.
  unfold updateCritical_obj, visible_sync. cbv zeta. intros Hs.
  destruct (culling && _).
  - destruct (isVisible (userData (mesh o))) eqn:Hv; simpl; [done|].
    by rewrite Hv.
  - simpl. destruct (Rgtb _ 0.1 && _); [done|].
    destruct (Rleb _ 0.1 && _); simpl; done.
Qed.

Lemma pool_wf_update ctx this :
  pool_wf this -> pool_wf (update project ctx this).
Proof.
  intros Hwf. unfold update.
  destruct (activeElements this) as [|a l] eqn:Ha; [done|].
  destruct (camera ctx) as [cam|]; [|exact Hwf].
  unfold updateCritical.
  apply pool_wf_forEach; [intros; apply updateCritical_obj_isActive|].
  destruct (requestIdleCallback ctx); [exact Hwf|].
  unfold updateNonCritical. simpl.
  apply (pool_wf_forEach (with_frameCount this _)); [done|exact Hwf].
Qed.

Lemma sync_update ctx this :
  sync_all this -> sync_all (update project ctx this).
Proof.
  intros Hs. unfold update.
  destruct (activeElements this) as [|a l] eqn:Ha; [done|].
  destruct (camera ctx) as [cam|]; [|exact Hs].
  unfold updateCritical.
  apply sync_forEach; [intros; by apply updateCritical_obj_sync|].
  destruct (requestIdleCallback ctx); [exact Hs|].
  unfold updateNonCritical. simpl.
  by apply (sync_forEach (with_frameCount this _)).
Qed.

End WithCamera.

Lemma sync_updateTextContent now this :
  sync_all this -> sync_all (updateTextContent now this).
Proof.
  intros Hs. unfold updateTextContent.
  apply (sync_forEach (with_currentMetrics this _)); [|exact Hs].
  intros. by apply refreshContent_sync.
Qed.

Lemma sync_updateDisplayMetrics now this this' :
  sync_all this -> updateDisplayMetrics now this = Returns this' ->
  sync_all this'.
Proof.
  unfold updateDisplayMetrics, updateDisplayMetrics_fuel. intros Hs.
  destruct (releaseExcess _ _) as [this1| |] eqn:H1; [|done..].
  destruct (activateNeeded _ this1) as [this2| |] eqn:H2; [|done..].
  intros [= <-].
  apply sync_forEach; [intros; by apply refreshContent_sync|].
  eapply activateNeeded_sync; [|exact H2].
  eapply releaseExcess_sync; [|exact H1]. exact Hs.
Qed.

Lemma update_config {Camera} (project : Camera -> Vector3 -> Vector3)
    ctx this :
  settings (update project ctx this) = settings this
  /\ fleetData (update project ctx this) = fleetData this.
Proof.
  unfold update. destruct (activeElements this); [done|].
  destruct (camera ctx); [|done]. simpl.
  by destruct (requestIdleCallback ctx).
Qed.

Lemma createObjectPool_inv draws this :
  textElementPool this = [] -> activeElements this = [] ->
  inactiveElements this = [] ->
  let this' := createObjectPool draws this in
  pool_wf this' /\ sync_all this' /\ activeElements this' = []
  /\ settings this' = settings this /\ fleetData this' = fleetData this.
Proof.
  intros Hp0 Ha0 Hi0. unfold createObjectPool.
  destruct (createObjectPool_loop_spec draws
              (seq 0 (poolSize (settings this))) this)
    as (Hp & Ha & Hi & Hs & Hf).
  cbv zeta.
  set (this1 := createObjectPool_loop draws _ this) in *.
  clearbody this1.
  rewrite Hp0 in Hp, Hi. rewrite Ha0 in Ha. rewrite Hi0 in Hi.
  rewrite length_seq in Hi. rewrite !app_nil_l in *. simpl length in Hi.
  split_and!; try done.
  - unfold pool_wf. rewrite Hp, Ha, Hi, Hs. rewrite app_nil_l.
    rewrite length_fmap, length_seq. split; [done|].
    split; [apply NoDup_seq|]. split.
    + intros i. rewrite elem_of_seq. lia.
    + intros i o Ho. apply list_lookup_fmap_Some in Ho as (k & -> & _).
      split; [done|]. by intros ?%elem_of_nil.
  - unfold sync_all. rewrite Hp.
    apply (proj2 (Forall_fmap _ _ _)). by apply Forall_true.
Qed.

Lemma constructor_inv navigator fleet draws perfNow now :
  fleet_reachable fleet ->
  sys_inv navigator (constructor navigator fleet draws perfNow now).
Proof.
  intros Ht. unfold constructor.
  set (this0 := {| settings := _ |}).
  destruct (createObjectPool_inv draws this0 eq_refl eq_refl eq_refl)
    as (Hwf & Hsync & Ha & Hs & Hf).
  set (this1 := createObjectPool draws this0) in *. clearbody this1.
  unfold sys_inv. split; [by apply pool_wf_updateTextContent|].
  assert (Hs' : settings (updateTextContent now this1) = settings this1)
    by done.
  assert (Hf' : fleetData (updateTextContent now this1) = fleetData this1)
    by done.
  rewrite Hs', Hf', Hs, Hf. unfold this0; cbn [settings poolSize
    cullingEnabled textCount fleetData].
  split; [done|]. split; [done|].
  split; [pose proof (getOptimalTextCount_range navigator); lia|].
  split; [|done].
  by apply sync_updateTextContent.
Qed.

Lemma sys_inv_same_config navigator this this' :
  settings this' = settings this -> fleetData this' = fleetData this ->
  pool_wf this' -> sync_all this' ->
  sys_inv navigator this -> sys_inv navigator this'.
Proof.
  intros Es Ef Hwf' Hs' (_ & Hn & Hc & Htc & _ & Hf). unfold sys_inv.
  rewrite Es, Ef. tauto.
Qed.

Lemma step_inv navigator this this' :
  sys_inv navigator this -> step navigator this this' ->
  sys_inv navigator this'.
Proof.
  intros Hinv Hstep. pose proof Hinv as (Hwf & Hn & Hc & Htc & Hs & Hf).
  destruct Hstep as [this|this obj|this now this' Hret|this now|this now
                    |Camera project ctx this|this|Math now tape this Ht].
  - destruct (getActiveObject_config this) as (Es & _ & Ef).
    apply (sys_inv_same_config navigator this); try done.
    + by apply pool_wf_getActiveObject.
    + by apply sync_getActiveObject.
  - destruct (releaseObject_config this obj) as (Es & _ & Ef).
    apply (sys_inv_same_config navigator this); try done.
    + by apply pool_wf_releaseObject.
    + by apply sync_releaseObject.
  - destruct (updateDisplayMetrics_spec now this Hwf ltac:(lia))
      as (this'' & Hret' & Hwf' & Hs' & Hf' & _).
    rewrite Hret in Hret'. injection Hret' as <-.
    apply (sys_inv_same_config navigator this); try done.
    by apply (sync_updateDisplayMetrics now this).
  - apply (sys_inv_same_config navigator this); try done.
    + by apply pool_wf_updateTextContent.
    + by apply sync_updateTextContent.
  - unfold sys_inv. split; [exact Hwf|]. split; [exact Hn|].
    split; [exact Hc|]. split; [by apply checkPerformance_textCount|].
    split; [exact Hs|exact Hf].
  - destruct (update_config project ctx this) as [Es Ef].
    apply (sys_inv_same_config navigator this); try done.
    + by apply pool_wf_update.
    + by apply sync_update.
  - apply (sys_inv_same_config navigator this); try done.
    + unfold updateNonCritical. by apply pool_wf_forEach.
    + unfold updateNonCritical. by apply sync_forEach.
  - unfold sys_inv. split; [exact Hwf|]. split; [exact Hn|].
    split; [exact Hc|]. split; [exact Htc|]. split; [exact Hs|].
    simpl. by apply fleet_tick.
Qed.

(** The invariant holds of every reachable instance. *)
Lemma reachable_inv navigator this :
  reachable navigator this -> sys_inv navigator this.
Proof.
  induction 1 as [tape draws perfNow now Ht|this this' _ IH Hstep].
  - by apply constructor_inv, fleet_init.
  - by apply (step_inv navigator this).
Qed.

End OverlayFacts.

(* ===================================================================== *)
(** * The fleet: the stages of a tick *)
(* ===================================================================== *)

Section TickStages.

Import Fleet System.
Local Open Scope Q_scope.

Context (Math : MathLib) (ui now : Q).

(** After a whole tick the location is the one [updateVehicleLocation]
    left, the fuel the one [updateFuelData] left, and the engine the one
    [updateEngineData] left. *)
Lemma updateVehicle_stages (v : Vehicle) (t : Tape) :
  let r1 := updateVehicleLocation Math ui v t in
  let v2 := updateFuelData ui (fst r1) in
  let r3 := updateEngineData v2 (snd r1) in
  let v' := fst (updateVehicle Math ui now v t) in
  location v' = location (fst r1)
  /\ fuel v' = fuel v2
  /\ engine v' = engine (fst r3).
Proof.
  cbv zeta. unfold updateVehicle, bind.
  destruct (updateVehicleLocation Math ui v t) as [v1 t1]. simpl.
  pose proof (updateFuelData_frame ui v1) as F2.
  pose proof (updateEngineData_frame (updateFuelData ui v1) t1) as F3.
  destruct (updateEngineData (updateFuelData ui v1) t1) as [v3 t3].
  pose proof (updateDriverBehavior_frame ui v3 t3) as F4.
  destruct (updateDriverBehavior ui v3 t3) as [v4 t4].
  pose proof (updateVehicleStatus_frame ui v4 t4) as F5.
  destruct (updateVehicleStatus ui v4 t4) as [v5 t5].
  simpl in *.
  destruct F2 as (_ & _ & L2 & _), F3 as (_ & _ & L3 & U3 & _),
    F4 as (_ & _ & L4 & U4 & E4 & _), F5 as (_ & _ & L5 & U5 & E5 & _).
  split; [congruence|]. split; congruence.
Qed.

(** [updateVehicleLocation] only moves the tape forward. *)
Lemma updateVehicleLocation_tape (v : Vehicle) (t : Tape) :
  exists c, forall n,
    snd (updateVehicleLocation Math ui v t) n = t (n + c)%nat.
Proof.
  unfold updateVehicleLocation. destruct (state (status v)).
  - unfold bind, ret, Math_random. simpl.
    destruct (JS.ltb (t 1%nat) 0.1); simpl.
    + exists 3%nat. intros n. f_equal. lia.
    + exists 2%nat. intros n. f_equal. lia.
  - exists 0%nat. intros n. simpl. f_equal. lia.
Qed.

(** [updateEngineData] changes [faultCodes] only by appending one
    catalog code that was absent, below the cap, behind a draw under
    0.001. *)
Lemma updateEngineData_faults (v : Vehicle) (t : Tape) :
  tape_ok t ->
  let codes := faultCodes (engine v) in
  let codes' := faultCodes (engine (fst (updateEngineData v t))) in
  codes' = codes
  \/ exists code k,
       codes' = codes ++ [Some code]
       /\ code ∈ faultCatalog
       /\ (Some code ∉ codes)
       /\ (length codes < 3)%nat
       /\ t k < 0.001.
Proof.
  intros Ht. cbv zeta. unfold updateEngineData, bind, ret, Math_random.
  destruct (state (status v)); simpl.
  - destruct (JS.ltb (t 4%nat) 0.001) eqn:Hgate; simpl; [|by left].
    case_bool_decide as Hlen; simpl; [|by left].
    destruct (catalog_get (t 5%nat) (Ht 5%nat)) as (code & Hget & Hcode).
    simpl length in Hget. rewrite Hget. unfold JS.includes.
    case_bool_decide as Hin; simpl; [by left|].
    right. exists code, 4%nat. split_and!; try done. by apply ltb_true.
  - destruct (JS.ltb (t 2%nat) 0.001) eqn:Hgate; simpl; [|by left].
    case_bool_decide as Hlen; simpl; [|by left].
    destruct (catalog_get (t 3%nat) (Ht 3%nat)) as (code & Hget & Hcode).
    simpl length in Hget. rewrite Hget. unfold JS.includes.
    case_bool_decide as Hin; simpl; [by left|].
    right. exists code, 2%nat. split_and!; try done. by apply ltb_true.
Qed.

End TickStages.

(* ===================================================================== *)
(** * The metric projection *)
(* ===================================================================== *)

Section MetricFacts.

Import Fleet.

Lemma vehicleMetrics_length (vs : list Vehicle) :
  length (vs ≫= vehicleMetrics) = (4 * length vs)%nat.
Proof.
  induction vs as [|v vs IH]; [done|].
  change ((v :: vs) ≫= vehicleMetrics)
    with (vehicleMetrics v ++ (vs ≫= vehicleMetrics)).
  rewrite length_app, IH. simpl. lia.
Qed.

(** The four metrics of the [i]-th vehicle sit at positions [4i .. 4i+3]. *)
Lemma vehicleMetrics_lookup (vs : list Vehicle) (i j : nat) (v : Vehicle) :
  vs !! i = Some v -> (j < 4)%nat ->
  (vs ≫= vehicleMetrics) !! (4 * i + j)%nat = vehicleMetrics v !! j.
Proof.
  revert i. induction vs as [|v0 vs IH]; intros i Hi Hj; [done|].
  change ((v0 :: vs) ≫= vehicleMetrics)
    with (vehicleMetrics v0 ++ (vs ≫= vehicleMetrics)).
  destruct i as [|i]; simpl in Hi.
  - injection Hi as ->. rewrite lookup_app_l by (simpl; lia). done.
  - rewrite lookup_app_r by (simpl; lia).
    replace (4 * S i + j - length (vehicleMetrics v0))%nat
      with (4 * i + j)%nat by (simpl; lia).
    by apply IH.
Qed.

Lemma getDisplayMetrics_length (this : FleetTelematicsData) :
  length (getDisplayMetrics this)
  = (4 * length (vehicles this) + 1)%nat.
Proof.
  unfold getDisplayMetrics, JS.push, getAllVehicles, JS.Map_values.
  rewrite length_app, vehicleMetrics_length, length_fmap. simpl. lia.
Qed.

End MetricFacts.

(* ===================================================================== *)
(** * The specification's claims *)
(* ===================================================================== *)

Section Claims.

Import Overlay System.

Lemma tape_half_ok : tape_ok Sample.tape_half.
Proof. intros n. unfold Sample.tape_half. split; lra. Qed.

Lemma overlay0_reachable : reachable Sample.desktop Sample.overlay0.
Proof. apply reachable_init, tape_half_ok. Qed.

End Claims.

(** C5.  [getActiveObject] returns the empty result [None] exactly when
    no inactive member remains, and then leaves the instance untouched
    (it is a total function: there is no error outcome); [releaseObject]
    on a member whose [isActive] flag is already false returns the
    instance unchanged, so releasing twice is the same as releasing
    once. *)
Theorem acquire_empty_release_idempotent (this : Overlay.t) :
  (fst (Overlay.getActiveObject this) = None
   <-> Overlay.inactiveElements this = [])
  /\ (Overlay.inactiveElements this = [] ->
      Overlay.getActiveObject this = (None, this))
  /\ (forall obj o,
        Overlay.textElementPool this !! obj = Some o ->
        Overlay.isActive o = false ->
        Overlay.releaseObject this obj = this)
  /\ (forall obj,
        Overlay.releaseObject (Overlay.releaseObject this obj) obj
        = Overlay.releaseObject this obj).
Proof.
  split; [|split; [|split]].
  - unfold Overlay.getActiveObject.
    destruct (JS.pop (Overlay.inactiveElements this)) as [[obj l]|] eqn:Hpop.
    + apply pop_Some in Hpop. simpl. split; [done|].
      intros Hnil. rewrite Hnil in Hpop. by destruct l.
    + apply pop_None in Hpop. done.
  - apply getActiveObject_None.
  - apply releaseObject_inactive.
  - apply releaseObject_twice.
Qed.

Lemma acquire_empty_release_idempotent_witness :
  Overlay.releaseObject Sample.overlay0 0 = Sample.overlay0.
Proof.
  destruct (acquire_empty_release_idempotent Sample.overlay0)
    as (_ & _ & Hrel & _).
  apply (Hrel 0%nat (Overlay.newPooledObject Sample.draws_half 0));
    reflexivity.
Defined.

(** C10.  In every instance reachable from construction by any
    interleaving of calls, each pooled object is referenced by exactly one
    of [activeElements] and [inactiveElements], neither list repeats or
    holds a foreign reference, the two lengths add up to the pool's
    capacity, and an object's [isActive] flag is true exactly when it is
    in [activeElements]. *)
Theorem pool_lists_partition (navigator : Overlay.Navigator)
    (this : Overlay.t) :
  System.reachable navigator this ->
  length (Overlay.textElementPool this)
  = Overlay.poolSize (Overlay.settings this)
  /\ (forall obj, (obj < length (Overlay.textElementPool this))%nat ->
        (obj ∈ Overlay.activeElements this
         /\ (obj ∉ Overlay.inactiveElements this))
        \/ ((obj ∉ Overlay.activeElements this)
            /\ obj ∈ Overlay.inactiveElements this))
  /\ (forall obj,
        obj ∈ Overlay.activeElements this ++ Overlay.inactiveElements this ->
        (obj < length (Overlay.textElementPool this))%nat)
  /\ NoDup (Overlay.activeElements this)
  /\ NoDup (Overlay.inactiveElements this)
  /\ (length (Overlay.activeElements this)
      + length (Overlay.inactiveElements this))%nat
     = Overlay.poolSize (Overlay.settings this)
  /\ (forall obj o,
        Overlay.textElementPool this !! obj = Some o ->
        (Overlay.isActive o = true <-> obj ∈ Overlay.activeElements this)).
Proof.
  intros Hreach. apply reachable_inv in Hreach as (Hwf & _).
  pose proof (pool_wf_count this Hwf) as Hcount.
  destruct Hwf as (Hlen & Hnd & Hmem & Hflag).
  pose proof Hnd as (Hnda & Hdisj & Hndi)%NoDup_app.
  split; [done|]. split; [|split; [|split; [|split; [|split]]]]; try done.
  - intros obj Hlt. apply Hmem in Hlt. apply elem_of_app in Hlt as [Ha|Hi].
    + left. split; [done|]. by apply Hdisj.
    + right. split; [|done]. intros Ha. by apply (Hdisj obj).
  - intros obj. apply Hmem.
Qed.

Lemma pool_lists_partition_witness :
  (length (Overlay.activeElements Sample.overlay0)
   + length (Overlay.inactiveElements Sample.overlay0))%nat
  = Overlay.poolSize (Overlay.settings Sample.overlay0).
Proof.
  exact (proj1 (proj2 (proj2 (proj2 (proj2 (proj2
           (pool_lists_partition Sample.desktop Sample.overlay0
              overlay0_reachable))))))).
Defined.

(** C4.  On every reachable instance a reconciliation call returns, and
    afterwards the number of active members is
    [min(textCount, currentMetrics.length)] and at most the pool's
    capacity; the capacity is 32 and the fleet of 12 vehicles yields 49
    metrics, so the count is [min(textCount, 49)]. *)
Theorem reconciliation_active_count (navigator : Overlay.Navigator)
    (now : Q) (this : Overlay.t) :
  System.reachable navigator this ->
  exists this',
    Overlay.updateDisplayMetrics now this = Overlay.Returns this'
    /\ Overlay.poolSize (Overlay.settings this') = 32%nat
    /\ length (Fleet.vehicles (Overlay.fleetData this)) = 12%nat
    /\ length (Overlay.currentMetrics this') = 49%nat
    /\ Z.of_nat (length (Overlay.activeElements this'))
       = Z.min (Overlay.textCount (Overlay.settings this'))
               (Z.of_nat (length (Overlay.currentMetrics this')))
    /\ Z.of_nat (length (Overlay.activeElements this'))
       = Z.min (Overlay.textCount (Overlay.settings this')) 49
    /\ (length (Overlay.activeElements this')
        <= Overlay.poolSize (Overlay.settings this'))%nat.
Proof.
  intros Hreach.
  apply reachable_inv in Hreach as (Hwf & Hn & _ & Htc & _ & Hfleet).
  apply fleet_reachable_inv in Hfleet as (_ & Hlen & _).
  pose proof (getOptimalTextCount_range navigator) as Hceil.
  destruct (updateDisplayMetrics_spec now this Hwf ltac:(lia))
    as (this' & Hret & Hwf' & Hs & Hf & Hm & Hcount).
  exists this'. rewrite Hs, Hm, Hn.
  pose proof (getDisplayMetrics_length (Overlay.fleetData this)) as HM.
  rewrite Hlen in HM. simpl in HM. rewrite HM, Hn in Hcount.
  split; [done|]. split; [done|]. split; [done|]. split; [done|].
  rewrite HM. split; [lia|]. split; lia.
Qed.

Lemma reconciliation_active_count_witness :
  exists this',
    Overlay.updateDisplayMetrics 0 Sample.overlay0 = Overlay.Returns this'
    /\ Z.of_nat (length (Overlay.activeElements this'))
       = Z.min (Overlay.textCount (Overlay.settings this')) 49.
Proof.
  destruct (reconciliation_active_count Sample.desktop 0 Sample.overlay0
              overlay0_reachable)
    as (this' & Hret & _ & _ & _ & _ & Hcount & _).
  exists this'. split; [exact Hret|exact Hcount].
Defined.

(** C3, as the claim states it, fails: 148 frames in a 5000 ms window are
    29.6 frames per second, below 30, so the claimed rule lowers a target
    of 24 to 22; [checkPerformance] rounds 29.6 to 30 first and keeps 24. *)
Lemma governor_unrounded_counterexample :
  let this := Overlay.with_frameCount Sample.overlay0 148 in
  let windowMs := (5000 - Overlay.lastFPSCheck this)%Q in
  let measuredFPS := (Fleet.Q_of_nat 148 * 1000 / windowMs)%Q in
  (measuredFPS < 30)%Q
  /\ Overlay.textCount (Overlay.settings this) = 24%Z
  /\ System.spec_targetActive (Overlay.getOptimalTextCount Sample.desktop)
       measuredFPS (Overlay.textCount (Overlay.settings this)) = 22%Z
  /\ Overlay.textCount
       (Overlay.settings (Overlay.checkPerformance Sample.desktop 5000 this))
     = 24%Z
  /\ Overlay.textCount
       (Overlay.settings (Overlay.checkPerformance Sample.desktop 5000 this))
     <> System.spec_targetActive (Overlay.getOptimalTextCount Sample.desktop)
          measuredFPS (Overlay.textCount (Overlay.settings this)).
Proof.
  cbv zeta. split; [|split; [|split; [|split]]].
  - vm_compute. reflexivity.
  - reflexivity.
  - reflexivity.
  - reflexivity.
  - vm_compute. discriminate.
Qed.

Section GovernorFacts.

Import Overlay System.

Lemma measureFPS_positive (frames : nat) (deltaTime : Q) :
  (0 < deltaTime)%Q ->
  measureFPS frames deltaTime
  = Finite (JS.Math_round (1000 * Fleet.Q_of_nat frames / deltaTime)%Q).
Proof.
  intros Hpos. unfold measureFPS.
  destruct (Qeq_bool deltaTime 0) eqn:Hz; [|done].
  apply Qeq_bool_iff in Hz. rewrite Hz in Hpos. by apply Qlt_irrefl in Hpos.
Qed.

(** What [checkPerformance] does to [textCount], by the rounded rate. *)
Lemma checkPerformance_rule navigator now this (fps : Z) :
  currentFPS (checkPerformance navigator now this) = Finite fps ->
  let ceiling := getOptimalTextCount navigator in
  let count := textCount (settings this) in
  let count' := textCount (settings (checkPerformance navigator now this)) in
  ((fps < 30)%Z -> (8 <= count)%Z -> count' = Z.max 8 (count - 2))
  /\ ((50 < fps)%Z -> (count <= ceiling)%Z ->
      count' = Z.min ceiling (count + 1))
  /\ ((30 <= fps <= 50)%Z -> count' = count).
Proof.
  unfold checkPerformance. simpl. intros ->. simpl.
  destruct (Z.ltb_spec fps 30), (Z.ltb_spec 8 (textCount (settings this))),
    (Z.ltb_spec 50 fps),
    (Z.ltb_spec (textCount (settings this)) (getOptimalTextCount navigator));
    simpl; split_and!; intros; lia.
Qed.

(** A window measured below 30 lowers the target by 2, down to 8. *)
Lemma window_low navigator frames now this (fps count : Z) :
  currentFPS (window navigator frames now this) = Finite fps ->
  textCount (settings this) = count ->
  (fps < 30)%Z -> (8 <= count)%Z ->
  textCount (settings (window navigator frames now this))
  = Z.max 8 (count - 2).
Proof.
  intros Hfps Hc Hlow Hge.
  destruct (checkPerformance_rule navigator now
              (with_frameCount this frames) fps Hfps) as (Hrule & _).
  rewrite <- Hc. apply Hrule; [done|]. simpl. lia.
Qed.

Lemma Q_of_nat_succ (n : nat) :
  (Fleet.Q_of_nat (S n) == Fleet.Q_of_nat n + 1)%Q.
Proof.
  unfold Fleet.Q_of_nat. rewrite Nat2Z.inj_succ, <- Z.add_1_r, inject_Z_plus.
  reflexivity.
Qed.

Lemma Math_round_comp (a b : Q) : (a == b)%Q -> JS.Math_round a = JS.Math_round b.
Proof. intros H. unfold JS.Math_round. by rewrite H. Qed.

Lemma monitoring_run_length navigator frames this :
  length (monitoring_run navigator frames this) = length frames.
Proof.
  revert this. induction frames as [|f rest IH]; intros this; simpl; [done|].
  by rewrite IH.
Qed.

(** The [k]-th evaluation of the timer is one [window], run 5000 ms
    after the evaluation before it. *)
Lemma monitoring_run_lookup navigator frames this (k f : nat) (prev s : t) :
  frames !! k = Some f ->
  (this :: monitoring_run navigator frames this) !! k = Some prev ->
  monitoring_run navigator frames this !! k = Some s ->
  s = window navigator f
        (lastFPSCheck prev + setupPerformanceMonitoring_period)%Q prev
  /\ (lastFPSCheck prev
      == lastFPSCheck this
         + setupPerformanceMonitoring_period * Fleet.Q_of_nat k)%Q.
Proof.
  revert this k. induction frames as [|f0 rest IH]; intros this k; [done|].
  destruct k as [|k]; simpl.
  - intros [= <-] [= <-] [= <-]. split; [done|].
    change (Fleet.Q_of_nat 0) with 0%Q. ring.
  - intros Hf Hprev Hs.
    destruct (IH _ k Hf Hprev Hs) as [-> Hlast]. split; [done|].
    rewrite Hlast, Q_of_nat_succ.
    change (lastFPSCheck (window navigator f0
              (lastFPSCheck this + setupPerformanceMonitoring_period)%Q this))
      with (lastFPSCheck this + setupPerformanceMonitoring_period)%Q.
    ring.
Qed.

End GovernorFacts.

(** C3, amended.  [checkPerformance] measures
    [round(1000 * frameCount / windowMs)] over the window since the last
    check, then restarts the count; with that rounded rate below 30 it
    lowers [textCount] by 2 but not below 8, with it above 50 it raises
    [textCount] by 1 but not above [getOptimalTextCount()], and otherwise
    keeps it; a [textCount] between 8 and that ceiling stays there.  From
    24, three windows measured at 25 give 22, 20, 18.  Under the timer
    of [setupPerformanceMonitoring] there is exactly one evaluation per
    window of frames, each window is 5000 ms long, the evaluation
    measures [round(1000 * frames / 5000)] and follows the same rule;
    three windows of 125 frames, which are 25 FPS, take 24 to 22, 20,
    18. *)
Theorem governor_rounded_rule (navigator : Overlay.Navigator) :
  let ceiling := Overlay.getOptimalTextCount navigator in
  (forall (this : Overlay.t) (frames : nat) (now : Q),
     (0 < now - Overlay.lastFPSCheck this)%Q ->
     let fps :=
       JS.Math_round
         (1000 * Fleet.Q_of_nat frames / (now - Overlay.lastFPSCheck this))%Q in
     let count := Overlay.textCount (Overlay.settings this) in
     let this' := System.window navigator frames now this in
     let count' := Overlay.textCount (Overlay.settings this') in
     Overlay.currentFPS this' = Overlay.Finite fps
     /\ Overlay.frameCount this' = 0%nat
     /\ Overlay.lastFPSCheck this' = now
     /\ ((fps < 30)%Z -> (8 <= count)%Z -> count' = Z.max 8 (count - 2))
     /\ ((50 < fps)%Z -> (count <= ceiling)%Z ->
         count' = Z.min ceiling (count + 1))
     /\ ((30 <= fps <= 50)%Z -> count' = count)
     /\ ((8 <= count <= ceiling)%Z -> (8 <= count' <= ceiling)%Z))
  /\ (forall (this : Overlay.t) (f1 f2 f3 : nat) (now1 now2 now3 : Q),
        let s1 := System.window navigator f1 now1 this in
        let s2 := System.window navigator f2 now2 s1 in
        let s3 := System.window navigator f3 now3 s2 in
        Overlay.textCount (Overlay.settings this) = 24%Z ->
        Overlay.currentFPS s1 = Overlay.Finite 25 ->
        Overlay.currentFPS s2 = Overlay.Finite 25 ->
        Overlay.currentFPS s3 = Overlay.Finite 25 ->
        Overlay.textCount (Overlay.settings s1) = 22%Z
        /\ Overlay.textCount (Overlay.settings s2) = 20%Z
        /\ Overlay.textCount (Overlay.settings s3) = 18%Z)
  /\ (forall (this : Overlay.t) (frames : list nat),
        let run := System.monitoring_run navigator frames this in
        length run = length frames
        /\ (forall (k f : nat) (prev s : Overlay.t),
              frames !! k = Some f ->
              (this :: run) !! k = Some prev ->
              run !! k = Some s ->
              let windowMs :=
                (Overlay.lastFPSCheck s - Overlay.lastFPSCheck prev)%Q in
              let fps :=
                JS.Math_round (1000 * Fleet.Q_of_nat f / 5000)%Q in
              let count := Overlay.textCount (Overlay.settings prev) in
              let count' := Overlay.textCount (Overlay.settings s) in
              (windowMs == 5000)%Q
              /\ (Overlay.lastFPSCheck s
                  == Overlay.lastFPSCheck this
                     + 5000 * Fleet.Q_of_nat (S k))%Q
              /\ Overlay.currentFPS s = Overlay.Finite fps
              /\ Overlay.frameCount s = 0%nat
              /\ ((fps < 30)%Z -> (8 <= count)%Z ->
                  count' = Z.max 8 (count - 2))
              /\ ((50 < fps)%Z -> (count <= ceiling)%Z ->
                  count' = Z.min ceiling (count + 1))
              /\ ((30 <= fps <= 50)%Z -> count' = count)
              /\ ((8 <= count <= ceiling)%Z -> (8 <= count' <= ceiling)%Z)))
  /\ (forall this : Overlay.t,
        Overlay.textCount (Overlay.settings this) = 24%Z ->
        (fun s => Overlay.textCount (Overlay.settings s))
          <$> System.monitoring_run navigator [125; 125; 125]%nat this
        = [22; 20; 18]%Z).
Proof.
  cbv zeta. split; [|split; [|split]].
  - intros this frames now Hpos.
    assert (Hfps : Overlay.currentFPS (System.window navigator frames now this)
                   = Overlay.Finite
                       (JS.Math_round
                          (1000 * Fleet.Q_of_nat frames
                           / (now - Overlay.lastFPSCheck this))%Q)).
    { unfold System.window, Overlay.checkPerformance. simpl.
      by apply measureFPS_positive. }
    split; [exact Hfps|]. split; [done|]. split; [done|].
    destruct (checkPerformance_rule navigator now
                (Overlay.with_frameCount this frames) _ Hfps)
      as (Hlow & Hhigh & Hmid).
    split; [exact Hlow|]. split; [exact Hhigh|]. split; [exact Hmid|].
    apply (checkPerformance_textCount navigator now
             (Overlay.with_frameCount this frames)).
  - intros this f1 f2 f3 now1 now2 now3 H24 H1 H2 H3.
    pose proof (window_low navigator f1 now1 this 25 24 H1 H24
                  ltac:(lia) ltac:(lia)) as E1.
    pose proof (window_low navigator f2 now2 _ 25 22 H2 E1
                  ltac:(lia) ltac:(lia)) as E2.
    pose proof (window_low navigator f3 now3 _ 25 20 H3 E2
                  ltac:(lia) ltac:(lia)) as E3.
    by split_and!.
  - intros this frames. split; [apply monitoring_run_length|].
    intros k f prev s Hf Hprev Hs.
    destruct (monitoring_run_lookup navigator frames this k f prev s
                Hf Hprev Hs) as [-> Hlast].
    unfold Overlay.setupPerformanceMonitoring_period in *.
    assert (Hdelta : (Overlay.lastFPSCheck prev + 5000
                      - Overlay.lastFPSCheck prev == 5000)%Q) by ring.
    assert (Hfps : Overlay.currentFPS
                     (System.window navigator f
                        (Overlay.lastFPSCheck prev + 5000)%Q prev)
                   = Overlay.Finite
                       (JS.Math_round
                          (1000 * Fleet.Q_of_nat f / 5000)%Q)).
    { unfold System.window, Overlay.checkPerformance. simpl.
      rewrite measureFPS_positive by (rewrite Hdelta; reflexivity).
      f_equal. apply Math_round_comp. by rewrite Hdelta. }
    split; [exact Hdelta|]. split.
    { change (Overlay.lastFPSCheck
                (System.window navigator f
                   (Overlay.lastFPSCheck prev + 5000)%Q prev))
        with (Overlay.lastFPSCheck prev + 5000)%Q.
      rewrite Hlast, Q_of_nat_succ. ring. }
    split; [exact Hfps|]. split; [done|].
    destruct (checkPerformance_rule navigator
                (Overlay.lastFPSCheck prev + 5000)%Q
                (Overlay.with_frameCount prev f) _ Hfps)
      as (Hlow & Hhigh & Hmid).
    split; [exact Hlow|]. split; [exact Hhigh|]. split; [exact Hmid|].
    apply (checkPerformance_textCount navigator
             (Overlay.lastFPSCheck prev + 5000)%Q
             (Overlay.with_frameCount prev f)).
  - intros this H24.
    assert (Hstep : forall (s : Overlay.t) (c : Z),
              Overlay.textCount (Overlay.settings s) = c -> (8 <= c)%Z ->
              Overlay.textCount
                (Overlay.settings
                   (System.window navigator 125
                      (Overlay.lastFPSCheck s
                       + Overlay.setupPerformanceMonitoring_period)%Q s))
              = Z.max 8 (c - 2)).
    { intros s c Hc Hge.
      apply (window_low navigator 125 _ s 25 c); [|done|lia|done].
      unfold System.window, Overlay.checkPerformance,
        Overlay.setupPerformanceMonitoring_period. simpl.
      assert (Hdelta : (Overlay.lastFPSCheck s + 5000
                        - Overlay.lastFPSCheck s == 5000)%Q) by ring.
      rewrite measureFPS_positive by (rewrite Hdelta; reflexivity).
      f_equal.
      rewrite (Math_round_comp _ (1000 * Fleet.Q_of_nat 125 / 5000)%Q)
        by (by rewrite Hdelta).
      reflexivity. }
    cbn [System.monitoring_run fmap list_fmap].
    pose proof (Hstep this 24%Z H24 ltac:(lia)) as E1.
    pose proof (Hstep _ 22%Z E1 ltac:(lia)) as E2.
    pose proof (Hstep _ 20%Z E2 ltac:(lia)) as E3.
    rewrite E1, E2, E3. reflexivity.
Qed.

Lemma governor_rounded_rule_witness :
  (let s1 := System.window Sample.desktop 125 5000 Sample.overlay0 in
   let s2 := System.window Sample.desktop 125 10000 s1 in
   let s3 := System.window Sample.desktop 125 15000 s2 in
   Overlay.textCount (Overlay.settings s1) = 22%Z
   /\ Overlay.textCount (Overlay.settings s2) = 20%Z
   /\ Overlay.textCount (Overlay.settings s3) = 18%Z)
  /\ (fun s => Overlay.textCount (Overlay.settings s))
       <$> System.monitoring_run Sample.desktop [125; 125; 125]%nat
             Sample.overlay0
     = [22; 20; 18]%Z.
Proof.
  split.
  - apply (proj1 (proj2 (governor_rounded_rule Sample.desktop))
             Sample.overlay0 125%nat 125%nat 125%nat 5000%Q 10000%Q 15000%Q);
      vm_compute; reflexivity.
  - apply (proj2 (proj2 (proj2 (governor_rounded_rule Sample.desktop)))
             Sample.overlay0).
    reflexivity.
Defined.

(** C7.  In the fleet as constructed and after any number of ticks, every
    vehicle's [fuel.level] lies in [[0, fuel.capacity]] and its
    [driver.score] in [[50, 100]]. *)
Theorem fuel_and_score_in_range (f : Fleet.FleetTelematicsData) :
  System.fleet_reachable f ->
  Forall (fun v =>
            (0 <= Fleet.level (Fleet.fuel v)
             /\ Fleet.level (Fleet.fuel v) <= Fleet.capacity (Fleet.fuel v)
             /\ 50 <= Fleet.score (Fleet.driver v)
             /\ Fleet.score (Fleet.driver v) <= 100)%Q)
         (Fleet.getAllVehicles f).
Proof.
  intros Hreach. apply fleet_reachable_inv in Hreach as (_ & _ & Hinv).
  eapply Forall_impl; [exact Hinv|].
  intros v ((Hl0 & Hlc & _) & _ & ((Hs0 & Hs1) & _) & _). simpl. tauto.
Qed.

Lemma fuel_and_score_in_range_witness :
  Forall (fun v =>
            (0 <= Fleet.level (Fleet.fuel v)
             /\ Fleet.level (Fleet.fuel v) <= Fleet.capacity (Fleet.fuel v)
             /\ 50 <= Fleet.score (Fleet.driver v)
             /\ Fleet.score (Fleet.driver v) <= 100)%Q)
         (Fleet.getAllVehicles
            (fst (Fleet.updateVehicleData Sample.Math_flat 1000
                    Sample.fleet0 Sample.tape_half))).
Proof.
  apply fuel_and_score_in_range.
  apply System.fleet_tick; [apply System.fleet_init|]; apply tape_half_ok.
Defined.

(** C8.  In every reachable fleet no vehicle holds more than three fault
    codes or the same code twice; and one tick changes a vehicle's
    [faultCodes] only by appending a single code of the catalog that was
    not yet present, while fewer than three were held, behind a draw
    below 0.001. *)
Theorem fault_codes_capped_and_distinct :
  (forall f : Fleet.FleetTelematicsData,
     System.fleet_reachable f ->
     Forall (fun v =>
               (length (Fleet.faultCodes (Fleet.engine v)) <= 3)%nat
               /\ NoDup (Fleet.faultCodes (Fleet.engine v)))
            (Fleet.getAllVehicles f))
  /\ (forall (Math : Fleet.MathLib) (ui now : Q) (v : Fleet.Vehicle)
             (t : Tape),
        tape_ok t ->
        let codes := Fleet.faultCodes (Fleet.engine v) in
        let codes' :=
          Fleet.faultCodes
            (Fleet.engine (fst (Fleet.updateVehicle Math ui now v t))) in
        codes' = codes
        \/ exists code k,
             codes' = codes ++ [Some code]
             /\ code ∈ Fleet.faultCatalog
             /\ (Some code ∉ codes)
             /\ (length codes < 3)%nat
             /\ (t k < 0.001)%Q).
Proof.
  split.
  - intros f Hreach. apply fleet_reachable_inv in Hreach as (_ & _ & Hinv).
    eapply Forall_impl; [exact Hinv|].
    intros v (_ & _ & _ & (Hnd & Hlen & _)). by split.
  - intros Math ui now v t Ht. cbv zeta.
    destruct (updateVehicle_stages Math ui now v t) as (_ & _ & ->).
    destruct (updateVehicleLocation_tape Math ui v t) as [c Hc].
    pose proof (updateVehicleLocation_frame Math ui v t) as (_ & _ & _ & E1 & _).
    pose proof (updateFuelData_frame ui (fst (Fleet.updateVehicleLocation Math ui v t)))
      as (_ & _ & _ & E2 & _).
    set (t1 := snd (Fleet.updateVehicleLocation Math ui v t)) in *.
    set (v2 := Fleet.updateFuelData ui _) in *.
    assert (Ht1 : tape_ok t1).
    { intros n. rewrite Hc. apply Ht. }
    destruct (updateEngineData_faults v2 t1 Ht1)
      as [Hsame|(code & k & Happ & Hcat & Hnew & Hlt & Hgate)].
    + left. rewrite Hsame. congruence.
    + right. exists code, (k + c)%nat. rewrite Happ.
      replace (Fleet.faultCodes (Fleet.engine v2))
        with (Fleet.faultCodes (Fleet.engine v)) in * by congruence.
      rewrite <- Hc. by split_and!.
Qed.

Lemma fault_codes_capped_and_distinct_witness :
  Forall (fun v =>
            (length (Fleet.faultCodes (Fleet.engine v)) <= 3)%nat
            /\ NoDup (Fleet.faultCodes (Fleet.engine v)))
         (Fleet.getAllVehicles
            (fst (Fleet.updateVehicleData Sample.Math_flat 1000
                    Sample.fleet0 Sample.tape_half))).
Proof.
  apply (proj1 fault_codes_capped_and_distinct).
  apply System.fleet_tick; [apply System.fleet_init|]; apply tape_half_ok.
Defined.

(** C6.  One tick of a driving vehicle leaves
    [fuel.level = max(0, level - speed / efficiency / 3600 * deltaSeconds)],
    with [speed] the speed the tick's location update has just set and
    [deltaSeconds = updateInterval / 1000]; so where that much fuel is
    left, exactly that many litres are consumed.  One tick of an idle
    vehicle leaves [fuel.level] as it was and reports a consumption of
    0. *)
Theorem fuel_consumption_per_tick (Math : Fleet.MathLib) (ui now : Q)
    (v : Fleet.Vehicle) (t : Tape) :
  let v' := fst (Fleet.updateVehicle Math ui now v t) in
  let deltaSeconds := (ui / 1000)%Q in
  let litres :=
    (Fleet.speed (Fleet.location v') / Fleet.efficiency (Fleet.fuel v)
     / 3600 * deltaSeconds)%Q in
  (Fleet.state (Fleet.status v) = Fleet.driving ->
   Fleet.level (Fleet.fuel v')
   = JS.Math_max 0 (Fleet.level (Fleet.fuel v) - litres)
   /\ ((litres <= Fleet.level (Fleet.fuel v))%Q ->
       (Fleet.level (Fleet.fuel v) - Fleet.level (Fleet.fuel v')
        == litres)%Q))
  /\ (Fleet.state (Fleet.status v) = Fleet.idle ->
      Fleet.level (Fleet.fuel v') = Fleet.level (Fleet.fuel v)
      /\ Fleet.consumption (Fleet.fuel v') = 0%Q).
Proof.
  cbv zeta.
  destruct (updateVehicle_stages Math ui now v t) as (-> & -> & _).
  pose proof (updateVehicleLocation_frame Math ui v t)
    as (_ & _ & Ef & _ & _ & Es).
  set (v1 := fst (Fleet.updateVehicleLocation Math ui v t)) in *.
  unfold Fleet.updateFuelData. rewrite Es, Ef.
  split; intros ->; simpl; [|done].
  split; [done|]. intros Hle. unfold JS.Math_max.
  rewrite Q.max_r by lra. ring.
Qed.

Lemma fuel_consumption_per_tick_witness :
  let v := Sample.vehicle0 in
  let v' :=
    fst (Fleet.updateVehicle Sample.Math_flat 1000 0 v Sample.tape_half) in
  Fleet.level (Fleet.fuel v')
  = JS.Math_max 0
      (Fleet.level (Fleet.fuel v)
       - Fleet.speed (Fleet.location v') / Fleet.efficiency (Fleet.fuel v)
         / 3600 * (1000 / 1000))%Q.
Proof.
  apply (proj1 (fuel_consumption_per_tick Sample.Math_flat 1000 0
                  Sample.vehicle0 Sample.tape_half)).
  vm_compute. reflexivity.
Defined.

Section IdleFacts.

Import Fleet.

(** A tick of an idle vehicle leaves its location, and so its speed, as
    it was: nothing resets the speed of a vehicle that is not driving. *)
Lemma idle_tick_keeps_location (Math : MathLib) (ui now : Q) (v : Vehicle)
    (t : Tape) :
  state (status v) = idle ->
  location (fst (updateVehicle Math ui now v t)) = location v.
Proof.
  intros Hidle.
  destruct (updateVehicle_stages Math ui now v t) as (-> & _).
  by rewrite updateVehicleLocation_idle.
Qed.

Lemma idle_at_Forall (l : list Vehicle) :
  forallb (Sample.idle_at 92) l = true ->
  Forall (fun v =>
            state (status v) = idle
            /\ (speed (location v) == 92)%Q
            /\ ~ (speed (location v) == 0)%Q
            /\ (consumption (fuel v) == 0)%Q) l.
Proof.
  induction l as [|v l IH]; simpl; [by constructor|].
  intros [Hv Hl]%andb_true_iff. constructor; [|by apply IH].
  unfold Sample.idle_at in Hv. destruct (state (status v)); [done|].
  apply andb_true_iff in Hv as [H92%Qeq_bool_iff H0%Qeq_bool_iff].
  split; [done|]. split; [done|]. split; [|done].
  rewrite H92. discriminate.
Qed.

End IdleFacts.

(** C1, on the code.  On the tape of draws 0.9 every vehicle is created
    idle with speed 92, and stays idle through five ticks; on each of the
    five ticks every vehicle reports a fuel consumption of 0 and keeps its
    fuel level, but its speed is still 92, not 0. *)
Theorem idle_vehicle_keeps_speed :
  Forall (fun k =>
            Forall (fun v =>
                      Fleet.state (Fleet.status v) = Fleet.idle
                      /\ (Fleet.speed (Fleet.location v) == 92)%Q
                      /\ ~ (Fleet.speed (Fleet.location v) == 0)%Q
                      /\ (Fleet.consumption (Fleet.fuel v) == 0)%Q)
                   (Fleet.getAllVehicles
                      (Sample.ticks Sample.tape_high k Sample.fleet_idle)))
         [1; 2; 3; 4; 5]%nat
  /\ (Fleet.level <$> (Fleet.fuel <$> Fleet.getAllVehicles
                         (Sample.ticks Sample.tape_high 5 Sample.fleet_idle)))
     = (Fleet.level <$> (Fleet.fuel <$> Fleet.getAllVehicles
                           Sample.fleet_idle)).
Proof.
  split.
  - do 5 (apply Forall_cons_2;
            [apply idle_at_Forall; vm_compute; reflexivity|]).
    apply Forall_nil_2.
  - vm_compute. reflexivity.
Qed.

(** C9.  [getDisplayMetrics] is a function of the vehicle map alone.  For
    the [i]-th vehicle it lists, at positions [4i .. 4i+3], a location, a
    fuel, an engine and a driver metric carrying that vehicle's id; the
    fuel metric is critical below 20 percent, warning from there below 40
    percent and normal otherwise; the engine metric is warning above a
    temperature of 100; the driver metric is warning below a score of 70;
    and one fleet metric follows all of them, warning when fewer than 90
    percent of the vehicles are connected. *)
Theorem metrics_projection (this : Fleet.FleetTelematicsData) :
  let ms := Fleet.getDisplayMetrics this in
  let vs := Fleet.getAllVehicles this in
  length ms = (4 * length vs + 1)%nat
  /\ (forall (i : nat) (v : Fleet.Vehicle),
        vs !! i = Some v ->
        let percent :=
          (Fleet.level (Fleet.fuel v) / Fleet.capacity (Fleet.fuel v)
           * 100)%Q in
        exists m0 m1 m2 m3,
          ms !! (4 * i)%nat = Some m0 /\ ms !! (4 * i + 1)%nat = Some m1
          /\ ms !! (4 * i + 2)%nat = Some m2
          /\ ms !! (4 * i + 3)%nat = Some m3
          /\ Fleet.Metric.type m0 = "location"%string
          /\ Fleet.Metric.type m1 = "fuel"%string
          /\ Fleet.Metric.type m2 = "engine"%string
          /\ Fleet.Metric.type m3 = "driver"%string
          /\ Fleet.Metric.vehicleId m0 = Fleet.id v
          /\ Fleet.Metric.vehicleId m1 = Fleet.id v
          /\ Fleet.Metric.vehicleId m2 = Fleet.id v
          /\ Fleet.Metric.vehicleId m3 = Fleet.id v
          /\ ((percent < 20)%Q ->
              Fleet.Metric.status m1 = "critical"%string)
          /\ ((20 <= percent)%Q -> (percent < 40)%Q ->
              Fleet.Metric.status m1 = "warning"%string)
          /\ ((40 <= percent)%Q ->
              Fleet.Metric.status m1 = "normal"%string)
          /\ ((100 < Fleet.temperature (Fleet.engine v))%Q ->
              Fleet.Metric.status m2 = "warning"%string)
          /\ ((Fleet.temperature (Fleet.engine v) <= 100)%Q ->
              Fleet.Metric.status m2 = "normal"%string)
          /\ ((Fleet.score (Fleet.driver v) < 70)%Q ->
              Fleet.Metric.status m3 = "warning"%string)
          /\ ((70 <= Fleet.score (Fleet.driver v))%Q ->
              Fleet.Metric.status m3 = "normal"%string))
  /\ (exists mf,
        ms !! (4 * length vs)%nat = Some mf
        /\ length ms = S (4 * length vs)
        /\ Fleet.Metric.type mf = "fleet"%string
        /\ Fleet.Metric.vehicleId mf = "FLEET"%string
        /\ let connected_ :=
             Fleet.Q_of_nat
               (length (filter (fun v => Fleet.connected (Fleet.status v)
                                         = true) vs)) in
           let total_ := Fleet.Q_of_nat (length vs) in
           ((connected_ < total_ * 0.9)%Q ->
            Fleet.Metric.status mf = "warning"%string)
           /\ ((total_ * 0.9 <= connected_)%Q ->
               Fleet.Metric.status mf = "normal"%string))
  /\ (forall this2 : Fleet.FleetTelematicsData,
        Fleet.vehicles this2 = Fleet.vehicles this ->
        Fleet.getDisplayMetrics this2 = ms).
Proof.
  cbv zeta.
  assert (Hlen : length (Fleet.getDisplayMetrics this)
                 = (4 * length (Fleet.getAllVehicles this) + 1)%nat).
  { rewrite getDisplayMetrics_length. unfold Fleet.getAllVehicles,
      JS.Map_values. by rewrite length_fmap. }
  split; [exact Hlen|]. split; [|split].
  - intros i v Hv.
    assert (Hat : forall j, (j < 4)%nat ->
              Fleet.getDisplayMetrics this !! (4 * i + j)%nat
              = Fleet.vehicleMetrics v !! j).
    { intros j Hj. unfold Fleet.getDisplayMetrics, JS.push.
      pose proof (lookup_lt_Some _ _ _ Hv) as Hi.
      rewrite lookup_app_l by (rewrite vehicleMetrics_length; lia).
      by apply vehicleMetrics_lookup. }
    pose proof (Hat 0%nat ltac:(lia)) as H0. rewrite Nat.add_0_r in H0.
    pose proof (Hat 1%nat ltac:(lia)) as H1.
    pose proof (Hat 2%nat ltac:(lia)) as H2.
    pose proof (Hat 3%nat ltac:(lia)) as H3.
    unfold Fleet.vehicleMetrics in H0, H1, H2, H3. cbv zeta in *.
    simpl lookup in H0, H1, H2, H3.
    eexists _, _, _, _.
    split; [exact H0|]. split; [exact H1|]. split; [exact H2|].
    split; [exact H3|]. simpl.
    split_and!; try reflexivity.
    + intros Hlt%ltb_true. by rewrite Hlt.
    + intros Hge%ltb_false Hlt%ltb_true. by rewrite Hge, Hlt.
    + intros Hge. assert (Hge' : (20 <= Fleet.level (Fleet.fuel v)
                                  / Fleet.capacity (Fleet.fuel v) * 100)%Q)
        by lra.
      apply ltb_false in Hge, Hge'. by rewrite Hge, Hge'.
    + intros Hgt%ltb_true. unfold JS.gtb. by rewrite Hgt.
    + intros Hle%ltb_false. unfold JS.gtb. by rewrite Hle.
    + intros Hlt%ltb_true. by rewrite Hlt.
    + intros Hge%ltb_false. by rewrite Hge.
  - eexists. split; [|split; [lia|]].
    { unfold Fleet.getDisplayMetrics, JS.push.
      rewrite lookup_app_r by (rewrite vehicleMetrics_length; lia).
      rewrite vehicleMetrics_length, Nat.sub_diag. reflexivity. }
    simpl. split; [done|]. split; [done|]. split.
    + intros Hlt%ltb_true. by rewrite Hlt.
    + intros Hge%ltb_false. by rewrite Hge.
  - intros this2 Hsame.
    unfold Fleet.getDisplayMetrics, Fleet.getFleetSummary,
      Fleet.getAllVehicles. by rewrite Hsame.
Qed.

Lemma metrics_projection_witness :
  exists m1,
    Fleet.getDisplayMetrics Sample.fleet0 !! 1%nat = Some m1
    /\ Fleet.Metric.type m1 = "fuel"%string
    /\ Fleet.Metric.status m1 = "normal"%string.
Proof.
  destruct (proj1 (proj2 (metrics_projection Sample.fleet0))
              0%nat Sample.vehicle0)
    as (m0 & m1 & m2 & m3 & _ & H1 & _ & _ & _ & T1 & _ & _ & _ & _ & _
        & _ & _ & _ & Hnormal & _).
  { vm_compute. reflexivity. }
  exists m1. split; [exact H1|]. split; [exact T1|].
  apply Hnormal. vm_compute. discriminate.
Defined.

Section FrameFacts.

Import Overlay System.
Local Open Scope R_scope.

Lemma Rgtb_true (a b : R) : Rgtb a b = true <-> a > b.
Proof. unfold Rgtb. destruct (Rgt_dec a b); split; try done; lra. Qed.

Lemma Rgtb_false (a b : R) : Rgtb a b = false <-> a <= b.
Proof. unfold Rgtb. destruct (Rgt_dec a b); split; try done; lra. Qed.

Lemma Rltb_true (a b : R) : Rltb a b = true <-> a < b.
Proof. unfold Rltb. destruct (Rlt_dec a b); split; try done; lra. Qed.

Lemma Rltb_false (a b : R) : Rltb a b = false <-> b <= a.
Proof. unfold Rltb. destruct (Rlt_dec a b); split; try done; lra. Qed.

Lemma Rleb_true (a b : R) : Rleb a b = true <-> a <= b.
Proof. unfold Rleb. destruct (Rle_dec a b); split; try done; lra. Qed.

Lemma Rleb_false (a b : R) : Rleb a b = false <-> b < a.
Proof. unfold Rleb. destruct (Rle_dec a b); split; try done; lra. Qed.

(** Inside the depth range the code's alpha has no clamp from below. *)
Lemma finalAlpha_of_in_range (life_ depth : R) :
  depth <= 1 -> finalAlpha_of life_ depth = sin (life_ * PI) * (1 - depth) * 0.9.
Proof.
  intros H. unfold finalAlpha_of. apply Rgtb_false in H. by rewrite H.
Qed.

Lemma spec_alpha_nonneg_depth (life_ depth : R) :
  0 <= depth <= 1 ->
  spec_alpha life_ depth = sin (life_ * PI) * (1 - depth) * 0.9.
Proof.
  intros [H0 H1]. unfold spec_alpha, clamp.
  rewrite Rmin_right by lra. by rewrite Rmax_right by lra.
Qed.

Lemma spec_alpha_negative_depth (life_ depth : R) :
  depth <= 0 -> spec_alpha life_ depth = sin (life_ * PI) * 0.9.
Proof.
  intros H. unfold spec_alpha, clamp.
  rewrite Rmin_right by lra. rewrite Rmax_left by lra. lra.
Qed.

Lemma sin_half_PI : sin (1 / 2 * PI) = 1.
Proof. replace (1 / 2 * PI) with (PI / 2) by lra. apply sin_PI2. Qed.

(** What one frame does to one member. *)
Lemma updateCritical_obj_visibility {Camera : Type}
    (project : Camera -> Vector3 -> Vector3) (culling : bool)
    (flow time : R) (cam : Camera) (w h : R) (index : nat)
    (o : PooledObject) :
  visible_sync o ->
  let depth :=
    z (project cam (flowPosition flow time index (userData (mesh o)))) in
  let alpha := sin (life (userData (mesh o)) * PI) * (1 - depth) * 0.9 in
  let o' := updateCritical_obj project culling flow time cam w h index o in
  isActive o' = isActive o
  /\ innerHTML (element o') = innerHTML (element o)
  /\ (culling = true -> depth > 1 \/ depth < -1 ->
      display (element o') = display_none
      /\ isVisible (userData (mesh o')) = false)
  /\ (-1 <= depth <= 1 ->
      (alpha > 0.1 ->
       display (element o') = display_block
       /\ isVisible (userData (mesh o')) = true
       /\ opacity (element o') = alpha)
      /\ (alpha <= 0.1 ->
          display (element o') = display_none
          /\ isVisible (userData (mesh o')) = false)).
Proof.
  intros Hsync. cbv zeta. unfold updateCritical_obj. cbv zeta.
  set (depth := z (project cam _)).
  unfold visible_sync in Hsync.
  destruct (culling && (Rgtb depth 1 || Rltb depth (-1))) eqn:Hcull.
  - apply andb_true_iff in Hcull as [-> Hout].
    apply orb_true_iff in Hout as [Hout%Rgtb_true|Hout%Rltb_true];
      (destruct (isVisible (userData (mesh o))) eqn:Hv; simpl;
       (split; [done|]); (split; [done|]);
       (split; [intros _ _; try rewrite Hv; by split|]);
       intros [? ?]; lra).
  - assert (Hin : culling = true -> -1 <= depth <= 1).
    { intros ->. simpl in Hcull.
      apply orb_false_iff in Hcull as [H1%Rgtb_false H2%Rltb_false]. lra. }
    simpl. split; [done|]. split; [done|]. split.
    { intros Hc [?|?]; specialize (Hin Hc); lra. }
    intros [Hlo Hhi]. rewrite finalAlpha_of_in_range by done.
    set (alpha := sin (life (userData (mesh o)) * PI) * (1 - depth) * 0.9).
    split.
    + intros Hgt. pose proof Hgt as Hgt'%Rgtb_true. rewrite Hgt'.
      assert (Hle' : Rleb alpha 0.1 = false) by (apply Rleb_false; lra).
      rewrite Hle'. simpl.
      destruct (isVisible (userData (mesh o))); simpl; by rewrite ?Hsync.
    + intros Hle. pose proof Hle as Hle'%Rleb_true. rewrite Hle'.
      assert (Hgt' : Rgtb alpha 0.1 = false) by (apply Rgtb_false; lra).
      rewrite Hgt'. simpl.
      destruct (isVisible (userData (mesh o))); simpl; by rewrite ?Hsync.
Qed.

End FrameFacts.

(** C2, as the claim states it, fails: a member with life phase one half
    projected to normalized depth -0.5 is given opacity
    [1 * (1 - (-0.5)) * 0.9 = 1.35], while the claimed formula clamps the
    depth to 0 and gives 0.9. *)
Lemma alpha_negative_depth_counterexample :
  let o' :=
    Overlay.updateCritical_obj Sample.project_near true
      (Overlay.flowStrength_of None) 0 () 800 600 0 Sample.member0 in
  Overlay.life (Overlay.userData (Overlay.mesh Sample.member0)) = (1 / 2)%R
  /\ Overlay.isActive o' = true
  /\ Overlay.opacity (Overlay.element o') = 1.35%R
  /\ System.spec_alpha (1 / 2) (- (1 / 2)) = 0.9%R
  /\ Overlay.opacity (Overlay.element o')
     <> System.spec_alpha
          (Overlay.life (Overlay.userData (Overlay.mesh Sample.member0)))
          (- (1 / 2)).
Proof.
  cbv zeta.
  assert (Hspec : System.spec_alpha (1 / 2) (- (1 / 2)) = 0.9%R).
  { rewrite spec_alpha_negative_depth by lra. rewrite sin_half_PI. lra. }
  assert (Hsync : System.visible_sync Sample.member0) by reflexivity.
  destruct (updateCritical_obj_visibility Sample.project_near true
              (Overlay.flowStrength_of None) 0%R () 800%R 600%R 0%nat
              Sample.member0 Hsync) as (Hact & _ & _ & Hin).
  cbv zeta in Hin. simpl in Hin.
  destruct (Hin ltac:(lra)) as [Hshow _].
  unfold Sample.draws_half in Hshow. rewrite sin_half_PI in Hshow.
  destruct (Hshow ltac:(lra)) as (_ & _ & Hop).
  split; [reflexivity|]. split; [exact Hact|]. split; [rewrite Hop; lra|].
  split; [exact Hspec|].
  change (Overlay.life (Overlay.userData (Overlay.mesh Sample.member0)))
    with (1 / 2)%R.
  rewrite Hspec, Hop. lra.
Qed.

(** C2, amended.  On every reachable instance, a frame's critical pass
    keeps both membership lists and, for the member at any position of
    [activeElements], its [isActive] flag and its content.  With [depth]
    the projected normalized depth of its anchor: outside [[-1, 1]] the
    member is hidden; inside, the alpha is
    [sin(life * pi) * (1 - depth) * 0.9], the member is shown with that
    opacity when the alpha exceeds 0.1 and hidden when it does not.  That
    alpha is the claimed clamped formula where the depth is not
    negative. *)
Theorem frame_visibility {Camera : Type}
    (project : Camera -> Overlay.Vector3 -> Overlay.Vector3)
    (navigator : Overlay.Navigator) (ctx : Overlay.FrameContext)
    (time : R) (cam : Camera) (this : Overlay.t) (index obj : nat) :
  System.reachable navigator this ->
  Overlay.activeElements this !! index = Some obj ->
  let this' := Overlay.updateCritical project ctx time cam this in
  Overlay.activeElements this' = Overlay.activeElements this
  /\ Overlay.inactiveElements this' = Overlay.inactiveElements this
  /\ exists o o',
       Overlay.textElementPool this !! obj = Some o
       /\ Overlay.textElementPool this' !! obj = Some o'
       /\ Overlay.isActive o = true /\ Overlay.isActive o' = true
       /\ Overlay.innerHTML (Overlay.element o')
          = Overlay.innerHTML (Overlay.element o)
       /\ let depth :=
            Overlay.z
              (project cam
                 (Overlay.flowPosition
                    (Overlay.flowStrength_of (Overlay.synthLoop ctx))
                    time index (Overlay.userData (Overlay.mesh o)))) in
          let alpha :=
            (sin (Overlay.life (Overlay.userData (Overlay.mesh o)) * PI)
             * (1 - depth) * 0.9)%R in
          ((depth > 1 \/ depth < -1)%R ->
           Overlay.display (Overlay.element o') = Overlay.display_none
           /\ Overlay.isVisible (Overlay.userData (Overlay.mesh o')) = false)
          /\ ((-1 <= depth <= 1)%R ->
              ((alpha > 0.1)%R ->
               Overlay.display (Overlay.element o') = Overlay.display_block
               /\ Overlay.isVisible (Overlay.userData (Overlay.mesh o'))
                  = true
               /\ Overlay.opacity (Overlay.element o') = alpha)
              /\ ((alpha <= 0.1)%R ->
                  Overlay.display (Overlay.element o') = Overlay.display_none
                  /\ Overlay.isVisible (Overlay.userData (Overlay.mesh o'))
                     = false))
          /\ ((0 <= depth <= 1)%R ->
              alpha
              = System.spec_alpha
                  (Overlay.life (Overlay.userData (Overlay.mesh o))) depth).
Proof.
  intros Hreach Hidx. cbv zeta.
  apply reachable_inv in Hreach as (Hwf & _ & Hcull & _ & Hsync & _).
  split; [done|]. split; [done|].
  assert (Hobj : obj ∈ Overlay.activeElements this)
    by by apply list_elem_of_lookup_2 in Hidx.
  destruct (pool_wf_lookup this obj Hwf Hobj) as (o & Ho & Hact).
  assert (Hnd : NoDup (Overlay.activeElements this)).
  { destruct Hwf as (_ & Hnd & _). by apply NoDup_app in Hnd as (? & _). }
  assert (Hso : System.visible_sync o).
  { unfold System.sync_all in Hsync.
    by apply (proj1 (Forall_lookup _ _) Hsync obj o). }
  exists o. eexists. split; [exact Ho|]. split.
  { unfold Overlay.updateCritical. simpl.
    rewrite (forEach_lookup_in _ _ 0 _ index obj Hnd Hidx), Ho.
    reflexivity. }
  simpl. rewrite Hcull.
  destruct (updateCritical_obj_visibility project true
              (Overlay.flowStrength_of (Overlay.synthLoop ctx)) time cam
              (Overlay.width ctx) (Overlay.height ctx) index o Hso)
    as (Hact' & Hcontent & Hout & Hin).
  cbv zeta in Hout, Hin.
  split; [done|]. split; [by rewrite Hact'|]. split; [exact Hcontent|].
  split; [by apply Hout|]. split; [exact Hin|].
  intros Hrange. by rewrite spec_alpha_nonneg_depth.
Qed.

Lemma frame_visibility_witness :
  Overlay.activeElements
    (Overlay.updateCritical Sample.project_near Sample.frame0 0 ()
       Sample.overlay1)
  = Overlay.activeElements Sample.overlay1.
Proof.
  refine (proj1 (frame_visibility Sample.project_near Sample.desktop
                   Sample.frame0 0%R () Sample.overlay1 0%nat 31%nat _ _)).
  - apply (System.reachable_step Sample.desktop Sample.overlay0);
      [apply overlay0_reachable|apply System.step_acquire].
  - vm_compute. reflexivity.
Defined.

(* ===================================================================== *)
(** * Further properties: the overlay *)
(* ===================================================================== *)

Section StringFacts.

Import Overlay.

Lemma prefix_app (p b : string) : String.prefix p (p +:+ b) = true.
Proof.
  induction p as [|c p IH]; simpl; [by destruct b|].
  destruct (ascii_dec c c); [exact IH|congruence].
Qed.

Lemma contains_here (sub s : string) :
  String.prefix sub s = true -> contains sub s = true.
Proof. intros H. destruct s; cbn [contains]; by rewrite H. Qed.

Lemma contains_app (a sub b : string) :
  contains sub (a +:+ (sub +:+ b)) = true.
Proof.
  induction a as [|c a IH].
  - exact (contains_here sub (sub +:+ b) (prefix_app sub b)).
  - change (contains sub (String c a +:+ (sub +:+ b)))
      with (String.prefix sub (String c (a +:+ (sub +:+ b)))
            || contains sub (a +:+ (sub +:+ b))).
    rewrite IH. apply orb_true_r.
Qed.

Lemma lowercase_app (a b : string) :
  lowercase (a +:+ b) = lowercase a +:+ lowercase b.
Proof. induction a as [|c a IH]; simpl; [done|]. by rewrite IH. Qed.

Lemma prefix_split (p s : string) :
  String.prefix p s = true -> exists b, s = p +:+ b.
Proof.
  revert p. induction s as [|c s IH]; intros [|d p]; simpl; try done.
  - by exists ""%string.
  - intros _. by exists (String c s).
  - destruct (ascii_dec d c) as [->|]; [|done].
    intros [b ->]%IH. by exists b.
Qed.

Lemma contains_split (sub s : string) :
  contains sub s = true -> exists a b, s = a +:+ (sub +:+ b).
Proof.
  induction s as [|c s IH]; cbn [contains].
  - rewrite orb_false_r. intros [b Hb]%prefix_split.
    by exists ""%string, b.
  - intros [Hp|Hc]%orb_true_iff.
    + apply prefix_split in Hp as [b Hb]. by exists ""%string, b.
    + destruct (IH Hc) as (a & b & ->). by exists (String c a), b.
Qed.

(** A split of the lowered string is the lowering of a split. *)
Lemma lowercase_split (s x y : string) :
  lowercase s = x +:+ y ->
  exists u v, s = u +:+ v /\ lowercase u = x /\ lowercase v = y.
Proof.
  revert s. induction x as [|c x IH]; intros s Hs.
  - by exists ""%string, s.
  - destruct s as [|d s]; [done|]. simpl in Hs. injection Hs as Hc Hs.
    destruct (IH s Hs) as (u & v & -> & Hu & Hv).
    exists (String d u), v. simpl. by rewrite Hc, Hu.
Qed.

(** The device test answers yes exactly when one of the mobile names
    occurs in the user agent, in any letter case. *)
Lemma isMobile_test_spec (ua : string) :
  isMobile_test ua = true
  <-> exists name a s b,
        name ∈ mobile_names /\ lowercase s = lowercase name
        /\ ua = a +:+ (s +:+ b).
Proof.
  unfold isMobile_test. rewrite existsb_exists. split.
  - intros (name & Hname%list_elem_of_In & Hc).
    apply contains_split in Hc as (a' & b' & Hc).
    apply lowercase_split in Hc as (a & r & -> & _ & Hr).
    apply lowercase_split in Hr as (t & b & -> & Ht & _).
    by exists name, a, t, b.
  - intros (name & a & t & b & Hname & Ht & ->).
    exists name. split; [by apply list_elem_of_In|].
    rewrite !lowercase_app, Ht. apply contains_app.
Qed.

End StringFacts.

Section MoreOverlayFacts.

Import Overlay System.

Lemma createObjectPool_loop_governor draws idxs this :
  frameCount (createObjectPool_loop draws idxs this) = frameCount this
  /\ lastFPSCheck (createObjectPool_loop draws idxs this)
     = lastFPSCheck this.
Proof.
  revert this. induction idxs as [|i idxs IH]; intros this; [by split|].
  change (createObjectPool_loop draws (i :: idxs) this)
    with (createObjectPool_loop draws idxs
            (with_pool this
               (JS.push (textElementPool this) (newPooledObject draws i))
               (activeElements this)
               (JS.push (inactiveElements this)
                  (length (textElementPool this))))).
  destruct (IH (with_pool this
                  (JS.push (textElementPool this) (newPooledObject draws i))
                  (activeElements this)
                  (JS.push (inactiveElements this)
                     (length (textElementPool this))))) as [-> ->].
  by split.
Qed.

Lemma createObjectPool_governor draws this :
  frameCount (createObjectPool draws this) = frameCount this
  /\ lastFPSCheck (createObjectPool draws this) = lastFPSCheck this.
Proof. apply createObjectPool_loop_governor. Qed.

Lemma constructor_fields navigator fleet draws perfNow now :
  let this := constructor navigator fleet draws perfNow now in
  activeElements this = [] /\ frameCount this = 0%nat
  /\ lastFPSCheck this = perfNow
  /\ textCount (settings this) = getOptimalTextCount navigator.
Proof.
  cbv zeta. unfold constructor.
  set (this0 := {| settings := _ |}).
  destruct (createObjectPool_inv draws this0 eq_refl eq_refl eq_refl)
    as (_ & _ & Ha & Hs & _).
  destruct (createObjectPool_governor draws this0) as [Hf Hl].
  set (this1 := createObjectPool draws this0) in *. clearbody this1.
  unfold updateTextContent. cbn [activeElements frameCount lastFPSCheck
    settings with_pool with_currentMetrics].
  rewrite Ha, Hf, Hl, Hs. split; [reflexivity|]. split; [reflexivity|].
  split; reflexivity.
Qed.

Lemma update_no_active {Camera} (project : Camera -> Vector3 -> Vector3)
    ctx this :
  activeElements this = [] -> update project ctx this = this.
Proof. intros H. unfold update. by rewrite H. Qed.

Lemma updates_no_active {Camera} (project : Camera -> Vector3 -> Vector3)
    (ctxs : list FrameContext) this :
  activeElements this = [] ->
  foldl (fun s ctx => update project ctx s) this ctxs = this.
Proof.
  intros H. induction ctxs as [|ctx ctxs IH]; simpl; [done|].
  by rewrite update_no_active.
Qed.

Lemma measureFPS_no_frames (deltaTime : Q) :
  (0 < deltaTime)%Q -> measureFPS 0 deltaTime = Finite 0.
Proof.
  intros Hpos. rewrite measureFPS_positive by done. f_equal.
  unfold JS.Math_round.
  assert (H : (1000 * Fleet.Q_of_nat 0 / deltaTime + 0.5 == 0.5)%Q).
  { unfold Fleet.Q_of_nat. simpl. field. lra. }
  rewrite H. reflexivity.
Qed.

End MoreOverlayFacts.

(** X1.  The constructor leaves no member active, and [update()] returns
    at once when no member is active: on a freshly constructed instance
    any number of frames changes nothing and counts no frame, so the next
    [checkPerformance] measures 0 frames per second and lowers
    [textCount] by 2, not below 8. *)
Theorem fresh_instance_counts_no_frames {Camera : Type}
    (project : Camera -> Overlay.Vector3 -> Overlay.Vector3)
    (navigator : Overlay.Navigator) (fleet : Fleet.FleetTelematicsData)
    (draws : nat -> R) (perfNow now later : Q)
    (frames : list Overlay.FrameContext) :
  (perfNow < later)%Q ->
  let this := Overlay.constructor navigator fleet draws perfNow now in
  let this' := foldl (fun s ctx => Overlay.update project ctx s) this frames in
  this' = this
  /\ Overlay.frameCount this' = 0%nat
  /\ Overlay.currentFPS (Overlay.checkPerformance navigator later this')
     = Overlay.Finite 0
  /\ Overlay.textCount
       (Overlay.settings (Overlay.checkPerformance navigator later this'))
     = Z.max 8 (Overlay.getOptimalTextCount navigator - 2).
Proof.
  intros Hlater. cbv zeta.
  destruct (constructor_fields navigator fleet draws perfNow now)
    as (Ha & Hfc & Hl & Htc).
  rewrite updates_no_active by exact Ha.
  set (this := Overlay.constructor navigator fleet draws perfNow now) in *.
  clearbody this.
  assert (Hfps : Overlay.currentFPS (Overlay.checkPerformance navigator later this)
                 = Overlay.Finite 0).
  { unfold Overlay.checkPerformance. simpl. rewrite Hfc, Hl.
    apply measureFPS_no_frames. lra. }
  split; [done|]. split; [done|]. split; [exact Hfps|].
  destruct (checkPerformance_rule navigator later this 0 Hfps) as (Hlow & _).
  cbv zeta in Hlow. rewrite Hlow, Htc; [done|lia|].
  rewrite Htc. pose proof (getOptimalTextCount_range navigator). lia.
Qed.

Lemma fresh_instance_counts_no_frames_witness :
  Overlay.textCount
    (Overlay.settings
       (Overlay.checkPerformance Sample.desktop 5000
          (foldl (fun s ctx => Overlay.update Sample.project_near ctx s)
             Sample.overlay0 [Sample.frame0; Sample.frame0])))
  = Z.max 8 (Overlay.getOptimalTextCount Sample.desktop - 2).
Proof.
  apply (fresh_instance_counts_no_frames Sample.project_near Sample.desktop
           Sample.fleet0 Sample.draws_half 0 0 5000
           [Sample.frame0; Sample.frame0]).
  reflexivity.
Defined.

(** X2.  [getOptimalTextCount] returns 12 when one of the mobile names
    occurs somewhere in the user agent in any letter case, whatever the
    core count.  When none of them occurs anywhere in it, it returns 16
    for at most 4 reported cores and 24 for more than 4 cores or no
    report. *)
Theorem optimal_text_count_by_device (navigator : Overlay.Navigator) :
  let occurs :=
    exists name a s b : string,
      name ∈ Overlay.mobile_names
      /\ Overlay.lowercase s = Overlay.lowercase name
      /\ Overlay.userAgent navigator = a +:+ (s +:+ b) in
  (occurs -> Overlay.getOptimalTextCount navigator = 12%Z)
  /\ (~ occurs ->
      (forall n, Overlay.hardwareConcurrency navigator = Some n ->
                 (n <= 4)%Z -> Overlay.getOptimalTextCount navigator = 16%Z)
      /\ (forall n, Overlay.hardwareConcurrency navigator = Some n ->
                    (4 < n)%Z -> Overlay.getOptimalTextCount navigator = 24%Z)
      /\ (Overlay.hardwareConcurrency navigator = None ->
          Overlay.getOptimalTextCount navigator = 24%Z)).
Proof.
  cbv zeta. unfold Overlay.getOptimalTextCount. split.
  - intros Hocc. apply isMobile_test_spec in Hocc. by rewrite Hocc.
  - intros Hnone.
    assert (Hm : Overlay.isMobile_test (Overlay.userAgent navigator) = false).
    { destruct (Overlay.isMobile_test (Overlay.userAgent navigator)) eqn:Hm;
        [|done].
      destruct Hnone. by apply isMobile_test_spec. }
    rewrite Hm. split; [|split].
    + intros n -> Hn. by rewrite (proj2 (Z.leb_le n 4) Hn).
    + intros n -> Hn. by rewrite (proj2 (Z.leb_gt n 4) Hn).
    + by intros ->.
Qed.

Lemma optimal_text_count_by_device_witness :
  Overlay.getOptimalTextCount
    {| Overlay.userAgent := "Mozilla/5.0 (IPHONE; CPU OS 16_0)";
       Overlay.hardwareConcurrency := Some 8%Z |} = 12%Z
  /\ Overlay.getOptimalTextCount Sample.desktop = 24%Z
  /\ Overlay.getOptimalTextCount
       {| Overlay.userAgent := "Mozilla/5.0 (X11; Linux x86_64)";
          Overlay.hardwareConcurrency := Some 4%Z |} = 16%Z.
Proof.
  assert (Hdesk : ~ exists name a s b : string,
            name ∈ Overlay.mobile_names
            /\ Overlay.lowercase s = Overlay.lowercase name
            /\ "Mozilla/5.0 (X11; Linux x86_64)"%string = a +:+ (s +:+ b)).
  { intros Hocc%isMobile_test_spec. vm_compute in Hocc. discriminate. }
  split; [|split].
  - apply (proj1 (optimal_text_count_by_device _)).
    exists "iPhone"%string, "Mozilla/5.0 ("%string, "IPHONE"%string,
      "; CPU OS 16_0)"%string.
    split; [vm_compute; repeat constructor|]. by split.
  - destruct (proj2 (optimal_text_count_by_device Sample.desktop) Hdesk)
      as (_ & H24 & _).
    apply (H24 8%Z); [reflexivity|lia].
  - destruct (proj2 (optimal_text_count_by_device
                       {| Overlay.userAgent :=
                            "Mozilla/5.0 (X11; Linux x86_64)";
                          Overlay.hardwareConcurrency := Some 4%Z |}) Hdesk)
      as (H16 & _).
    apply (H16 4%Z); [reflexivity|lia].
Defined.

Section MoreFrameFacts.

Import Overlay System.
Local Open Scope R_scope.

(** What the critical pass stores for the member at a position of
    [activeElements]: the callback's result on the object stored before. *)
Lemma updateCritical_lookup {Camera : Type}
    (project : Camera -> Vector3 -> Vector3) navigator ctx time cam this
    (index obj : nat) :
  reachable navigator this ->
  activeElements this !! index = Some obj ->
  exists o,
    textElementPool this !! obj = Some o
    /\ isActive o = true /\ visible_sync o
    /\ textElementPool (updateCritical project ctx time cam this) !! obj
       = Some (updateCritical_obj project true
                 (flowStrength_of (synthLoop ctx)) time cam
                 (width ctx) (height ctx) index o).
Proof.
  intros Hreach Hidx.
  apply reachable_inv in Hreach as (Hwf & _ & Hcull & _ & Hsync & _).
  assert (Hobj : obj ∈ activeElements this)
    by by apply list_elem_of_lookup_2 in Hidx.
  destruct (pool_wf_lookup this obj Hwf Hobj) as (o & Ho & Hact).
  assert (Hnd : NoDup (activeElements this)).
  { destruct Hwf as (_ & Hnd & _). by apply NoDup_app in Hnd as (? & _). }
  exists o. split; [done|]. split; [done|]. split.
  { by apply (proj1 (Forall_lookup _ _) Hsync obj o). }
  unfold updateCritical. simpl.
  rewrite (forEach_lookup_in _ _ 0 _ index obj Hnd Hidx), Ho, Hcull.
  reflexivity.
Qed.

Lemma updateCritical_obj_position {Camera : Type}
    (project : Camera -> Vector3 -> Vector3) culling flow time cam w h
    index o :
  let o' := updateCritical_obj project culling flow time cam w h index o in
  position (mesh o') = flowPosition flow time index (userData (mesh o))
  /\ originalPosition (userData (mesh o'))
     = originalPosition (userData (mesh o)).
Proof.
  cbv zeta. unfold updateCritical_obj. cbv zeta.
  destruct (culling && _); [by destruct (isVisible _)|done].
Qed.

Lemma noise_bound (n flow : R) :
  -1 <= n <= 1 -> Rabs (n * 0.02 * flow) <= 0.02 * Rabs flow.
Proof.
  intros Hn. rewrite !Rabs_mult.
  assert (Rabs n <= 1) by (apply Rabs_le; lra).
  rewrite (Rabs_right 0.02) by lra.
  pose proof (Rabs_pos flow). nra.
Qed.

End MoreFrameFacts.

(** X3.  After a frame's critical pass the anchor of every active member
    lies, on each axis, within [0.02 * |flowStrength|] of its fixed
    origin, and the origin itself is never moved. *)
Theorem anchor_stays_near_origin {Camera : Type}
    (project : Camera -> Overlay.Vector3 -> Overlay.Vector3)
    (navigator : Overlay.Navigator) (ctx : Overlay.FrameContext)
    (time : R) (cam : Camera) (this : Overlay.t) (index obj : nat) :
  System.reachable navigator this ->
  Overlay.activeElements this !! index = Some obj ->
  exists o o',
    Overlay.textElementPool this !! obj = Some o
    /\ Overlay.textElementPool
         (Overlay.updateCritical project ctx time cam this) !! obj = Some o'
    /\ let origin := Overlay.originalPosition (Overlay.userData (Overlay.mesh o)) in
       let p := Overlay.position (Overlay.mesh o') in
       let reach :=
         (0.02 * Rabs (Overlay.flowStrength_of (Overlay.synthLoop ctx)))%R in
       Overlay.originalPosition (Overlay.userData (Overlay.mesh o')) = origin
       /\ (Rabs (Overlay.x p - Overlay.x origin) <= reach)%R
       /\ (Rabs (Overlay.y p - Overlay.y origin) <= reach)%R
       /\ (Rabs (Overlay.z p - Overlay.z origin) <= reach)%R.
Proof.
  intros Hreach Hidx.
  destruct (updateCritical_lookup project navigator ctx time cam this
              index obj Hreach Hidx) as (o & Ho & _ & _ & Ho').
  exists o. eexists. split; [exact Ho|]. split; [exact Ho'|].
  cbv zeta.
  destruct (updateCritical_obj_position project true
              (Overlay.flowStrength_of (Overlay.synthLoop ctx)) time cam
              (Overlay.width ctx) (Overlay.height ctx) index o) as [-> ->].
  split; [done|]. unfold Overlay.flowPosition. simpl.
  split; [|split].
  - match goal with |- (Rabs ?e <= _)%R =>
      replace e with (sin (time * 0.5 + INR index * 0.1) * 0.02
                      * Overlay.flowStrength_of (Overlay.synthLoop ctx))%R
        by ring end.
    apply noise_bound, SIN_bound.
  - match goal with |- (Rabs ?e <= _)%R =>
      replace e with (cos (time * 0.3 + INR index * 0.15) * 0.02
                      * Overlay.flowStrength_of (Overlay.synthLoop ctx))%R
        by ring end.
    apply noise_bound, COS_bound.
  - match goal with |- (Rabs ?e <= _)%R =>
      replace e with (sin (time * 0.7 + INR index * 0.2) * 0.02
                      * Overlay.flowStrength_of (Overlay.synthLoop ctx))%R
        by ring end.
    apply noise_bound, SIN_bound.
Qed.

Lemma anchor_stays_near_origin_witness :
  exists o o',
    Overlay.textElementPool Sample.overlay1 !! 31%nat = Some o
    /\ Overlay.textElementPool
         (Overlay.updateCritical Sample.project_near Sample.frame0 0 ()
            Sample.overlay1) !! 31%nat = Some o'
    /\ Overlay.originalPosition (Overlay.userData (Overlay.mesh o'))
       = Overlay.originalPosition (Overlay.userData (Overlay.mesh o)).
Proof.
  destruct (anchor_stays_near_origin Sample.project_near Sample.desktop
              Sample.frame0 0%R () Sample.overlay1 0%nat 31%nat)
    as (o & o' & Ho & Ho' & Horigin & _).
  - apply (System.reachable_step Sample.desktop Sample.overlay0);
      [apply overlay0_reachable|apply System.step_acquire].
  - vm_compute. reflexivity.
  - exists o, o'. split; [exact Ho|]. split; [exact Ho'|exact Horigin].
Defined.

Section ScreenFacts.

Import Overlay System.
Local Open Scope R_scope.

Lemma updateCritical_obj_transform {Camera : Type}
    (project : Camera -> Vector3 -> Vector3) flow time cam w h index o :
  let wp := project cam (flowPosition flow time index (userData (mesh o))) in
  let o' := updateCritical_obj project true flow time cam w h index o in
  (z wp > 1 \/ z wp < -1 -> transform (element o') = transform (element o))
  /\ (-1 <= z wp <= 1 ->
      transform (element o')
      = Some ((x wp * 0.5 + 0.5) * w, (- y wp * 0.5 + 0.5) * h)).
Proof.
  cbv zeta. unfold updateCritical_obj. cbv zeta.
  set (wp := project cam _).
  destruct (Rgtb (z wp) 1 || Rltb (z wp) (-1)) eqn:Hcull; simpl.
  - split; [intros _; by destruct (isVisible _)|].
    apply orb_true_iff in Hcull as [H%Rgtb_true|H%Rltb_true]; intros ?; lra.
  - split; [|done].
    apply orb_false_iff in Hcull as [H1%Rgtb_false H2%Rltb_false].
    intros [?|?]; lra.
Qed.

Lemma overlay1_reachable : reachable Sample.desktop Sample.overlay1.
Proof.
  apply (reachable_step Sample.desktop Sample.overlay0);
    [apply overlay0_reachable|apply step_acquire].
Qed.

End ScreenFacts.

(** X4.  A frame's critical pass writes the screen position of an active
    member whose projected depth is in [[-1, 1]] as
    [((x/2 + 1/2) * width, (-y/2 + 1/2) * height)] of its normalized
    coordinates, so a point with [x] and [y] in [[-1, 1]] lands inside
    the viewport, with the vertical axis flipped; a member culled by
    depth keeps the position written before. *)
Theorem screen_position_in_viewport {Camera : Type}
    (project : Camera -> Overlay.Vector3 -> Overlay.Vector3)
    (navigator : Overlay.Navigator) (ctx : Overlay.FrameContext)
    (time : R) (cam : Camera) (this : Overlay.t) (index obj : nat) :
  System.reachable navigator this ->
  Overlay.activeElements this !! index = Some obj ->
  exists o o',
    Overlay.textElementPool this !! obj = Some o
    /\ Overlay.textElementPool
         (Overlay.updateCritical project ctx time cam this) !! obj = Some o'
    /\ let ndc :=
         project cam
           (Overlay.flowPosition
              (Overlay.flowStrength_of (Overlay.synthLoop ctx)) time index
              (Overlay.userData (Overlay.mesh o))) in
       let w := Overlay.width ctx in
       let h := Overlay.height ctx in
       ((Overlay.z ndc > 1 \/ Overlay.z ndc < -1)%R ->
        Overlay.transform (Overlay.element o')
        = Overlay.transform (Overlay.element o))
       /\ ((-1 <= Overlay.z ndc <= 1)%R ->
           exists sx sy,
             Overlay.transform (Overlay.element o') = Some (sx, sy)
             /\ sx = ((Overlay.x ndc * 0.5 + 0.5) * w)%R
             /\ sy = ((- Overlay.y ndc * 0.5 + 0.5) * h)%R
             /\ ((-1 <= Overlay.x ndc <= 1)%R -> (0 <= w)%R ->
                 (0 <= sx <= w)%R)
             /\ ((-1 <= Overlay.y ndc <= 1)%R -> (0 <= h)%R ->
                 (0 <= sy <= h)%R)
             /\ (Overlay.y ndc = 1%R -> sy = 0%R)
             /\ (Overlay.y ndc = (-1)%R -> sy = h)).
Proof.
  intros Hreach Hidx.
  destruct (updateCritical_lookup project navigator ctx time cam this
              index obj Hreach Hidx) as (o & Ho & _ & _ & Ho').
  exists o. eexists. split; [exact Ho|]. split; [exact Ho'|].
  cbv zeta.
  destruct (updateCritical_obj_transform project
              (Overlay.flowStrength_of (Overlay.synthLoop ctx)) time cam
              (Overlay.width ctx) (Overlay.height ctx) index o)
    as [Hout Hin].
  cbv zeta in Hout, Hin. split; [exact Hout|].
  intros Hz. eexists _, _. split; [exact (Hin Hz)|].
  split; [reflexivity|]. split; [reflexivity|].
  split; [intros; split; nra|]. split; [intros; split; nra|].
  split; intros ->; lra.
Qed.

Lemma screen_position_in_viewport_witness :
  exists o',
    Overlay.textElementPool
      (Overlay.updateCritical Sample.project_near Sample.frame0 0 ()
         Sample.overlay1) !! 31%nat = Some o'
    /\ Overlay.transform (Overlay.element o') = Some (400, 300)%R.
Proof.
  destruct (screen_position_in_viewport Sample.project_near Sample.desktop
              Sample.frame0 0%R () Sample.overlay1 0%nat 31%nat
              overlay1_reachable)
    as (o & o' & _ & Ho' & _ & Hin).
  { vm_compute. reflexivity. }
  exists o'. split; [exact Ho'|].
  destruct Hin as (sx & sy & -> & -> & -> & _).
  { simpl. lra. }
  simpl. f_equal. f_equal; lra.
Defined.

Section LifeFacts.

Import Overlay System.
Local Open Scope R_scope.

Lemma life_step_range (l : R) :
  0 <= l <= 1 ->
  let l' := if Rgtb (l + 0.005) 1 then 0 else l + 0.005 in
  0 <= l' <= 1.
Proof.
  intros H. cbv zeta.
  destruct (Rgtb (l + 0.005) 1) eqn:Hgt; [lra|].
  apply Rgtb_false in Hgt. lra.
Qed.

Lemma finalAlpha_nonneg (l depth : R) :
  0 <= l <= 1 -> 0 <= finalAlpha_of l depth.
Proof.
  intros [H0 H1]. unfold finalAlpha_of.
  assert (0 <= sin (l * PI)).
  { pose proof PI_RGT_0. apply sin_ge_0; nra. }
  destruct (Rgtb depth 1) eqn:Hd; [lra|].
  apply Rgtb_false in Hd. nra.
Qed.

End LifeFacts.

(** X5.  The idle pass advances the life phase of every active member by
    0.005 and resets it to 0 once it would pass 1, and touches nothing
    else; a phase in [[0, 1]] stays there, so the alpha the critical pass
    computes from it is never negative.  Members that are not active keep
    their phase. *)
Theorem life_phase_cycles (navigator : Overlay.Navigator) (this : Overlay.t)
    (obj : nat) (o : Overlay.PooledObject) :
  System.reachable navigator this ->
  Overlay.textElementPool this !! obj = Some o ->
  let this' := Overlay.updateNonCritical this in
  let l := Overlay.life (Overlay.userData (Overlay.mesh o)) in
  Overlay.activeElements this' = Overlay.activeElements this
  /\ Overlay.inactiveElements this' = Overlay.inactiveElements this
  /\ (Overlay.isActive o = false ->
      Overlay.textElementPool this' !! obj = Some o)
  /\ (Overlay.isActive o = true ->
      exists o',
        Overlay.textElementPool this' !! obj = Some o'
        /\ o' = Overlay.with_userData o
                  (Overlay.with_life (Overlay.userData (Overlay.mesh o))
                     (Overlay.life (Overlay.userData (Overlay.mesh o'))))
        /\ ((l + 0.005 <= 1)%R ->
            Overlay.life (Overlay.userData (Overlay.mesh o'))
            = (l + 0.005)%R)
        /\ ((l + 0.005 > 1)%R ->
            Overlay.life (Overlay.userData (Overlay.mesh o')) = 0%R)
        /\ ((0 <= l <= 1)%R ->
            (0 <= Overlay.life (Overlay.userData (Overlay.mesh o')) <= 1)%R
            /\ forall depth,
                 (0 <= Overlay.finalAlpha_of
                         (Overlay.life (Overlay.userData (Overlay.mesh o')))
                         depth)%R)).
Proof.
  intros Hreach Ho. cbv zeta.
  apply reachable_inv in Hreach as (Hwf & _).
  split; [done|]. split; [done|].
  pose proof Hwf as (_ & Hnd & _ & Hflag).
  apply NoDup_app in Hnd as (Hnd & _).
  split.
  - intros Hina. unfold Overlay.updateNonCritical. simpl.
    rewrite forEach_lookup_notin; [done|].
    intros Hin. apply (Hflag obj o Ho) in Hin. congruence.
  - intros Hact. apply (Hflag obj o Ho) in Hact.
    apply list_elem_of_lookup_1 in Hact as [index Hidx].
    eexists. split.
    { unfold Overlay.updateNonCritical. simpl.
      rewrite (forEach_lookup_in _ _ 0 _ index obj Hnd Hidx), Ho.
      reflexivity. }
    unfold Overlay.updateNonCritical_obj. simpl.
    split; [done|]. split; [|split].
    + intros Hle. apply Rgtb_false in Hle. by rewrite Hle.
    + intros Hgt. apply Rgtb_true in Hgt. by rewrite Hgt.
    + intros Hl.
      pose proof (life_step_range _ Hl) as Hl'. cbv zeta in Hl'.
      split; [exact Hl'|]. intros depth. by apply finalAlpha_nonneg.
Qed.

Lemma life_phase_cycles_witness :
  exists o',
    Overlay.textElementPool (Overlay.updateNonCritical Sample.overlay1)
      !! 31%nat = Some o'
    /\ Overlay.life (Overlay.userData (Overlay.mesh o')) = (1 / 2 + 0.005)%R.
Proof.
  destruct (life_phase_cycles Sample.desktop Sample.overlay1 31%nat
              (Overlay.with_isActive
                 (Overlay.newPooledObject Sample.draws_half 31) true)
              overlay1_reachable)
    as (_ & _ & _ & Hact).
  { vm_compute. reflexivity. }
  destruct (Hact eq_refl) as (o' & Ho' & _ & Hstep & _).
  exists o'. split; [exact Ho'|]. apply Hstep.
  unfold Sample.draws_half. simpl. lra.
Defined.

Section HiddenFacts.

Import Overlay System.

Lemma hidden_getActiveObject this :
  inactive_hidden this -> inactive_hidden (snd (getActiveObject this)).
Proof.
  unfold inactive_hidden, getActiveObject. intros H.
  destruct (JS.pop (inactiveElements this)) as [[obj l]|]; simpl; [|done].
  apply Forall_alter; [done|]. by intros o _ _.
Qed.

Lemma hidden_releaseObject this obj :
  inactive_hidden this -> inactive_hidden (releaseObject this obj).
Proof.
  unfold inactive_hidden, releaseObject. intros H.
  destruct (textElementPool this !! obj) as [o|]; [|done].
  destruct (isActive o); simpl; [|done].
  destruct (JS.indexOf (activeElements this) obj); simpl;
    (apply Forall_alter; [done|]); by intros.
Qed.

Lemma releaseExcess_hidden fuel this this' :
  inactive_hidden this -> releaseExcess fuel this = Returns this' ->
  inactive_hidden this'.
Proof.
  revert this. induction fuel as [|fuel IH]; intros this H; simpl.
  - case_bool_decide; [done|]. by intros [= <-].
  - case_bool_decide; [|by intros [= <-]].
    destruct (last (activeElements this)) as [obj|]; [|done].
    apply IH. by apply hidden_releaseObject.
Qed.

Lemma activateNeeded_hidden fuel this this' :
  inactive_hidden this -> activateNeeded fuel this = Returns this' ->
  inactive_hidden this'.
Proof.
  revert this. induction fuel as [|fuel IH]; intros this H; simpl.
  - case_bool_decide; [done|]. by intros [= <-].
  - case_bool_decide; [|by intros [= <-]].
    unfold getActiveObject.
    destruct (JS.pop (inactiveElements this)) as [[obj l]|];
      [|by intros [= <-]].
    apply IH. unfold inactive_hidden in *. simpl.
    apply Forall_alter; [apply Forall_alter; [done|by intros o _ _]|].
    intros o Ho _ Hina.
    apply lookup_alter_Some in Ho as [(_ & o0 & _ & ->)|[? _]]; done.
Qed.

(** A callback run over references to active objects only, and keeping
    [isActive], cannot unhide an inactive object. *)
Lemma forEach_hidden f refs index pool :
  (forall k o, isActive (f k o) = isActive o) ->
  (forall r o, r ∈ refs -> pool !! r = Some o -> isActive o = true) ->
  Forall hidden_if_inactive pool ->
  Forall hidden_if_inactive (forEach f refs index pool).
Proof.
  intros Hf. revert index pool.
  induction refs as [|r refs IH]; intros index pool Hact Hp; simpl; [done|].
  apply IH.
  - intros r' o' Hr' Ho'.
    apply lookup_alter_Some in Ho' as [(-> & o0 & Ho0 & ->)|[_ Ho']].
    + rewrite Hf. apply (Hact r o0); [|done]. apply elem_of_cons. by left.
    + apply (Hact r' o'); [|done]. apply elem_of_cons. by right.
  - apply Forall_alter; [done|]. intros o Ho _ Hina.
    rewrite Hf in Hina.
    rewrite (Hact r o) in Hina; [done| |done]. apply elem_of_cons. by left.
Qed.

Lemma hidden_forEach this f index :
  pool_wf this ->
  (forall k o, isActive (f k o) = isActive o) ->
  inactive_hidden this ->
  inactive_hidden
    (with_pool this
       (forEach f (activeElements this) index (textElementPool this))
       (activeElements this) (inactiveElements this)).
Proof.
  intros (_ & _ & _ & Hflag) Hf H. unfold inactive_hidden. simpl.
  apply forEach_hidden; [done| |done].
  intros r o Hr Ho. by apply (Hflag r o Ho).
Qed.

Lemma hidden_updateDisplayMetrics now this this' :
  pool_wf this -> (0 <= textCount (settings this))%Z ->
  inactive_hidden this -> updateDisplayMetrics now this = Returns this' ->
  inactive_hidden this'.
Proof.
  unfold updateDisplayMetrics, updateDisplayMetrics_fuel. intros Hwf Htc Hh.
  set (this0 := with_currentMetrics this _).
  set (fuel := S _).
  destruct (releaseExcess_spec fuel this0 Hwf Htc ltac:(simpl; lia))
    as (this1 & H1 & Hwf1 & _).
  rewrite H1.
  pose proof (pool_wf_count this Hwf) as Hn.
  pose proof (pool_wf_count this1 Hwf1) as Hn1.
  assert (Hs1 : settings this1 = settings this).
  { destruct (releaseExcess_spec fuel this0 Hwf Htc ltac:(simpl; lia))
      as (this1' & H1' & _ & (Hs & _) & _).
    rewrite H1 in H1'. injection H1' as <-. exact Hs. }
  rewrite Hs1 in Hn1.
  destruct (activateNeeded_spec fuel this1 Hwf1 ltac:(unfold fuel; lia))
    as (this2 & H2 & Hwf2 & _).
  rewrite H2. intros [= <-].
  apply hidden_forEach; [done|intros; apply refreshContent_isActive|].
  eapply activateNeeded_hidden; [|exact H2].
  eapply releaseExcess_hidden; [|exact H1]. exact Hh.
Qed.

Lemma hidden_step navigator this this' :
  sys_inv navigator this -> inactive_hidden this ->
  step navigator this this' -> inactive_hidden this'.
Proof.
  intros (Hwf & _ & _ & Htc & _) Hh Hstep.
  destruct Hstep as [this|this obj|this now this' Hret|this now|this now
                    |Camera project ctx this|this|Math now tape this Ht].
  - by apply hidden_getActiveObject.
  - by apply hidden_releaseObject.
  - apply (hidden_updateDisplayMetrics now this); try done. lia.
  - unfold updateTextContent.
    apply (hidden_forEach (with_currentMetrics this _)); try done.
    intros; apply refreshContent_isActive.
  - exact Hh.
  - unfold update. destruct (activeElements this) eqn:Ha; [done|].
    destruct (camera ctx) as [cam|]; [|exact Hh].
    unfold updateCritical. apply hidden_forEach.
    + destruct (requestIdleCallback ctx); [exact Hwf|].
      unfold updateNonCritical.
      by apply (pool_wf_forEach (with_frameCount this _)).
    + intros. apply updateCritical_obj_isActive.
    + destruct (requestIdleCallback ctx); [exact Hh|].
      unfold updateNonCritical.
      by apply (hidden_forEach (with_frameCount this _)).
  - unfold updateNonCritical. by apply hidden_forEach.
  - exact Hh.
Qed.

Lemma createObjectPool_hidden draws this :
  textElementPool this = [] ->
  inactive_hidden (createObjectPool draws this).
Proof.
  intros Hnil. unfold createObjectPool, inactive_hidden.
  destruct (createObjectPool_loop_spec draws
              (seq 0 (poolSize (settings this))) this) as (Hp & _).
  rewrite Hp, Hnil. simpl.
  apply (proj2 (Forall_fmap _ _ _)). apply Forall_forall.
  by intros i _ _.
Qed.

Lemma hidden_updateTextContent now this :
  pool_wf this -> inactive_hidden this ->
  inactive_hidden (updateTextContent now this).
Proof.
  intros Hwf Hh. unfold updateTextContent.
  apply (hidden_forEach (with_currentMetrics this _)); try done.
  intros; apply refreshContent_isActive.
Qed.

Lemma constructor_hidden navigator fleet draws perfNow now :
  inactive_hidden (constructor navigator fleet draws perfNow now).
Proof.
  unfold constructor.
  set (this0 := {| settings := _ |}).
  destruct (createObjectPool_inv draws this0 eq_refl eq_refl eq_refl)
    as (Hwf & _).
  pose proof (createObjectPool_hidden draws this0 eq_refl) as Hh.
  set (this1 := createObjectPool draws this0) in *. clearbody this1.
  by apply hidden_updateTextContent.
Qed.

Lemma reachable_hidden navigator this :
  reachable navigator this -> inactive_hidden this.
Proof.
  induction 1 as [tape draws perfNow now Ht|this this' Hreach IH Hstep].
  - apply constructor_hidden.
  - apply (hidden_step navigator this); try done. by apply reachable_inv.
Qed.

End HiddenFacts.

Section RoundTripFacts.

Import Overlay System.

Lemma alter_as_insert {A} (f : A -> A) (l : list A) (i : nat) (x : A) :
  l !! i = Some x -> alter f i l = <[i := f x]> l.
Proof.
  intros H. apply list_eq. intros j.
  destruct (decide (i = j)) as [<-|Hne].
  - rewrite list_lookup_alter_eq, H. simpl.
    rewrite list_lookup_insert_eq; [done|]. by apply lookup_lt_Some in H.
  - by rewrite list_lookup_alter_ne, list_lookup_insert_ne.
Qed.

Lemma indexOf_snoc_notin {A} `{EqDecision A} (l : list A) (x : A) :
  x ∉ l -> JS.indexOf (l ++ [x]) x = Some (length l).
Proof.
  induction l as [|y l IH]; intros Hx; simpl.
  - by rewrite decide_True.
  - apply not_elem_of_cons in Hx as [Hne Hx].
    rewrite decide_False by done. by rewrite IH.
Qed.

Lemma splice1_snoc {A} (l : list A) (x : A) :
  JS.splice1 (length l) (l ++ [x]) = l.
Proof.
  unfold JS.splice1. induction l as [|y l IH]; simpl; [done|].
  by rewrite IH.
Qed.

Lemma rehide_inactive (o : PooledObject) :
  isActive o = false -> display (element o) = display_none ->
  isVisible (userData (mesh o)) = false ->
  show display_none false (with_isActive (with_isActive o true) false) = o.
Proof.
  destruct o as [[d op tr html] [pos [orig vel lf rnd mi vis]] act lu].
  simpl. by intros -> -> ->.
Qed.

(** In a reachable instance a pooled object outside the active list is
    marked inactive and is hidden. *)
Lemma reachable_inactive_state navigator this obj o :
  reachable navigator this ->
  textElementPool this !! obj = Some o -> obj ∉ activeElements this ->
  isActive o = false /\ display (element o) = display_none
  /\ isVisible (userData (mesh o)) = false
  /\ obj ∈ inactiveElements this.
Proof.
  intros Hreach Ho Hobj.
  pose proof (reachable_hidden navigator this Hreach) as Hh.
  apply reachable_inv in Hreach as ((_ & _ & Hmem & Hflag) & _).
  assert (Hact : isActive o = false).
  { destruct (isActive o) eqn:Ha; [|done].
    destruct Hobj. by apply (Hflag obj o Ho). }
  destruct (Forall_lookup_1 _ _ _ _ Hh Ho Hact) as [Hd Hv].
  split_and!; try done.
  assert (Hin : obj ∈ activeElements this ++ inactiveElements this).
  { apply Hmem. by apply lookup_lt_Some in Ho. }
  apply elem_of_app in Hin as [?|?]; done.
Qed.

End RoundTripFacts.

(** X6.  In every state the overlay can reach, a pooled object whose
    reference is not in the active list is marked inactive, has display
    none and visibility flag false, and its reference is in the inactive
    list: no frame update, content refresh or reconciliation ever shows
    an object that is not active. *)
Theorem inactive_members_hidden (navigator : Overlay.Navigator)
    (this : Overlay.t) (obj : nat) (o : Overlay.PooledObject) :
  System.reachable navigator this ->
  Overlay.textElementPool this !! obj = Some o ->
  obj ∉ Overlay.activeElements this ->
  Overlay.isActive o = false
  /\ Overlay.display (Overlay.element o) = Overlay.display_none
  /\ Overlay.isVisible (Overlay.userData (Overlay.mesh o)) = false
  /\ obj ∈ Overlay.inactiveElements this.
Proof. apply reachable_inactive_state. Qed.

Lemma inactive_members_hidden_witness :
  Overlay.textElementPool Sample.overlay1 !! 7%nat
  = Some (Overlay.newPooledObject Sample.draws_half 7)
  /\ 7%nat ∈ Overlay.inactiveElements Sample.overlay1.
Proof.
  assert (H : Overlay.textElementPool Sample.overlay1 !! 7%nat
              = Some (Overlay.newPooledObject Sample.draws_half 7))
    by reflexivity.
  split; [exact H|].
  refine (proj2 (proj2 (proj2
    (inactive_members_hidden Sample.desktop Sample.overlay1 7%nat _
       overlay1_reachable H _)))).
  change (Overlay.activeElements Sample.overlay1) with [31%nat].
  rewrite list_elem_of_singleton. lia.
Defined.

(** X7.  Acquiring from a reachable overlay whose inactive list is not
    empty takes the last reference of that list, appends it to the active
    list, and releasing that member again gives back exactly the state
    before the acquisition. *)
Theorem acquire_then_release_restores (navigator : Overlay.Navigator)
    (this : Overlay.t) :
  System.reachable navigator this ->
  Overlay.inactiveElements this <> [] ->
  exists obj this1,
    Overlay.getActiveObject this = (Some obj, this1)
    /\ last (Overlay.inactiveElements this) = Some obj
    /\ Overlay.activeElements this1 = Overlay.activeElements this ++ [obj]
    /\ Overlay.releaseObject this1 obj = this.
Proof.
  intros Hreach Hne.
  pose proof (reachable_inv _ _ Hreach) as ((_ & Hnd & Hmem & _) & _).
  unfold Overlay.getActiveObject.
  destruct (JS.pop (Overlay.inactiveElements this)) as [[obj l]|] eqn:Hpop;
    [|by apply pop_None in Hpop].
  apply pop_Some in Hpop.
  assert (Hin : obj ∈ Overlay.inactiveElements this).
  { rewrite Hpop, elem_of_app, list_elem_of_singleton. by right. }
  assert (Hnot : obj ∉ Overlay.activeElements this).
  { apply NoDup_app in Hnd as (_ & Hdisj & _). intros Ha.
    by apply (Hdisj obj Ha). }
  assert (Hlt : (obj < length (Overlay.textElementPool this))%nat).
  { apply Hmem. rewrite elem_of_app. by right. }
  apply lookup_lt_is_Some_2 in Hlt as [o Ho].
  destruct (reachable_inactive_state navigator this obj o Hreach Ho Hnot)
    as (Hact & Hd & Hv & _).
  eexists obj, _. split; [reflexivity|].
  split; [rewrite Hpop; apply last_snoc|]. split; [reflexivity|].
  unfold Overlay.releaseObject.
  cbn [Overlay.textElementPool Overlay.activeElements
       Overlay.inactiveElements Overlay.with_pool].
  rewrite list_lookup_alter_eq, Ho.
  cbn [fmap option_fmap option_map Overlay.isActive Overlay.with_isActive
       negb].
  unfold JS.push. rewrite (indexOf_snoc_notin _ _ Hnot), splice1_snoc.
  rewrite list_alter_alter_eq.
  change (Overlay.with_pool (Overlay.with_pool this ?a ?b ?c) ?p ?q ?r)
    with (Overlay.with_pool this p q r).
  rewrite (alter_as_insert _ _ _ o Ho). unfold compose.
  rewrite (rehide_inactive o Hact Hd Hv), (list_insert_id _ _ _ Ho).
  rewrite <- Hpop. apply with_pool_id.
Qed.

Lemma acquire_then_release_restores_witness :
  Overlay.releaseObject (snd (Overlay.getActiveObject Sample.overlay0))
    31%nat = Sample.overlay0.
Proof.
  destruct (acquire_then_release_restores Sample.desktop Sample.overlay0
              overlay0_reachable)
    as (obj & this1 & Hget & Hlast & _ & Hrel).
  { change (Overlay.inactiveElements Sample.overlay0) with (seq 0 32).
    discriminate. }
  rewrite Hget. simpl.
  change (last (Overlay.inactiveElements Sample.overlay0))
    with (Some 31%nat) in Hlast.
  injection Hlast as <-. exact Hrel.
Defined.

(** X8.  Releasing an active member of a reachable overlay and acquiring
    straight after hands out the same member: its reference moves to the
    end of the active list, the inactive list is as before, and in the
    pool only that member changed: it is hidden, while its content,
    anchor and life phase are kept. *)
Theorem release_then_acquire_same_member (navigator : Overlay.Navigator)
    (this : Overlay.t) (obj : nat) :
  System.reachable navigator this ->
  obj ∈ Overlay.activeElements this ->
  exists k o this2,
    JS.indexOf (Overlay.activeElements this) obj = Some k
    /\ Overlay.textElementPool this !! obj = Some o
    /\ Overlay.getActiveObject (Overlay.releaseObject this obj)
       = (Some obj, this2)
    /\ Overlay.activeElements this2
       = JS.splice1 k (Overlay.activeElements this) ++ [obj]
    /\ Overlay.inactiveElements this2 = Overlay.inactiveElements this
    /\ Overlay.textElementPool this2
       = <[obj := Overlay.show Overlay.display_none false o]>
           (Overlay.textElementPool this).
Proof.
  intros Hreach Hobj.
  pose proof (reachable_inv _ _ Hreach) as (Hwf & _).
  destruct (pool_wf_lookup this obj Hwf Hobj) as (o & Ho & Hact).
  destruct (releaseObject_active this obj Hwf Hobj) as (k & Hk & ->).
  exists k, o. unfold Overlay.getActiveObject.
  cbn [Overlay.textElementPool Overlay.activeElements
       Overlay.inactiveElements Overlay.with_pool].
  rewrite pop_snoc. eexists. split; [exact Hk|]. split; [exact Ho|].
  split; [reflexivity|].
  cbn [Overlay.textElementPool Overlay.activeElements
       Overlay.inactiveElements Overlay.with_pool].
  split; [reflexivity|]. split; [reflexivity|].
  rewrite list_alter_alter_eq, (alter_as_insert _ _ _ o Ho).
  f_equal. unfold compose.
  destruct o as [e m act lu]. simpl in Hact. by subst act.
Qed.

Lemma release_then_acquire_same_member_witness :
  fst (Overlay.getActiveObject
         (Overlay.releaseObject Sample.overlay1 31%nat)) = Some 31%nat.
Proof.
  destruct (release_then_acquire_same_member Sample.desktop Sample.overlay1
              31%nat overlay1_reachable)
    as (k & o & this2 & _ & _ & Hget & _).
  { change (Overlay.activeElements Sample.overlay1) with [31%nat].
    by apply list_elem_of_singleton. }
  by rewrite Hget.
Defined.

(** * Further properties: what the overlay shows *)

Section ContentFacts.

Import Overlay System.

Lemma vehicleMetrics_nth (v : Fleet.Vehicle) (j : nat) :
  (j < 4)%nat ->
  exists m,
    Fleet.vehicleMetrics v !! j = Some m
    /\ Fleet.Metric.vehicleId m = Fleet.id v
    /\ (Fleet.Metric.type m
        = match j with
          | O => "location" | S O => "fuel" | S (S O) => "engine"
          | _ => "driver"
          end)%string.
Proof.
  intros Hj. destruct j as [|[|[|[|j]]]]; [| | | |lia];
    (eexists; split; [reflexivity|]; by split).
Qed.

(** The metric at position [k] of the list the overlay reads, for a
    position the pool can reach. *)
Lemma getDisplayMetrics_vehicle (f : Fleet.FleetTelematicsData) (k : nat) :
  (k < 4 * length (Fleet.vehicles f))%nat ->
  exists v m,
    Fleet.getAllVehicles f !! (k / 4)%nat = Some v
    /\ Fleet.getDisplayMetrics f !! k = Some m
    /\ Fleet.vehicleMetrics v !! (k mod 4)%nat = Some m
    /\ Fleet.Metric.vehicleId m = Fleet.id v
    /\ (Fleet.Metric.type m
        = match (k mod 4)%nat with
          | O => "location" | S O => "fuel" | S (S O) => "engine"
          | _ => "driver"
          end)%string.
Proof.
  intros Hk.
  assert (Hlen : length (Fleet.getAllVehicles f)
                 = length (Fleet.vehicles f)).
  { unfold Fleet.getAllVehicles, JS.Map_values. by rewrite length_fmap. }
  pose proof (Nat.div_mod_eq k 4) as Hdm.
  pose proof (Nat.mod_upper_bound k 4 ltac:(lia)) as Hmod.
  assert (Hdiv : (k / 4 < length (Fleet.getAllVehicles f))%nat) by lia.
  apply lookup_lt_is_Some_2 in Hdiv as [v Hv].
  destruct (vehicleMetrics_nth v (k mod 4) Hmod) as (m & Hm & Hid & Hty).
  exists v, m. split; [done|]. split; [|done].
  unfold Fleet.getDisplayMetrics, JS.push. cbv zeta.
  rewrite lookup_app_l by (rewrite vehicleMetrics_length; lia).
  rewrite Hdm at 1. by rewrite (vehicleMetrics_lookup _ _ _ v Hv Hmod).
Qed.

End ContentFacts.

(** X9.  The periodic content refresh gives the member at position [k]
    of the active list the metric at position [k] of the fleet's list,
    which is metric [k mod 4] of vehicle [k / 4]: the header is the
    vehicle id, or the driver label for the fourth metric, never the
    fallback content.  With at most 32 pooled objects only the first
    eight vehicles can be shown and the fleet summary never is.  The
    refresh moves no reference and leaves every other object alone. *)
Theorem content_follows_position (navigator : Overlay.Navigator) (now : Q)
    (this : Overlay.t) (k obj : nat) :
  System.reachable navigator this ->
  Overlay.activeElements this !! k = Some obj ->
  let this' := Overlay.updateTextContent now this in
  (k < 32)%nat
  /\ Overlay.activeElements this' = Overlay.activeElements this
  /\ Overlay.inactiveElements this' = Overlay.inactiveElements this
  /\ (exists o v m,
        Overlay.textElementPool this !! obj = Some o
        /\ Fleet.getAllVehicles (Overlay.fleetData this) !! (k / 4)%nat
           = Some v
        /\ Fleet.vehicleMetrics v !! (k mod 4)%nat = Some m
        /\ Overlay.textElementPool this' !! obj
           = Some (Overlay.updateElementContent now m o)
        /\ Overlay.innerHTML
             (Overlay.element (Overlay.updateElementContent now m o))
           = Overlay.content_metric
               (if decide (k mod 4 = 3)%nat then Fleet.Metric.label m
                else Fleet.id v)
               (Fleet.Metric.value m) (Fleet.Metric.detail m)
               (Overlay.statusColor_of (Fleet.Metric.status m))
        /\ Overlay.lastUpdate (Overlay.updateElementContent now m o) = now
        /\ Overlay.mesh (Overlay.updateElementContent now m o)
           = Overlay.mesh o)
  /\ (forall obj', obj' ∉ Overlay.activeElements this ->
        Overlay.textElementPool this' !! obj'
        = Overlay.textElementPool this !! obj').
Proof.
  intros Hreach Hk. cbv zeta.
  pose proof (reachable_inv _ _ Hreach) as (Hwf & Hn & _ & _ & _ & Hfleet).
  apply fleet_reachable_inv in Hfleet as (_ & Hlen & _).
  pose proof (pool_wf_count this Hwf) as Hcount.
  pose proof (lookup_lt_Some _ _ _ Hk) as Hlt.
  assert (Hk32 : (k < 32)%nat) by lia.
  split; [exact Hk32|]. split; [reflexivity|]. split; [reflexivity|].
  unfold Overlay.updateTextContent.
  cbn [Overlay.textElementPool Overlay.activeElements
       Overlay.inactiveElements Overlay.currentMetrics Overlay.with_pool
       Overlay.with_currentMetrics].
  split; [|intros obj' Hobj'; by apply forEach_lookup_notin].
  destruct (pool_wf_lookup this obj Hwf) as (o & Ho & _);
    [by apply list_elem_of_lookup_2 in Hk|].
  destruct (getDisplayMetrics_vehicle (Overlay.fleetData this) k)
    as (v & m & Hv & Hm & Hvm & _); [lia|].
  exists o, v, m. split; [exact Ho|]. split; [exact Hv|].
  split; [exact Hvm|]. split; [|split; [|by split]].
  - destruct Hwf as (_ & Hnd & _). apply NoDup_app in Hnd as (Hnd & _).
    rewrite (forEach_lookup_in _ _ _ _ k obj Hnd Hk), Ho. simpl.
    unfold Overlay.refreshContent. by rewrite Hm.
  - pose proof (Nat.mod_upper_bound k 4 ltac:(lia)) as Hmod.
    destruct (k mod 4)%nat as [|[|[|[|j]]]]; [| | | |lia];
      injection Hvm as <-; reflexivity.
Qed.

Lemma content_follows_position_witness :
  exists o',
    Overlay.textElementPool
      (Overlay.updateTextContent 5 Sample.overlay1) !! 31%nat = Some o'
    /\ Overlay.lastUpdate o' = 5%Q.
Proof.
  destruct (content_follows_position Sample.desktop 5 Sample.overlay1
              0%nat 31%nat overlay1_reachable)
    as (_ & _ & _ & (o & v & m & _ & _ & _ & Ho' & _ & Hlast & _) & _).
  { reflexivity. }
  eexists. split; [exact Ho'|exact Hlast].
Defined.

(** * Further properties: the fleet simulation *)

Section MoreNumberFacts.

Local Open Scope Q_scope.

Lemma trunc_floor (q : Q) : 0 <= q -> JS.trunc q = Qfloor q.
Proof.
  destruct q as [n d]. unfold Qle, JS.trunc, Qfloor. simpl. intros Hn.
  apply Z.quot_div_nonneg; lia.
Qed.

(** [x % m] of a number that is not negative lies in [[0, m)]. *)
Lemma rem_range (x m : Q) :
  0 <= x -> 0 < m -> 0 <= JS.rem x m /\ JS.rem x m < m.
Proof.
  intros Hx Hm. unfold JS.rem.
  assert (Hq : 0 <= x / m) by (by apply Qdiv_nonneg).
  rewrite (trunc_floor _ Hq).
  pose proof (Qfloor_le (x / m)) as Hlo.
  pose proof (Qlt_floor (x / m)) as Hhi.
  rewrite inject_Z_plus in Hhi. change (inject_Z 1) with 1 in Hhi.
  set (f := inject_Z (Qfloor (x / m))) in *.
  assert (Hxm : x / m * m == x) by (field; lra).
  split.
  - assert (m * f <= x / m * m) by nra. lra.
  - assert (x / m * m < m * (f + 1)) by nra. lra.
Qed.

Lemma post_value {A} (c : Rand A) (P R : A -> Prop) :
  rand_post c P -> (forall t, R (fst (c t))) -> rand_post c R.
Proof. intros Hc HR t Ht. destruct (Hc t Ht). split; auto. Qed.

Lemma post_and {A} (c : Rand A) (P R : A -> Prop) :
  rand_post c P -> rand_post c R -> rand_post c (fun a => P a /\ R a).
Proof.
  intros Hc HR t Ht. destruct (Hc t Ht), (HR t Ht). split; [split|]; auto.
Qed.

End MoreNumberFacts.

(** Bounds on [Math.max] and [Math.min] of readings. *)
Ltac q_bound :=
  first [ lra
        | apply max_lb_l
        | (apply max_ub; [lra|apply min_ub_l])
        | (apply max_ub; lra)
        | (eapply Qle_trans; [|apply max_lb_l]; lra) ].

Section FleetLift.

Import Fleet System.
Local Open Scope Q_scope.

(** A property of a key and the vehicle stored under it that
    [initializeFleet] establishes and one tick of a vehicle keeps. *)
Context (PK : string -> Vehicle -> Prop).

Hypothesis PK_new :
  forall now i,
    (i < 12)%nat -> rand_post (newVehicle now i) (fun v => PK (id v) v).

Hypothesis PK_tick :
  forall Math now k v,
    vehicle_inv v -> PK k v ->
    rand_post (updateVehicle Math 1000 now v) (PK k).

Lemma Map_set_Forall_pairs (m : list (string * Vehicle)) k v :
  Forall (fun kv => PK kv.1 kv.2) m -> PK k v ->
  Forall (fun kv => PK kv.1 kv.2) (JS.Map_set m k v).
Proof.
  intros Hm Hv. induction m as [|[k' v'] m IH]; simpl.
  - by repeat constructor.
  - apply Forall_cons in Hm as [Hv' Hm].
    destruct (String.eqb k' k); constructor; auto.
Qed.

Lemma initializeFleet_loop_lift now idxs (m : list (string * Vehicle)) :
  Forall (fun i => i < 12)%nat idxs ->
  Forall (fun kv => PK kv.1 kv.2) m ->
  rand_post (initializeFleet_loop now idxs m)
    (Forall (fun kv => PK kv.1 kv.2)).
Proof using PK_new.
  revert m. induction idxs as [|i idxs IH]; intros m Hi Hm; simpl.
  - by apply post_ret.
  - apply Forall_cons in Hi as [Hi Hrest].
    eapply post_bind; [by apply PK_new|].
    intros v Hv. apply IH; [done|]. by apply Map_set_Forall_pairs.
Qed.

Lemma constructor_lift now :
  rand_post (constructor now)
    (fun f => Forall (fun kv => PK kv.1 kv.2) (vehicles f)).
Proof using PK_new.
  unfold constructor, initializeFleet.
  apply (post_bind _ _
           (fun f => Forall (fun kv => PK kv.1 kv.2) (vehicles f))).
  { eapply post_bind.
    - apply initializeFleet_loop_lift; [|by constructor].
      apply Forall_forall. intros i Hi%elem_of_seq. lia.
    - intros m Hm. apply post_ret. exact Hm. }
  intros this Hm. apply post_ret. unfold startDataSimulation.
  by destruct (isRunning this).
Qed.

Lemma updateVehicleData_lift Math now (this : FleetTelematicsData) :
  fleet_inv this ->
  Forall (fun kv => PK kv.1 kv.2) (vehicles this) ->
  rand_post (updateVehicleData Math now this)
    (fun f => Forall (fun kv => PK kv.1 kv.2) (vehicles f)).
Proof using PK_tick.
  intros (Hui & _ & Hinv) Hpk. unfold updateVehicleData.
  eapply post_bind.
  { apply (post_mapM _ (fun kv => vehicle_inv kv.2 /\ PK kv.1 kv.2)
             (fun _ kv' => PK kv'.1 kv'.2)).
    - intros [k v] [Hv Hp]. simpl in *. rewrite Hui.
      eapply post_bind; [by apply PK_tick|].
      intros v' Hv'. by apply post_ret.
    - unfold getAllVehicles, JS.Map_values in Hinv.
      apply (proj1 (Forall_fmap snd vehicle_inv _)) in Hinv.
      apply Forall_and. by split. }
  intros m Hm. apply post_ret. simpl. clear -Hm.
  induction Hm; constructor; done.
Qed.

Lemma fleet_reachable_lift (f : FleetTelematicsData) :
  fleet_reachable f -> Forall (fun kv => PK kv.1 kv.2) (vehicles f).
Proof using PK_new PK_tick.
  induction 1 as [now tape Ht|Math now tape f Hf IH Ht].
  - by apply constructor_lift.
  - apply updateVehicleData_lift; [by apply fleet_reachable_inv|done|done].
Qed.

End FleetLift.

Section TickLift.

Import Fleet System.
Local Open Scope Q_scope.

Context (Math : MathLib) (ui : Q) (P : Vehicle -> Prop).

Hypothesis Hui : 0 <= ui.
Hypothesis P_location :
  forall v, vehicle_inv v -> P v ->
            rand_post (updateVehicleLocation Math ui v) P.
Hypothesis P_fuel :
  forall v, vehicle_inv v -> P v -> P (updateFuelData ui v).
Hypothesis P_engine :
  forall v, vehicle_inv v -> P v -> rand_post (updateEngineData v) P.
Hypothesis P_driver :
  forall v, vehicle_inv v -> P v ->
            rand_post (updateDriverBehavior ui v) P.
Hypothesis P_status :
  forall v, vehicle_inv v -> P v ->
            rand_post (updateVehicleStatus ui v) P.
Hypothesis P_stamp :
  forall v now,
    P v ->
    P (with_status v
         {| state := state (status v); route := route (status v);
            nextMaintenance := nextMaintenance (status v);
            lastUpdate := now; connected := connected (status v) |}).

(** A property every stage of the tick keeps is kept by the tick. *)
Lemma updateVehicle_lift now v :
  vehicle_inv v -> P v -> rand_post (updateVehicle Math ui now v) P.
Proof using Hui P_location P_fuel P_engine P_driver P_status P_stamp.
  intros Hv Hp. unfold updateVehicle.
  eapply post_bind;
    [apply post_and; [by apply updateVehicleLocation_inv
                     |by apply P_location]|].
  intros v1 [Hv1 Hp1]. cbv zeta.
  pose proof (updateFuelData_vehicle_inv ui v1 Hui Hv1) as Hv2.
  pose proof (P_fuel v1 Hv1 Hp1) as Hp2.
  eapply post_bind;
    [apply post_and; [by apply updateEngineData_inv|by apply P_engine]|].
  intros v3 [Hv3 Hp3].
  eapply post_bind;
    [apply post_and; [by apply updateDriverBehavior_inv
                     |by apply P_driver]|].
  intros v4 [Hv4 Hp4].
  eapply post_bind; [by apply P_status|].
  intros v5 Hp5. apply post_ret. by apply P_stamp.
Qed.

End TickLift.

Section RangeFacts.

Import Fleet System.
Local Open Scope Q_scope.

Lemma newVehicle_ranges now i :
  rand_post (newVehicle now i)
    (fun v => engine_range (engine v) /\ travel_range v).
Proof.
  unfold newVehicle. cbv zeta.
  post_draw r_lat H1. post_draw r_lng H2. post_draw r_speed H3.
  post_draw r_heading H4. post_draw r_alt H5. post_draw r_level H6.
  post_draw r_fill H7. post_draw r_rpm H8. post_draw r_temp H9.
  post_draw r_oil H10. post_draw r_volt H11. post_draw r_hours H12.
  post_draw r_did H13. post_draw r_score H14. post_draw r_acc H15.
  post_draw r_brk H16. post_draw r_cor H17. post_draw r_idle H18.
  post_draw r_drv H19. post_draw r_state H20. post_draw r_maint H21.
  post_draw r_conn H22.
  apply post_ret. unfold engine_range, travel_range, in_unit in *. simpl.
  assert (Hfl : forall (r : Q) (n : Z), (0 < n)%Z -> 0 <= r /\ r < 1 ->
            (0 <= JS.Math_floor (r * inject_Z n) < n)%Z).
  { intros r n Hn [Hr0 Hr1].
    assert (0 < inject_Z n) by (change 0 with (inject_Z 0);
                                by rewrite <- Zlt_Qlt).
    split; [apply floor_nonneg; nra|apply floor_lt; nra]. }
  pose proof (Hfl r_hours 5000%Z ltac:(lia) H12) as Hh.
  pose proof (Hfl r_maint 5000%Z ltac:(lia) H21) as Hm.
  pose proof (Hfl r_idle 120%Z ltac:(lia) H18) as Hi.
  pose proof (Hfl r_drv 480%Z ltac:(lia) H19) as Hd.
  change (inject_Z 5000) with 5000 in *. change (inject_Z 120) with 120 in *.
  change (inject_Z 480) with 480 in *.
  assert (Hz : forall z : Z, (0 <= z)%Z -> 0 <= inject_Z z).
  { intros z Hz. change 0 with (inject_Z 0). by rewrite <- Zle_Qle. }
  split_and!; try lra; try lia.
  - apply Hz. lia.
  - apply Hz. lia.
  - change 60 with (inject_Z 60). rewrite <- Zle_Qle. lia.
Qed.

Lemma updateEngineData_range v :
  location_inv (location v) -> engine_range (engine v) ->
  rand_post (updateEngineData v) (fun v' => engine_range (engine v')).
Proof.
  intros (Hs1 & Hs2) ((Hv1 & Hv2 & Ht1 & Ht2 & Ho1 & Ho2 & Hr1 & Hr2) & Hh).
  unfold updateEngineData. cbv zeta.
  apply (post_bind _ _ engine_range).
  { destruct (state (status v)).
    - post_draw r1 H1. post_draw r2 H2. post_draw r3 H3. apply post_ret.
      unfold engine_range, in_unit in *. simpl.
      set (b := speed (location v) / 100 * 2500).
      assert (Hb : b == speed (location v) * 25) by (unfold b; field).
      clearbody b.
      split_and!; try done; try lia; q_bound.
    - post_draw r1 H1. apply post_ret.
      unfold engine_range, in_unit in *. simpl.
      split_and!; try done; try lia; q_bound. }
  intros e1 ((Hv1' & Hv2' & Ht1' & Ht2' & Ho1' & Ho2' & Hr1' & Hr2') & Hh').
  post_draw r4 H4. post_draw r5 H5.
  apply (post_bind _ _ (fun _ => True)).
  { destruct (JS.ltb r5 0.001 && _); [|by apply post_ret].
    post_draw r6 H6. destruct (JS.includes _ _); by apply post_ret. }
  intros codes _. apply post_ret. unfold engine_range, in_unit in *. simpl.
  split_and!; try done; try lia; q_bound.
Qed.

Lemma updateVehicleLocation_travel (Math : MathLib) (ui : Q) v :
  travel_range v ->
  rand_post (updateVehicleLocation Math ui v) travel_range.
Proof.
  intros (Hh1 & Hh2 & Hm & Hi & Hd). unfold updateVehicleLocation.
  destruct (state (status v)); [|by apply post_ret].
  cbv zeta. post_draw r1 H1. post_draw r2 H2.
  apply (post_bind _ _ (fun h => 0 <= h /\ h < 360)).
  { destruct (JS.ltb r2 0.1); [|by apply post_ret].
    post_draw r3 H3. apply post_ret. unfold in_unit in *.
    apply rem_range; lra. }
  intros h [Hh1' Hh2']. apply post_ret. unfold travel_range. simpl.
  by split_and!.
Qed.

Lemma updateDriverBehavior_travel (ui : Q) v :
  0 <= ui -> travel_range v ->
  rand_post (updateDriverBehavior ui v) travel_range.
Proof.
  intros Hu (Hh1 & Hh2 & Hm & Hi & Hd). unfold updateDriverBehavior.
  cbv zeta.
  assert (Hstep : 0 <= ui / 60000) by (apply Qdiv_nonneg; lra).
  apply (post_bind _ _ (fun d1 => 0 <= idleTime d1 /\ 60 <= drivingTime d1)).
  { destruct (state (status v)); [|apply post_ret; simpl; lra].
    post_draw r1 H1.
    apply (post_bind _ _
             (fun d0 => 0 <= idleTime d0 /\ 60 <= drivingTime d0)).
    - destruct (JS.ltb r1 0.01); [|by apply post_ret].
      post_draw eventType H2.
      destruct (JS.ltb eventType 0.4); [by apply post_ret|].
      destruct (JS.ltb eventType 0.7); by apply post_ret.
    - intros d0 [Hi0 Hd0]. apply post_ret. simpl. lra. }
  intros d1 [Hi1 Hd1]. apply post_ret. unfold travel_range. simpl.
  by split_and!.
Qed.

Lemma updateVehicleStatus_travel (ui : Q) v :
  travel_range v -> rand_post (updateVehicleStatus ui v) travel_range.
Proof.
  intros (Hh1 & Hh2 & Hm & Hi & Hd). unfold updateVehicleStatus. cbv zeta.
  post_draw r1 H1. post_draw r2 H2. apply post_ret.
  unfold travel_range. simpl. split_and!; try done.
  destruct (if JS.ltb r1 0.01 then _ else _); [apply max_lb_l|done].
Qed.

Lemma updateVehicle_ranges Math now v :
  vehicle_inv v -> engine_range (engine v) /\ travel_range v ->
  rand_post (updateVehicle Math 1000 now v)
    (fun v' => engine_range (engine v') /\ travel_range v').
Proof.
  intros Hv Hp.
  apply (updateVehicle_lift Math 1000
           (fun v' => engine_range (engine v') /\ travel_range v'));
    try done.
  - clear. intros v Hv [He Ht]. apply post_and.
    + eapply post_value; [by apply updateVehicleLocation_inv|].
      intros t. destruct (updateVehicleLocation_frame Math 1000 v t)
        as (_ & _ & _ & -> & _). exact He.
    + by apply updateVehicleLocation_travel.
  - clear. intros v Hv [He Ht].
    destruct (updateFuelData_frame 1000 v) as (_ & _ & El & Ee & Ed & Es).
    unfold travel_range. by rewrite Ee, El, Ed, Es.
  - clear. intros v (_ & Hl & _) [He Ht]. apply post_and.
    + by apply updateEngineData_range.
    + eapply post_value; [by apply updateEngineData_range|].
      intros t. destruct (updateEngineData_frame v t)
        as (_ & _ & El & _ & Ed & Es).
      unfold travel_range. by rewrite El, Ed, Es.
  - clear. intros v Hv [He Ht]. apply post_and.
    + eapply post_value; [by apply (updateDriverBehavior_inv 1000)|].
      intros t. destruct (updateDriverBehavior_frame 1000 v t)
        as (_ & _ & _ & _ & -> & _). exact He.
    + by apply updateDriverBehavior_travel.
  - clear. intros v Hv [He Ht]. apply post_and.
    + eapply post_value; [by apply (updateVehicleStatus_inv 1000)|].
      intros t. destruct (updateVehicleStatus_frame 1000 v t)
        as (_ & _ & _ & _ & -> & _). exact He.
    + by apply updateVehicleStatus_travel.
Qed.

Lemma fleet_reachable_ranges (f : FleetTelematicsData) :
  fleet_reachable f ->
  Forall (fun v => engine_range (engine v) /\ travel_range v)
    (getAllVehicles f).
Proof.
  intros Hf. unfold getAllVehicles, JS.Map_values.
  apply (proj2 (Forall_fmap snd _ _)).
  apply (fleet_reachable_lift
           (fun _ v => engine_range (engine v) /\ travel_range v));
    [intros now i _; apply newVehicle_ranges| |done].
  intros Math now _ v. apply updateVehicle_ranges.
Qed.

End RangeFacts.

(** X10.  In every fleet the service can hold, each vehicle's engine
    readings stay in the ranges the simulation clamps them to: voltage
    in [12, 14.5], temperature in [80, 105], oil pressure in [25, 55],
    rpm in [750, 3500), and the engine hours drawn at creation in
    [1000, 6000). *)
Theorem engine_readings_in_range (f : Fleet.FleetTelematicsData)
    (v : Fleet.Vehicle) :
  System.fleet_reachable f ->
  v ∈ Fleet.getAllVehicles f ->
  (12 <= Fleet.voltage (Fleet.engine v)
   /\ Fleet.voltage (Fleet.engine v) <= 14.5
   /\ 80 <= Fleet.temperature (Fleet.engine v)
   /\ Fleet.temperature (Fleet.engine v) <= 105
   /\ 25 <= Fleet.oilPressure (Fleet.engine v)
   /\ Fleet.oilPressure (Fleet.engine v) <= 55
   /\ 750 <= Fleet.rpm (Fleet.engine v)
   /\ Fleet.rpm (Fleet.engine v) < 3500)%Q
  /\ (1000 <= Fleet.hours (Fleet.engine v) < 6000)%Z.
Proof.
  intros Hf Hv.
  pose proof (fleet_reachable_ranges f Hf) as Hall.
  rewrite Forall_forall in Hall. destruct (Hall v Hv) as [He _]. exact He.
Qed.

Lemma engine_readings_in_range_witness :
  (12 <= Fleet.voltage (Fleet.engine Sample.vehicle0))%Q
  /\ (Fleet.rpm (Fleet.engine Sample.vehicle0) < 3500)%Q.
Proof.
  destruct (engine_readings_in_range Sample.fleet0 Sample.vehicle0)
    as ((H1 & _ & _ & _ & _ & _ & _ & H2) & _).
  - apply System.fleet_init, tape_half_ok.
  - apply (list_elem_of_lookup_2 _ 0%nat). vm_compute. reflexivity.
  - by split.
Defined.

(** X11.  In every fleet the service can hold, each vehicle's heading is
    a compass angle in [0, 360), the distance to the next maintenance
    and the idle time are never negative, and the driving time never
    drops under 60 minutes, so the hours the score divides by are
    always positive. *)
Theorem heading_and_counters_in_range (f : Fleet.FleetTelematicsData)
    (v : Fleet.Vehicle) :
  System.fleet_reachable f ->
  v ∈ Fleet.getAllVehicles f ->
  (0 <= Fleet.heading (Fleet.location v)
   /\ Fleet.heading (Fleet.location v) < 360
   /\ 0 <= Fleet.nextMaintenance (Fleet.status v)
   /\ 0 <= Fleet.idleTime (Fleet.driver v)
   /\ 60 <= Fleet.drivingTime (Fleet.driver v))%Q
  /\ JS.gtb (Fleet.drivingTime (Fleet.driver v) / 60) 0 = true.
Proof.
  intros Hf Hv.
  pose proof (fleet_reachable_ranges f Hf) as Hall.
  rewrite Forall_forall in Hall. destruct (Hall v Hv) as [_ Ht].
  split; [exact Ht|].
  destruct Ht as (_ & _ & _ & _ & Hd).
  apply ltb_true. apply Qlt_shift_div_l; lra.
Qed.

Lemma heading_and_counters_in_range_witness :
  (Fleet.heading (Fleet.location Sample.vehicle0) < 360)%Q.
Proof.
  destruct (heading_and_counters_in_range Sample.fleet0 Sample.vehicle0)
    as ((_ & H & _) & _).
  - apply System.fleet_init, tape_half_ok.
  - apply (list_elem_of_lookup_2 _ 0%nat). vm_compute. reflexivity.
  - exact H.
Defined.

Section TickRelations.

Import Fleet System.
Local Open Scope Q_scope.

Context (Math : MathLib) (ui : Q).

Lemma updateVehicleLocation_static v t :
  static_of (fst (updateVehicleLocation Math ui v t)) = static_of v.
Proof.
  unfold updateVehicleLocation.
  destruct (state (status v)); rand_cases; done.
Qed.

Lemma updateFuelData_static v : static_of (updateFuelData ui v) = static_of v.
Proof. unfold updateFuelData. by destruct (state (status v)). Qed.

Lemma updateEngineData_static v t :
  static_of (fst (updateEngineData v t)) = static_of v.
Proof.
  unfold updateEngineData. destruct (state (status v)); rand_cases; done.
Qed.

Lemma updateDriverBehavior_static v t :
  static_of (fst (updateDriverBehavior ui v t)) = static_of v.
Proof.
  unfold updateDriverBehavior. destruct (state (status v)); rand_cases; done.
Qed.

Lemma updateVehicleStatus_static v t :
  static_of (fst (updateVehicleStatus ui v t)) = static_of v.
Proof. unfold updateVehicleStatus. rand_cases; done. Qed.

Lemma updateVehicle_static now v t :
  static_of (fst (updateVehicle Math ui now v t)) = static_of v.
Proof.
  unfold updateVehicle, bind.
  pose proof (updateVehicleLocation_static v t) as S1.
  destruct (updateVehicleLocation Math ui v t) as [v1 t1].
  pose proof (updateFuelData_static v1) as S2.
  pose proof (updateEngineData_static (updateFuelData ui v1) t1) as S3.
  destruct (updateEngineData (updateFuelData ui v1) t1) as [v3 t3].
  pose proof (updateDriverBehavior_static v3 t3) as S4.
  destruct (updateDriverBehavior ui v3 t3) as [v4 t4].
  pose proof (updateVehicleStatus_static v4 t4) as S5.
  destruct (updateVehicleStatus ui v4 t4) as [v5 t5].
  simpl in *. rewrite <- S1, <- S2, <- S3, <- S4, <- S5. reflexivity.
Qed.

(** A relation every call of the callback establishes holds between
    the list [mapM] read and the list it returns, position by
    position. *)
Lemma mapM_Forall2 {A B} (f : A -> Rand B) (R : A -> B -> Prop) :
  (forall a t, R a (fst (f a t))) ->
  forall l t, Forall2 R l (fst (mapM f l t)).
Proof.
  intros Hf. induction l as [|a l IH]; intros t; simpl.
  - constructor.
  - unfold bind. pose proof (Hf a t) as Ha.
    destruct (f a t) as [b t1]. pose proof (IH t1) as Hl.
    destruct (mapM f l t1) as [bs t2]. simpl in *. by constructor.
Qed.

(** The stage that updates the driver, on any tape. *)
Lemma updateDriverBehavior_step v t :
  let d := driver v in
  let d' := driver (fst (updateDriverBehavior ui v t)) in
  let events' :=
    (harshAcceleration d' + harshBraking d' + harshCornering d')%Z in
  (state (status v) = idle ->
   harshAcceleration d' = harshAcceleration d
   /\ harshBraking d' = harshBraking d
   /\ harshCornering d' = harshCornering d
   /\ idleTime d' = idleTime d + ui / 60000
   /\ drivingTime d' = drivingTime d)
  /\ (state (status v) = driving ->
      (harshAcceleration d <= harshAcceleration d'
       /\ harshBraking d <= harshBraking d'
       /\ harshCornering d <= harshCornering d'
       /\ events'
          <= harshAcceleration d + harshBraking d + harshCornering d + 1)%Z
      /\ idleTime d' = idleTime d
      /\ drivingTime d' = drivingTime d + ui / 60000)
  /\ score d'
     = JS.Math_max 50
         (100 - (if JS.gtb (drivingTime d' / 60) 0
                 then inject_Z events' / (drivingTime d' / 60)
                 else 0) * 10).
Proof.
  cbv zeta. unfold updateDriverBehavior.
  destruct (state (status v)); unfold bind, ret, Math_random; simpl.
  - destruct (JS.ltb (t 0%nat) 0.01); simpl;
      [destruct (JS.ltb (t 1%nat) 0.4); simpl;
       [|destruct (JS.ltb (t 1%nat) 0.7); simpl]|];
      (split; [done|]); (split; [|done]); intros _; split_and!;
      try done; lia.
  - split; [done|]. split; [done|]. done.
Qed.

End TickRelations.

Section LateStages.

Import Fleet System.
Local Open Scope Q_scope.

Context (Math : MathLib) (ui now : Q).

(** The driver stage of a tick reads the driver and the state the tick
    started with; the status stage reads the status the tick started
    with and the location the tick ends with. *)
Lemma updateVehicle_late_stages (v : Vehicle) (t : Tape) :
  let v' := fst (updateVehicle Math ui now v t) in
  exists v3 t3 v4 t4,
    driver v3 = driver v /\ status v3 = status v
    /\ driver v' = driver (fst (updateDriverBehavior ui v3 t3))
    /\ location v4 = location v' /\ status v4 = status v
    /\ let s5 := status (fst (updateVehicleStatus ui v4 t4)) in
       status v'
       = {| state := state s5; route := route s5;
            nextMaintenance := nextMaintenance s5;
            lastUpdate := now; connected := connected s5 |}.
Proof.
  cbv zeta. unfold updateVehicle, bind.
  pose proof (updateVehicleLocation_frame Math ui v t) as F1.
  destruct (updateVehicleLocation Math ui v t) as [v1 t1].
  pose proof (updateFuelData_frame ui v1) as F2.
  pose proof (updateEngineData_frame (updateFuelData ui v1) t1) as F3.
  destruct (updateEngineData (updateFuelData ui v1) t1) as [v3 t3].
  pose proof (updateDriverBehavior_frame ui v3 t3) as F4.
  exists v3, t3.
  destruct (updateDriverBehavior ui v3 t3) as [v4 t4].
  pose proof (updateVehicleStatus_frame ui v4 t4) as F5.
  exists v4, t4.
  destruct (updateVehicleStatus ui v4 t4) as [v5 t5].
  simpl in *.
  destruct F1 as (_ & _ & _ & _ & D1 & S1), F2 as (_ & _ & _ & _ & D2 & S2),
    F3 as (_ & _ & _ & _ & D3 & S3), F4 as (_ & _ & L4 & _ & _ & S4),
    F5 as (_ & _ & L5 & _ & _ & D5).
  split_and!; congruence.
Qed.

End LateStages.

Section StaticFacts.

Import Fleet System.

Lemma updateVehicleData_static (Math : MathLib) (now : Q)
    (f : FleetTelematicsData) (t : Tape) :
  let f' := fst (updateVehicleData Math now f t) in
  (vehicles f').*1 = (vehicles f).*1
  /\ static_of <$> getAllVehicles f' = static_of <$> getAllVehicles f
  /\ updateInterval f' = updateInterval f
  /\ isRunning f' = isRunning f.
Proof.
  cbv zeta. unfold updateVehicleData, bind.
  pose proof
    (mapM_Forall2
       (fun kv : string * Vehicle =>
          let* v := updateVehicle Math (updateInterval f) now (snd kv) in
          ret (fst kv, v))
       (fun kv kv' => kv'.1 = kv.1 /\ static_of kv'.2 = static_of kv.2)) as H.
  specialize (H ltac:(
    intros [k v] t0; unfold bind, ret; simpl;
    pose proof (updateVehicle_static Math (updateInterval f) now v t0);
    destruct (updateVehicle Math (updateInterval f) now v t0);
    by split) (vehicles f) t).
  destruct (mapM _ (vehicles f) t) as [m t']. simpl in *.
  unfold getAllVehicles, JS.Map_values. simpl.
  split_and!; try done.
  - induction H as [|kv kv' l l' [Hk _] _ IH]; [done|].
    rewrite !fmap_cons. by f_equal.
  - induction H as [|kv kv' l l' [_ Hs] _ IH]; [done|].
    rewrite !fmap_cons. by f_equal.
Qed.

End StaticFacts.

(** X12.  One tick of the simulation keeps the fleet's keys and their
    order, the timer settings, and for every vehicle the attributes
    creation gave it: id, type, tank capacity, efficiency, last fill,
    altitude, engine hours, driver id and route. *)
Theorem tick_keeps_static_attributes (Math : Fleet.MathLib) (now : Q)
    (f : Fleet.FleetTelematicsData) (t : Tape) :
  let f' := fst (Fleet.updateVehicleData Math now f t) in
  (Fleet.vehicles f').*1 = (Fleet.vehicles f).*1
  /\ System.static_of <$> Fleet.getAllVehicles f'
     = System.static_of <$> Fleet.getAllVehicles f
  /\ Fleet.updateInterval f' = Fleet.updateInterval f
  /\ Fleet.isRunning f' = Fleet.isRunning f.
Proof. apply updateVehicleData_static. Qed.

(** X13.  In one tick of a vehicle that starts idle the three harsh
    event counters and the driving time are unchanged and the idle time
    grows by the interval in minutes.  For a vehicle that starts driving
    no counter decreases, their sum grows by at most one, the idle time
    is unchanged and the driving time grows by the interval in minutes.
    In both cases the score left behind is the larger of 50 and 100
    minus ten times the events per driving hour. *)
Theorem driver_counters_per_tick (Math : Fleet.MathLib) (ui now : Q)
    (v : Fleet.Vehicle) (t : Tape) :
  let d := Fleet.driver v in
  let d' := Fleet.driver (fst (Fleet.updateVehicle Math ui now v t)) in
  let events' :=
    (Fleet.harshAcceleration d' + Fleet.harshBraking d'
     + Fleet.harshCornering d')%Z in
  (Fleet.state (Fleet.status v) = Fleet.idle ->
   Fleet.harshAcceleration d' = Fleet.harshAcceleration d
   /\ Fleet.harshBraking d' = Fleet.harshBraking d
   /\ Fleet.harshCornering d' = Fleet.harshCornering d
   /\ Fleet.idleTime d' = (Fleet.idleTime d + ui / 60000)%Q
   /\ Fleet.drivingTime d' = Fleet.drivingTime d)
  /\ (Fleet.state (Fleet.status v) = Fleet.driving ->
      (Fleet.harshAcceleration d <= Fleet.harshAcceleration d'
       /\ Fleet.harshBraking d <= Fleet.harshBraking d'
       /\ Fleet.harshCornering d <= Fleet.harshCornering d'
       /\ events'
          <= Fleet.harshAcceleration d + Fleet.harshBraking d
             + Fleet.harshCornering d + 1)%Z
      /\ Fleet.idleTime d' = Fleet.idleTime d
      /\ Fleet.drivingTime d' = (Fleet.drivingTime d + ui / 60000)%Q)
  /\ Fleet.score d'
     = JS.Math_max 50
         (100 - (if JS.gtb (Fleet.drivingTime d' / 60) 0
                 then inject_Z events' / (Fleet.drivingTime d' / 60)
                 else 0) * 10)%Q.
Proof.
  cbv zeta.
  destruct (updateVehicle_late_stages Math ui now v t)
    as (v3 & t3 & _ & _ & Hd3 & Hs3 & Hd' & _).
  rewrite Hd'.
  pose proof (updateDriverBehavior_step ui v3 t3) as Hstep.
  cbv zeta in Hstep. rewrite Hd3, Hs3 in Hstep. exact Hstep.
Qed.

Lemma driver_counters_per_tick_witness :
  Fleet.drivingTime
    (Fleet.driver
       (fst (Fleet.updateVehicle Sample.Math_flat 1000 0 Sample.vehicle0
               Sample.tape_half)))
  = (Fleet.drivingTime (Fleet.driver Sample.vehicle0) + 1000 / 60000)%Q.
Proof.
  destruct (driver_counters_per_tick Sample.Math_flat 1000 0 Sample.vehicle0
              Sample.tape_half) as (_ & Hdrive & _).
  destruct Hdrive as (_ & _ & H); [reflexivity|exact H].
Defined.

Section CountdownFacts.

Import Fleet System.
Local Open Scope Q_scope.

Lemma updateVehicleStatus_step (ui : Q) v t :
  let s := status v in
  let s' := status (fst (updateVehicleStatus ui v t)) in
  route s' = route s
  /\ (state s' = idle -> nextMaintenance s' = nextMaintenance s)
  /\ (state s' = driving ->
      nextMaintenance s'
      = JS.Math_max 0
          (nextMaintenance s - speed (location v) * (ui / 3600000))).
Proof.
  cbv zeta. unfold updateVehicleStatus, bind, ret, Math_random. simpl.
  destruct (if JS.ltb (t 0%nat) 0.01 then _ else _); by split_and!.
Qed.

Lemma max0_sub (a x : Q) :
  0 <= a -> 0 <= x -> 0 <= JS.Math_max 0 (a - x) /\ JS.Math_max 0 (a - x) <= a.
Proof. intros Ha Hx. split; [apply max_lb_l|apply max_ub; lra]. Qed.

(** The clamp of a speed moved by less than 2.5 stays within 2.5 of a
    speed that was in range. *)
Lemma speed_step (s r : Q) :
  10 <= s -> s <= 100 -> 0 <= r -> r < 1 ->
  let s' := JS.Math_max 10 (JS.Math_min 100 (s + (r - 0.5) * 5)) in
  s - 2.5 <= s' /\ s' <= s + 2.5.
Proof.
  intros H1 H2 H3 H4. cbv zeta. unfold JS.Math_max, JS.Math_min.
  destruct (Q.max_spec 10 (Qmin 100 (s + (r - 0.5) * 5))) as [[? ?]|[? ?]];
    destruct (Q.min_spec 100 (s + (r - 0.5) * 5)) as [[? ?]|[? ?]];
    split; lra.
Qed.

End CountdownFacts.

(** X14.  A tick leaves a vehicle's route alone and stamps its status
    with the time of the tick.  The distance to the next maintenance is
    unchanged when the vehicle ends the tick idle; when it ends the tick
    driving it drops by the speed the tick ends with times the interval
    in hours, and stops at zero.  With interval, speed and distance not
    negative the distance never grows and never becomes negative. *)
Theorem maintenance_countdown_per_tick (Math : Fleet.MathLib) (ui now : Q)
    (v : Fleet.Vehicle) (t : Tape) :
  let v' := fst (Fleet.updateVehicle Math ui now v t) in
  let s := Fleet.status v in
  let s' := Fleet.status v' in
  Fleet.route s' = Fleet.route s
  /\ Fleet.lastUpdate s' = now
  /\ (Fleet.state s' = Fleet.idle ->
      Fleet.nextMaintenance s' = Fleet.nextMaintenance s)
  /\ (Fleet.state s' = Fleet.driving ->
      Fleet.nextMaintenance s'
      = JS.Math_max 0
          (Fleet.nextMaintenance s
           - Fleet.speed (Fleet.location v') * (ui / 3600000))%Q)
  /\ ((0 <= ui)%Q -> (0 <= Fleet.speed (Fleet.location v'))%Q ->
      (0 <= Fleet.nextMaintenance s)%Q ->
      (0 <= Fleet.nextMaintenance s'
       /\ Fleet.nextMaintenance s' <= Fleet.nextMaintenance s)%Q).
Proof.
  cbv zeta.
  destruct (updateVehicle_late_stages Math ui now v t)
    as (_ & _ & v4 & t4 & _ & _ & _ & Hl4 & Hs4 & Hs').
  cbv zeta in Hs'. rewrite Hs'. cbn [Fleet.route Fleet.lastUpdate
    Fleet.state Fleet.nextMaintenance].
  destruct (updateVehicleStatus_step ui v4 t4) as (Hr & Hidle & Hdrive).
  rewrite Hs4, Hl4 in *.
  split; [exact Hr|]. split; [reflexivity|]. split; [exact Hidle|].
  split; [exact Hdrive|].
  intros Hu Hsp Hnm.
  destruct (Fleet.state
              (Fleet.status (fst (Fleet.updateVehicleStatus ui v4 t4)))).
  - rewrite (Hdrive eq_refl). apply max0_sub; [done|].
    apply Qmult_le_0_compat; [done|]. apply Qdiv_nonneg; lra.
  - rewrite (Hidle eq_refl). split; [done|]. lra.
Qed.

Lemma maintenance_countdown_per_tick_witness :
  (Fleet.nextMaintenance
     (Fleet.status
        (fst (Fleet.updateVehicle Sample.Math_flat 1000 0 Sample.vehicle0
                Sample.tape_half)))
   <= Fleet.nextMaintenance (Fleet.status Sample.vehicle0))%Q.
Proof.
  destruct (maintenance_countdown_per_tick Sample.Math_flat 1000 0
              Sample.vehicle0 Sample.tape_half) as (_ & _ & _ & _ & H).
  destruct H as [_ H]; [vm_compute; discriminate..|exact H].
Defined.

(** X15.  For a vehicle that starts a tick driving with a speed in
    [10, 100], on a tape of draws in [0, 1), the speed after the tick is
    within 2.5 km/h of the speed before and still in [10, 100]; the
    altitude is unchanged, and the heading is unchanged unless the
    second draw is under 0.1. *)
Theorem speed_step_per_tick (Math : Fleet.MathLib) (ui now : Q)
    (v : Fleet.Vehicle) (t : Tape) :
  tape_ok t ->
  Fleet.state (Fleet.status v) = Fleet.driving ->
  (10 <= Fleet.speed (Fleet.location v))%Q ->
  (Fleet.speed (Fleet.location v) <= 100)%Q ->
  let l := Fleet.location v in
  let l' := Fleet.location (fst (Fleet.updateVehicle Math ui now v t)) in
  (Fleet.speed l - 2.5 <= Fleet.speed l'
   /\ Fleet.speed l' <= Fleet.speed l + 2.5
   /\ 10 <= Fleet.speed l' /\ Fleet.speed l' <= 100)%Q
  /\ Fleet.altitude l' = Fleet.altitude l
  /\ (JS.ltb (t 1%nat) 0.1 = false -> Fleet.heading l' = Fleet.heading l).
Proof.
  intros Ht Hdrive H1 H2. cbv zeta.
  destruct (updateVehicle_stages Math ui now v t) as (-> & _).
  unfold Fleet.updateVehicleLocation. rewrite Hdrive.
  unfold bind, ret, Math_random. simpl.
  destruct (speed_step (Fleet.speed (Fleet.location v)) (t 0%nat) H1 H2)
    as [Hlo Hhi]; [apply Ht..|].
  destruct (JS.ltb (t 1%nat) 0.1); simpl;
    (split; [split_and!; try done; q_bound|]); by split.
Qed.

Lemma speed_step_per_tick_witness :
  (Fleet.speed
     (Fleet.location
        (fst (Fleet.updateVehicle Sample.Math_flat 1000 0 Sample.vehicle0
                Sample.tape_half)))
   <= Fleet.speed (Fleet.location Sample.vehicle0) + 2.5)%Q.
Proof.
  destruct (speed_step_per_tick Sample.Math_flat 1000 0 Sample.vehicle0
              Sample.tape_half tape_half_ok)
    as ((_ & H & _) & _);
    [reflexivity|vm_compute; discriminate..|exact H].
Defined.

Section IdentityFacts.

Import Fleet System.

Lemma Map_get_lookup {V} (m : list (string * V)) (i : nat) k (v : V) :
  NoDup m.*1 -> m !! i = Some (k, v) -> JS.Map_get m k = Some v.
Proof.
  revert i. induction m as [|[k' v'] m IH]; intros i Hnd Hi; [done|].
  rewrite fmap_cons in Hnd. apply NoDup_cons in Hnd as [Hk' Hnd].
  destruct i as [|i]; simpl in *.
  - injection Hi as -> ->. by rewrite String.eqb_refl.
  - destruct (String.eqb k' k) eqn:Heq; [|by apply (IH i)].
    apply String.eqb_eq in Heq as ->. destruct Hk'.
    apply list_elem_of_fmap. exists (k, v). split; [done|].
    by apply list_elem_of_lookup_2 in Hi.
Qed.

Lemma Map_get_None {V} (m : list (string * V)) k :
  k ∉ m.*1 -> JS.Map_get m k = None.
Proof.
  induction m as [|[k' v'] m IH]; intros Hk; [done|].
  rewrite fmap_cons in Hk. apply not_elem_of_cons in Hk as [Hne Hk].
  simpl in *. destruct (String.eqb k' k) eqn:Heq; [|by apply IH].
  apply String.eqb_eq in Heq. congruence.
Qed.

Lemma fleet_keys_NoDup : NoDup fleet_keys.
Proof.
  apply (bool_decide_unpack (NoDup fleet_keys)). vm_compute. reflexivity.
Qed.

Lemma newVehicle_identity now i :
  (i < 12)%nat ->
  rand_post (newVehicle now i) (fun v => identity_of (id v) v).
Proof.
  intros Hi.
  eapply post_value; [apply (newVehicle_post now i)|].
  intros t. unfold identity_of. split; [reflexivity|]. exists i.
  split; [exact Hi|]. split; [reflexivity|].
  unfold newVehicle, bind, ret, Math_random.
  cbn [fst snd vtype fuel capacity efficiency status route vt_type vt_fuel
       vt_efficiency].
  change (length vehicleTypes) with 4%nat.
  change (length routes) with 5%nat.
  pose proof (Nat.mod_upper_bound i 4 ltac:(lia)) as H4.
  pose proof (Nat.mod_upper_bound i 5 ltac:(lia)) as H5.
  remember (i mod 4)%nat as a eqn:Ha. remember (i mod 5)%nat as b eqn:Hb.
  clear Ha Hb. split.
  - destruct a as [|[|[|[|a]]]]; [reflexivity..|lia].
  - destruct b as [|[|[|[|[|b]]]]]; [reflexivity..|lia].
Qed.

Lemma updateVehicle_identity Math ui now k v :
  identity_of k v ->
  forall t, identity_of k (fst (updateVehicle Math ui now v t)).
Proof.
  intros (Hid & i & Hi & Hk & Hty & Hroute) t.
  pose proof (updateVehicle_static Math ui now v t) as Hs.
  unfold static_of in Hs.
  injection Hs as E1 E2 E3 E4 _ _ _ _ E9.
  unfold identity_of. rewrite E1, E2, E3, E4, E9.
  split; [done|]. by exists i.
Qed.

Lemma constructor_keys now :
  rand_post (constructor now) (fun f => (vehicles f).*1 = fleet_keys).
Proof.
  unfold constructor, initializeFleet.
  apply (post_bind _ _ (fun f => (vehicles f).*1 = fleet_keys)).
  { eapply post_bind.
    - apply (initializeFleet_loop_post now (seq 0 12) [] []); by constructor.
    - intros m [_ Hkeys]. apply post_ret. simpl. rewrite Hkeys.
      vm_compute. reflexivity. }
  intros this Hk. apply post_ret. unfold startDataSimulation.
  by destruct (isRunning this).
Qed.

Lemma fleet_reachable_identity (f : FleetTelematicsData) :
  fleet_reachable f ->
  (vehicles f).*1 = fleet_keys
  /\ Forall (fun kv => identity_of kv.1 kv.2) (vehicles f).
Proof.
  intros Hf. split.
  - induction Hf as [now tape Ht|Math now tape f Hf IH Ht].
    + by apply constructor_keys.
    + destruct (updateVehicleData_static Math now f tape) as [-> _]. done.
  - apply (fleet_reachable_lift identity_of); [| |done].
    + intros now i Hi. by apply newVehicle_identity.
    + intros Math now k v Hv Hk.
      eapply post_value; [by apply (updateVehicle_post Math 1000 now v)|].
      by apply updateVehicle_identity.
Qed.

End IdentityFacts.

(** X16.  In every fleet the service can hold the [Map] has the twelve
    keys VH-001 .. VH-012 in creation order, all different.  The
    vehicle at position [i] is stored under the id made from [i + 1],
    carries that id, has the type, tank capacity and efficiency of
    vehicle type [i mod 4] and the route [i mod 5], and [getVehicle]
    with its key returns it.  [getVehicle] with any other key returns
    nothing. *)
Theorem fleet_identity_and_lookup (f : Fleet.FleetTelematicsData) :
  System.fleet_reachable f ->
  (Fleet.vehicles f).*1 = System.fleet_keys
  /\ NoDup (Fleet.vehicles f).*1
  /\ (forall (i : nat) k v,
        Fleet.vehicles f !! i = Some (k, v) ->
        k = Fleet.vehicle_id (Z.of_nat i + 1)
        /\ Fleet.id v = k
        /\ Fleet.vehicleTypes !! (i mod 4)%nat
           = Some {| Fleet.vt_type := Fleet.vtype v;
                     Fleet.vt_fuel := Fleet.capacity (Fleet.fuel v);
                     Fleet.vt_efficiency :=
                       Fleet.efficiency (Fleet.fuel v) |}
        /\ Fleet.routes !! (i mod 5)%nat
           = Some (Fleet.route (Fleet.status v))
        /\ Fleet.getVehicle f k = Some v)
  /\ (forall k, k ∉ System.fleet_keys -> Fleet.getVehicle f k = None).
Proof.
  intros Hf. destruct (fleet_reachable_identity f Hf) as [Hkeys Hall].
  pose proof fleet_keys_NoDup as Hnd. rewrite <- Hkeys in Hnd.
  split; [exact Hkeys|]. split; [exact Hnd|]. split.
  - intros i k v Hi.
    pose proof (Forall_lookup_1 _ _ _ _ Hall Hi) as Hid.
    destruct Hid as (Hidv & j & Hj & Hkj & Hty & Hroute). simpl in *.
    assert (Hki : System.fleet_keys !! i = Some k).
    { rewrite <- Hkeys, list_lookup_fmap, Hi. done. }
    assert (Hkj' : System.fleet_keys !! j = Some k).
    { unfold System.fleet_keys. rewrite list_lookup_fmap.
      rewrite lookup_seq_lt by done. simpl. by rewrite Hkj. }
    assert (i = j) as ->.
    { rewrite Hkeys in Hnd. by apply (NoDup_lookup _ _ _ _ Hnd Hki Hkj'). }
    split_and!; try done.
    by apply (Map_get_lookup _ j).
  - intros k Hk. apply Map_get_None. by rewrite Hkeys.
Qed.

Lemma fleet_identity_and_lookup_witness :
  Fleet.getVehicle Sample.fleet0 "VH-001" = Some Sample.vehicle0.
Proof.
  destruct (fleet_identity_and_lookup Sample.fleet0) as (_ & _ & H & _).
  - apply System.fleet_init, tape_half_ok.
  - destruct (H 0%nat "VH-001"%string Sample.vehicle0) as (_ & _ & _ & _ & Hg).
    + vm_compute. reflexivity.
    + exact Hg.
Defined.

Section SummaryFacts.

Import Fleet System.
Local Open Scope Q_scope.

Lemma Q_of_nat_S (n : nat) : Q_of_nat (S n) == Q_of_nat n + 1.
Proof.
  unfold Q_of_nat. rewrite Nat2Z.inj_succ, <- Z.add_1_r, inject_Z_plus.
  reflexivity.
Qed.

Lemma Q_of_nat_pos (n : nat) : (0 < n)%nat -> 0 < Q_of_nat n.
Proof.
  intros Hn. unfold Q_of_nat. change 0 with (inject_Z 0).
  rewrite <- Zlt_Qlt. lia.
Qed.

Lemma foldl_Qplus_bounds (lo hi a : Q) (l : list Q) :
  Forall (fun x => lo <= x /\ x <= hi) l ->
  a + Q_of_nat (length l) * lo <= foldl Qplus a l
  /\ foldl Qplus a l <= a + Q_of_nat (length l) * hi.
Proof.
  intros Hl. revert a. induction Hl as [|x l [Hx1 Hx2] _ IH]; intros a.
  - simpl. change (Q_of_nat 0) with 0. split; lra.
  - simpl foldl. simpl length. destruct (IH (a + x)) as [IH1 IH2].
    pose proof (Q_of_nat_S (length l)) as HS.
    set (n := Q_of_nat (length l)) in *.
    set (n' := Q_of_nat (S (length l))) in *.
    clearbody n n'. split; nra.
Qed.

(** The mean of readings in a range lies in the range. *)
Lemma mean_bounds (lo hi : Q) (l : list Q) :
  (0 < length l)%nat ->
  Forall (fun x => lo <= x /\ x <= hi) l ->
  lo <= Qsum l / Q_of_nat (length l)
  /\ Qsum l / Q_of_nat (length l) <= hi.
Proof.
  intros Hn Hl. destruct (foldl_Qplus_bounds lo hi 0 l Hl) as [H1 H2].
  pose proof (Q_of_nat_pos _ Hn) as Hpos. unfold Qsum.
  split.
  - apply Qle_shift_div_l; [done|]. lra.
  - apply Qle_shift_div_r; [done|]. lra.
Qed.

Lemma fault_total_bound (vs : list Vehicle) (a : nat) :
  Forall vehicle_inv vs ->
  (foldl (fun sum v => (sum + length (faultCodes (engine v)))%nat) a vs
   <= a + 3 * length vs)%nat.
Proof.
  intros Hvs. revert a.
  induction Hvs as [|v vs (_ & _ & _ & _ & Hlen & _) _ IH]; intros a;
    simpl; [lia|].
  specialize (IH (a + length (faultCodes (engine v)))%nat). lia.
Qed.

End SummaryFacts.

(** X17.  The summary of any fleet counts consistently: active plus idle
    is the total, and neither the connected vehicles nor the maintenance
    alerts exceed it.  For a fleet the service can hold the total is 12,
    there are at most 36 fault codes, the average speed is 0 with no
    vehicle driving and otherwise in [10, 100], the average driver score
    is a number in [50, 100], and the total fuel is not negative. *)
Theorem fleet_summary_consistent (f : Fleet.FleetTelematicsData) :
  let s := Fleet.getFleetSummary f in
  (Fleet.Summary.active s + Fleet.Summary.idle s = Fleet.Summary.total s
   /\ Fleet.Summary.connected s <= Fleet.Summary.total s
   /\ Fleet.Summary.maintenanceAlerts s <= Fleet.Summary.total s)%nat
  /\ (System.fleet_reachable f ->
      Fleet.Summary.total s = 12%nat
      /\ (Fleet.Summary.faultCodes s <= 36)%nat
      /\ (Fleet.Summary.active s = 0%nat ->
          Fleet.Summary.avgSpeed s = 0%Q)
      /\ ((0 < Fleet.Summary.active s)%nat ->
          (10 <= Fleet.Summary.avgSpeed s
           /\ Fleet.Summary.avgSpeed s <= 100)%Q)
      /\ (exists a, Fleet.Summary.avgDriverScore s = Some a
                    /\ (50 <= a /\ a <= 100)%Q)
      /\ (0 <= Fleet.Summary.totalFuel s)%Q).
Proof.
  cbv zeta. unfold Fleet.getFleetSummary. cbv zeta.
  cbn [Fleet.Summary.active Fleet.Summary.idle Fleet.Summary.total
       Fleet.Summary.connected Fleet.Summary.maintenanceAlerts
       Fleet.Summary.faultCodes Fleet.Summary.avgSpeed
       Fleet.Summary.avgDriverScore Fleet.Summary.totalFuel].
  set (vs := Fleet.getAllVehicles f).
  split.
  { repeat match goal with
           | |- context [@filter _ _ _ ?P ?H vs] =>
               lazymatch goal with
               | _ : (length (@filter _ _ _ P H vs) <= _)%nat |- _ => fail
               | _ => pose proof (@length_filter _ P H vs)
               end
           end.
    lia. }
  intros Hf. apply fleet_reachable_inv in Hf as (_ & Hlen & Hinv).
  fold vs in Hinv.
  assert (Hn : length vs = 12%nat).
  { unfold vs, Fleet.getAllVehicles, JS.Map_values.
    by rewrite length_fmap. }
  split; [exact Hn|]. split.
  { pose proof (fault_total_bound vs 0 Hinv). lia. }
  split.
  { intros Ha. by rewrite bool_decide_eq_false_2 by lia. }
  split.
  { intros Ha. rewrite bool_decide_eq_true_2 by done.
    set (act := filter _ vs) in *.
    rewrite <- (length_fmap (fun v => Fleet.speed (Fleet.location v)) act).
    apply mean_bounds; [by rewrite length_fmap|].
    apply (proj2 (Forall_fmap _ _ _)). apply Forall_forall.
    intros v Hv. apply list_elem_of_filter in Hv as [_ Hv].
    rewrite Forall_forall in Hinv.
    destruct (Hinv v Hv) as (_ & Hl & _). exact Hl. }
  split.
  { rewrite bool_decide_eq_false_2 by lia. eexists. split; [reflexivity|].
    rewrite <- (length_fmap (fun v => Fleet.score (Fleet.driver v)) vs).
    apply mean_bounds; [rewrite length_fmap; lia|].
    apply (proj2 (Forall_fmap _ _ _)).
    eapply Forall_impl; [exact Hinv|].
    intros v (_ & _ & (Hs & _) & _). exact Hs. }
  assert (Hfuel : Forall (fun x => 0 <= x /\ x <= x)%Q
                    ((fun v => Fleet.level (Fleet.fuel v)) <$> vs)).
  { apply (proj2 (Forall_fmap _ _ _)).
    eapply Forall_impl; [exact Hinv|].
    intros v ((H0 & _) & _). simpl. split; [done|]. lra. }
  clear -Hfuel. unfold Fleet.Qsum.
  assert (Hacc : forall a : Q, (0 <= a)%Q ->
            (0 <= foldl Qplus a
                    ((fun v => Fleet.level (Fleet.fuel v)) <$> vs))%Q).
  { induction Hfuel as [|x l [Hx _] _ IH]; intros a Ha; simpl; [done|].
    apply IH. lra. }
  apply Hacc. lra.
Qed.

Lemma fleet_summary_consistent_witness :
  Fleet.Summary.total (Fleet.getFleetSummary Sample.fleet0) = 12%nat.
Proof.
  destruct (fleet_summary_consistent Sample.fleet0) as [_ H].
  destruct H as [H _]; [apply System.fleet_init, tape_half_ok|exact H].
Defined.

(** X18.  After [destroy] the service is stopped and holds no vehicle:
    every lookup by id comes back empty, a tick reads no draw and
    changes nothing, the summary counts zero vehicles with average
    speed 0 and an average driver score that is not a number, and the
    metric list still has exactly one entry, the fleet entry, with
    status normal. *)
Theorem destroyed_fleet_is_empty (f : Fleet.FleetTelematicsData) :
  let d := Fleet.destroy f in
  Fleet.isRunning d = false
  /\ Fleet.updateInterval d = Fleet.updateInterval f
  /\ Fleet.getAllVehicles d = []
  /\ (forall k, Fleet.getVehicle d k = None)
  /\ (forall Math now t, Fleet.updateVehicleData Math now d t = (d, t))
  /\ Fleet.Summary.total (Fleet.getFleetSummary d) = 0%nat
  /\ Fleet.Summary.avgSpeed (Fleet.getFleetSummary d) = 0%Q
  /\ Fleet.Summary.avgDriverScore (Fleet.getFleetSummary d) = None
  /\ (exists m,
        Fleet.getDisplayMetrics d = [m]
        /\ Fleet.Metric.type m = "fleet"%string
        /\ Fleet.Metric.status m = "normal"%string
        /\ Fleet.Metric.value m = Fleet.TRatio 0 0).
Proof.
  cbv zeta. split_and!; try reflexivity.
  eexists. split; [reflexivity|]. by split_and!.
Qed.

(** * Further properties: the instance as wired *)

Section WiredFacts.

Import Overlay System.

Lemma createObjectPool_spec draws this (n : nat) :
  poolSize (settings this) = n ->
  textElementPool this = [] -> activeElements this = [] ->
  inactiveElements this = [] ->
  textElementPool (createObjectPool draws this)
  = newPooledObject draws <$> seq 0 n
  /\ activeElements (createObjectPool draws this) = []
  /\ inactiveElements (createObjectPool draws this) = seq 0 n.
Proof.
  intros <- Hp0 Ha0 Hi0. unfold createObjectPool.
  destruct (createObjectPool_loop_spec draws
              (seq 0 (poolSize (settings this))) this) as (Hp & Ha & Hi & _).
  rewrite Hp, Ha, Hi, Hp0, Hi0, length_seq. done.
Qed.

Lemma updateTextContent_no_active now this :
  activeElements this = [] ->
  textElementPool (updateTextContent now this) = textElementPool this
  /\ inactiveElements (updateTextContent now this) = inactiveElements this.
Proof.
  intros Ha. unfold updateTextContent.
  cbn [textElementPool activeElements inactiveElements with_pool
       with_currentMetrics].
  by rewrite Ha.
Qed.

Lemma constructor_pool navigator fleet draws perfNow now :
  let this := constructor navigator fleet draws perfNow now in
  textElementPool this = newPooledObject draws <$> seq 0 32
  /\ activeElements this = [] /\ inactiveElements this = seq 0 32
  /\ frameCount this = 0%nat.
Proof.
  cbv zeta.
  destruct (constructor_fields navigator fleet draws perfNow now)
    as (Ha & Hfc & _).
  split; [|split; [exact Ha|split; [|exact Hfc]]]; unfold constructor;
    set (this0 := {| settings := _ |});
    destruct (createObjectPool_spec draws this0 32 eq_refl eq_refl eq_refl
                eq_refl) as (Hp & Hact & Hi);
    set (this1 := createObjectPool draws this0) in *; clearbody this1;
    destruct (updateTextContent_no_active now this1 Hact) as [Hp' Hi'].
  - rewrite Hp'. exact Hp.
  - rewrite Hi'. exact Hi.
Qed.

Lemma wired_step_idle_pool navigator this this' :
  activeElements this = [] -> wired_step navigator this this' ->
  textElementPool this' = textElementPool this
  /\ activeElements this' = [] 
  /\ inactiveElements this' = inactiveElements this
  /\ (frameCount this = 0%nat -> frameCount this' = 0%nat).
Proof.
  intros Ha Hstep.
  destruct Hstep as [this now|this now|Camera project ctx this|this
                    |Math now tape this Ht].
  - unfold updateTextContent.
    cbn [textElementPool activeElements inactiveElements frameCount
         with_pool with_currentMetrics]. by rewrite Ha.
  - done.
  - by rewrite update_no_active.
  - unfold updateNonCritical.
    cbn [textElementPool activeElements inactiveElements frameCount
         with_pool]. by rewrite Ha.
  - done.
Qed.

Lemma wired_reachable navigator draws this :
  wired navigator draws this -> reachable navigator this.
Proof.
  induction 1 as [tape perfNow now Ht|this this' _ IH Hstep].
  - by apply reachable_init.
  - apply (reachable_step navigator this); [done|].
    destruct Hstep; by constructor.
Qed.

Lemma wired_pool navigator draws this :
  wired navigator draws this ->
  textElementPool this = newPooledObject draws <$> seq 0 32
  /\ activeElements this = [] /\ inactiveElements this = seq 0 32
  /\ frameCount this = 0%nat.
Proof.
  induction 1 as [tape perfNow now Ht|this this' _ IH Hstep].
  - apply constructor_pool.
  - destruct IH as (Hp & Ha & Hi & Hfc).
    destruct (wired_step_idle_pool navigator this this' Ha Hstep)
      as (Hp' & Ha' & Hi' & Hfc').
    rewrite Hp', Hi'. auto.
Qed.

End WiredFacts.

(** X19.  The timers the instance installs call only the content
    refresh and the governor, never the reconciliation, so driven by
    them and by frame updates no pool member is ever acquired: after
    construction and any sequence of content refreshes, governor checks,
    frames, idle callbacks and fleet ticks the active list is empty, the
    pool is
    exactly as creation left it (every member inactive, hidden, with
    its initial content and no transform), every frame update returns
    at once without counting a frame, and each governor check at a
    later time therefore measures 0 FPS and lowers the text budget by 2
    down to the floor of 8. *)
Theorem nothing_shown_as_wired (navigator : Overlay.Navigator)
    (draws : nat -> R) (this : Overlay.t) :
  System.wired navigator draws this ->
  Overlay.activeElements this = []
  /\ Overlay.inactiveElements this = seq 0 32
  /\ Overlay.textElementPool this
     = Overlay.newPooledObject draws <$> seq 0 32
  /\ Overlay.frameCount this = 0%nat
  /\ (forall obj o,
        Overlay.textElementPool this !! obj = Some o ->
        Overlay.isActive o = false
        /\ Overlay.display (Overlay.element o) = Overlay.display_none
        /\ Overlay.isVisible (Overlay.userData (Overlay.mesh o)) = false
        /\ Overlay.innerHTML (Overlay.element o) = Overlay.content_initial
        /\ Overlay.transform (Overlay.element o) = None)
  /\ (forall (Camera : Type)
             (project : Camera -> Overlay.Vector3 -> Overlay.Vector3) ctx,
        Overlay.update project ctx this = this)
  /\ (forall now,
        (Overlay.lastFPSCheck this < now)%Q ->
        let this' := Overlay.checkPerformance navigator now this in
        Overlay.currentFPS this' = Overlay.Finite 0
        /\ Overlay.textCount (Overlay.settings this')
           = Z.max 8 (Overlay.textCount (Overlay.settings this) - 2)
        /\ System.wired navigator draws this').
Proof.
  intros Hw. destruct (wired_pool navigator draws this Hw)
    as (Hp & Ha & Hi & Hfc).
  split; [exact Ha|]. split; [exact Hi|]. split; [exact Hp|].
  split; [exact Hfc|]. split; [|split].
  - intros obj o Ho. rewrite Hp, list_lookup_fmap in Ho.
    destruct (seq 0 32 !! obj) as [i|]; [|done].
    injection Ho as <-. by split_and!.
  - intros Camera project ctx. by apply update_no_active.
  - intros now Hnow. cbv zeta.
    assert (Hfps : Overlay.currentFPS
                     (Overlay.checkPerformance navigator now this)
                   = Overlay.Finite 0).
    { unfold Overlay.checkPerformance. simpl. rewrite Hfc.
      apply measureFPS_no_frames. lra. }
    split; [exact Hfps|]. split.
    + destruct (checkPerformance_rule navigator now this 0 Hfps)
        as (Hlow & _).
      cbv zeta in Hlow. apply Hlow; [lia|].
      pose proof (wired_reachable _ _ _ Hw) as Hr.
      apply reachable_inv in Hr as (_ & _ & _ & Htc & _). lia.
    + apply (System.wired_next navigator draws this); [exact Hw|].
      apply System.wired_governor.
Qed.

Lemma nothing_shown_as_wired_witness :
  Overlay.activeElements
    (Overlay.checkPerformance Sample.desktop 5000 Sample.overlay0) = []
  /\ Overlay.textCount
       (Overlay.settings
          (Overlay.checkPerformance Sample.desktop 5000 Sample.overlay0))
     = 22%Z.
Proof.
  assert (Hw : System.wired Sample.desktop Sample.draws_half
                 Sample.overlay0)
    by exact (System.wired_init Sample.desktop Sample.draws_half
                Sample.tape_half 0 0 tape_half_ok).
  destruct (nothing_shown_as_wired Sample.desktop Sample.draws_half
              Sample.overlay0 Hw) as (_ & _ & _ & _ & _ & _ & Hgov).
  destruct (Hgov 5000%Q) as (_ & Htc & Hw'); [reflexivity|].
  split.
  - exact (proj1 (nothing_shown_as_wired Sample.desktop Sample.draws_half
                    _ Hw')).
  - rewrite Htc. reflexivity.
Defined.

(** * Further properties: the pool at creation *)

Section CreationFacts.

Import Overlay System.
Local Open Scope R_scope.

Lemma on_sphere (r phi theta : R) :
  (r * sin phi * cos theta) * (r * sin phi * cos theta)
  + (r * sin phi * sin theta) * (r * sin phi * sin theta)
  + (r * cos phi) * (r * cos phi) = r * r.
Proof.
  pose proof (sin2_cos2 phi) as Hp. pose proof (sin2_cos2 theta) as Ht.
  unfold Rsqr in Hp, Ht.
  set (sp := sin phi) in *. set (cp := cos phi) in *.
  set (st := sin theta) in *. set (ct := cos theta) in *.
  clearbody sp cp st ct.
  replace (r * sp * ct * (r * sp * ct) + r * sp * st * (r * sp * st)
           + r * cp * (r * cp))
    with (r * r * (sp * sp * (st * st + ct * ct) + cp * cp)) by ring.
  rewrite Ht, Rmult_1_r, Hp. ring.
Qed.

Lemma createMeshForElement_geometry (draws : nat -> R) (i : nat) :
  (forall k, 0 <= draws k < 1) ->
  let m := createMeshForElement draws i in
  let p := position m in
  let vel := velocity (userData m) in
  originalPosition (userData m) = p
  /\ 4 <= x p * x p + y p * y p + z p * z p < 25
  /\ (- 0.005 <= x vel < 0.005 /\ - 0.005 <= y vel < 0.005
      /\ - 0.005 <= z vel < 0.005)
  /\ 0 <= life (userData m) < 1
  /\ 0 <= Overlay.random (userData m) < 1
  /\ metricIndex (userData m) = (i mod 4)%nat
  /\ isVisible (userData m) = false.
Proof.
  intros Hd. cbv zeta. unfold createMeshForElement. cbv zeta.
  cbn [position userData originalPosition velocity life Overlay.random
       metricIndex isVisible x y z].
  split; [reflexivity|]. split.
  { rewrite on_sphere. pose proof (Hd (8 * i + 0)%nat). nra. }
  pose proof (Hd (8 * i + 3)%nat). pose proof (Hd (8 * i + 4)%nat).
  pose proof (Hd (8 * i + 5)%nat). pose proof (Hd (8 * i + 6)%nat).
  pose proof (Hd (8 * i + 7)%nat).
  split_and!; try done; lra.
Qed.

End CreationFacts.

(** X20.  [createObjectPool] on an instance with empty lists fills the
    pool with [poolSize] members, all inactive and all referenced, in
    order, by the inactive list.  With draws in [0, 1) each member's
    anchor equals its remembered origin and lies between the spheres of
    radius 2 and 5 around the centre, each velocity component lies in
    [-0.005, 0.005), life phase and random phase lie in [0, 1), its
    metric index is its position modulo 4, and it starts hidden with
    its initial content. *)
Theorem fresh_pool_geometry (draws : nat -> R) (this : Overlay.t)
    (i : nat) :
  (forall k, 0 <= draws k < 1)%R ->
  Overlay.textElementPool this = [] ->
  Overlay.activeElements this = [] ->
  Overlay.inactiveElements this = [] ->
  (i < Overlay.poolSize (Overlay.settings this))%nat ->
  let this' := Overlay.createObjectPool draws this in
  length (Overlay.textElementPool this')
  = Overlay.poolSize (Overlay.settings this)
  /\ Overlay.activeElements this' = []
  /\ Overlay.inactiveElements this'
     = seq 0 (Overlay.poolSize (Overlay.settings this))
  /\ exists o,
       Overlay.textElementPool this' !! i = Some o
       /\ Overlay.isActive o = false
       /\ Overlay.display (Overlay.element o) = Overlay.display_none
       /\ Overlay.innerHTML (Overlay.element o) = Overlay.content_initial
       /\ let m := Overlay.mesh o in
          let p := Overlay.position m in
          let vel := Overlay.velocity (Overlay.userData m) in
          Overlay.originalPosition (Overlay.userData m) = p
          /\ (4 <= Overlay.x p * Overlay.x p + Overlay.y p * Overlay.y p
                   + Overlay.z p * Overlay.z p < 25)%R
          /\ (- 0.005 <= Overlay.x vel < 0.005
              /\ - 0.005 <= Overlay.y vel < 0.005
              /\ - 0.005 <= Overlay.z vel < 0.005)%R
          /\ (0 <= Overlay.life (Overlay.userData m) < 1)%R
          /\ (0 <= Overlay.random (Overlay.userData m) < 1)%R
          /\ Overlay.metricIndex (Overlay.userData m) = (i mod 4)%nat
          /\ Overlay.isVisible (Overlay.userData m) = false.
Proof.
  intros Hd Hp0 Ha0 Hi0 Hi. cbv zeta.
  destruct (createObjectPool_spec draws this _ eq_refl Hp0 Ha0 Hi0)
    as (Hp & Ha & Hin).
  rewrite Hp, Ha, Hin, length_fmap, length_seq.
  split; [reflexivity|]. split; [reflexivity|]. split; [reflexivity|].
  exists (Overlay.newPooledObject draws i). split.
  - rewrite list_lookup_fmap, lookup_seq_lt by done. reflexivity.
  - split; [reflexivity|]. split; [reflexivity|]. split; [reflexivity|].
    apply (createMeshForElement_geometry draws i Hd).
Qed.

Lemma fresh_pool_geometry_witness :
  length
    (Overlay.textElementPool
       (Overlay.createObjectPool Sample.draws_half
          (Overlay.with_pool Sample.overlay0 [] [] [])))
  = 32%nat.
Proof.
  refine (proj1 (fresh_pool_geometry Sample.draws_half
                   (Overlay.with_pool Sample.overlay0 [] [] []) 0%nat
                   _ eq_refl eq_refl eq_refl _)).
  - intros k. unfold Sample.draws_half. lra.
  - change (0 < 32)%nat. lia.
Defined.

(** * Further properties: the earlier overlay's simulation *)

Section LegacyFacts.

Local Open Scope Q_scope.

Lemma gtb_true (a b : Q) : JS.gtb a b = true <-> b < a.
Proof. unfold JS.gtb. apply ltb_true. Qed.

Lemma gtb_false (a b : Q) : JS.gtb a b = false <-> a <= b.
Proof. unfold JS.gtb. apply ltb_false. Qed.

Lemma abs_small (x k : Q) : - k <= x -> x <= k -> JS.gtb (JS.Math_abs x) k = false.
Proof.
  intros H1 H2. apply gtb_false. unfold JS.Math_abs.
  destruct (JS.ltb x 0); lra.
Qed.

Lemma abs_large (x k : Q) : 0 <= k -> x < - k -> JS.gtb (JS.Math_abs x) k = true.
Proof.
  intros Hk H. apply gtb_true. unfold JS.Math_abs.
  destruct (JS.ltb x 0) eqn:Hx; [lra|]. apply ltb_false in Hx. lra.
Qed.

(** A speed that was not negative moves by at most 5 and stays not
    negative. *)
Lemma legacy_speed_step (s r : Q) :
  0 <= s -> 0 <= r -> r < 1 ->
  let s' := JS.Math_max 0 (s + (r - 0.5) * 10) in
  0 <= s' /\ s - 5 <= s' /\ s' <= s + 5.
Proof.
  intros Hs H0 H1. cbv zeta. unfold JS.Math_max.
  destruct (Q.max_spec 0 (s + (r - 0.5) * 10)) as [[? ?]|[? ?]];
    split_and!; lra.
Qed.

Lemma legacy_location_running Math v t :
  Legacy.ignition (Legacy.status v) = true ->
  let l' := fst (Legacy.updateLocation Math v t) in
  Fleet.speed l'
  = JS.Math_max 0 (Fleet.speed (Legacy.location v) + (t 0%nat - 0.5) * 10)
  /\ Fleet.altitude l' = Fleet.altitude (Legacy.location v)
  /\ forall n, snd (Legacy.updateLocation Math v t) n = t (S (S n)).
Proof.
  intros Hign. cbv zeta. unfold Legacy.updateLocation. rewrite Hign.
  unfold bind, ret, Math_random. simpl. done.
Qed.

End LegacyFacts.

(** X21.  One tick of the earlier simulation on a vehicle whose ignition
    is off sets its speed to 0 and leaves position, heading, fuel,
    driver and remembered speed alone; the engine reads 0 rpm and 0
    load and cools by half a degree but not under 20; the tick reads
    one draw, which switches the ignition on when it is under 0.001. *)
Theorem legacy_parked_vehicle (Math : Fleet.MathLib) (now : Q)
    (v : Legacy.Vehicle) (t : Tape) :
  Legacy.ignition (Legacy.status v) = false ->
  let v' := fst (Legacy.updateVehicle Math now v t) in
  Fleet.speed (Legacy.location v') = 0%Q
  /\ Fleet.lat (Legacy.location v') = Fleet.lat (Legacy.location v)
  /\ Fleet.lng (Legacy.location v') = Fleet.lng (Legacy.location v)
  /\ Fleet.heading (Legacy.location v')
     = Fleet.heading (Legacy.location v)
  /\ Legacy.fuel v' = Legacy.fuel v
  /\ Legacy.rpm (Legacy.engine v') = 0%Q
  /\ Legacy.load (Legacy.engine v') = 0%Q
  /\ Legacy.temperature (Legacy.engine v')
     = JS.Math_max 20 (Legacy.temperature (Legacy.engine v) - 0.5)
  /\ Legacy.runtime (Legacy.engine v') = Legacy.runtime (Legacy.engine v)
  /\ Legacy.driver v' = Legacy.driver v
  /\ Legacy.previousSpeed v' = Legacy.previousSpeed v
  /\ Legacy.ignition (Legacy.status v') = JS.ltb (t 0%nat) 0.001
  /\ Legacy.lastUpdate (Legacy.status v') = now
  /\ (forall n, snd (Legacy.updateVehicle Math now v t) n = t (S n)).
Proof.
  intros Hign. cbv zeta.
  unfold Legacy.updateVehicle, Legacy.updateLocation, Legacy.updateFuel,
    Legacy.updateEngine, Legacy.updateDriver.
  rewrite Hign. unfold bind, ret, Math_random. simpl.
  split_and!; try reflexivity.
  by destruct (JS.ltb (t 0%nat) 0.001).
Qed.

Lemma legacy_parked_vehicle_witness :
  Fleet.speed
    (Legacy.location
       (fst (Legacy.updateVehicle Sample.Math_flat 0 Legacy.sample_parked
               Sample.tape_half))) = 0%Q.
Proof.
  exact (proj1 (legacy_parked_vehicle Sample.Math_flat 0
                  Legacy.sample_parked Sample.tape_half eq_refl)).
Defined.

(** X22.  One tick of the earlier simulation on a running vehicle, with
    draws in [0, 1), a speed and a fuel level that are not negative:
    the speed moves by at most 5 km/h and stays not negative.  When the
    new speed is positive the tick's consumption, speed / 100 times
    efficiency / 3600, is added to the consumption total and taken off
    the fuel level, which stops at zero; when it is not, the fuel record
    is unchanged.  So the level does not grow, stays not negative and
    drops by at most the tick's consumption.  The temperature lands in
    [80, 120], the rpm is at least 700, the load is not negative and
    under 100 when the speed is at most 100; engine runtime and driving
    time grow by one second in hours, and the speed is remembered. *)
Theorem legacy_running_vehicle (Math : Fleet.MathLib) (now : Q)
    (v : Legacy.Vehicle) (t : Tape) :
  tape_ok t ->
  Legacy.ignition (Legacy.status v) = true ->
  (0 <= Fleet.speed (Legacy.location v))%Q ->
  (0 <= Fleet.level (Legacy.fuel v))%Q ->
  (0 <= Fleet.efficiency (Legacy.fuel v))%Q ->
  let v' := fst (Legacy.updateVehicle Math now v t) in
  let l := Legacy.location v in
  let l' := Legacy.location v' in
  let f := Legacy.fuel v in
  let f' := Legacy.fuel v' in
  let e' := Legacy.engine v' in
  let used :=
    (Fleet.speed l' / 100 * Fleet.efficiency f * (1 / 3600))%Q in
  (0 <= Fleet.speed l' /\ Fleet.speed l - 5 <= Fleet.speed l'
   /\ Fleet.speed l' <= Fleet.speed l + 5)%Q
  /\ ((0 < Fleet.speed l')%Q ->
      Fleet.level f' = JS.Math_max 0 (Fleet.level f - used)
      /\ Fleet.consumption f' = (Fleet.consumption f + used)%Q
      /\ Fleet.efficiency f' = Fleet.efficiency f
      /\ Fleet.lastFill f' = Fleet.lastFill f)
  /\ ((Fleet.speed l' <= 0)%Q -> f' = f)
  /\ (0 <= Fleet.level f' /\ Fleet.level f' <= Fleet.level f
      /\ Fleet.level f - Fleet.level f' <= used
      /\ Fleet.consumption f <= Fleet.consumption f')%Q
  /\ Fleet.capacity f' = Fleet.capacity f
  /\ (80 <= Legacy.temperature e' /\ Legacy.temperature e' <= 120
      /\ 700 <= Legacy.rpm e' /\ 0 <= Legacy.load e'
      /\ (Fleet.speed l' <= 100 -> Legacy.load e' < 100))%Q
  /\ Legacy.runtime e'
     = (Legacy.runtime (Legacy.engine v) + 1 / 3600)%Q
  /\ Legacy.drivingTime (Legacy.driver v')
     = (Legacy.drivingTime (Legacy.driver v) + 1 / 3600)%Q
  /\ Legacy.previousSpeed v' = Some (Fleet.speed l').
Proof.
  intros Ht Hign Hs Hlev Heff. cbv zeta. unfold Legacy.updateVehicle, bind.
  destruct (legacy_location_running Math v t Hign) as (Hsp & _ & Htape).
  destruct (Legacy.updateLocation Math v t) as [loc1 t1]. simpl in Hsp, Htape.
  destruct (legacy_speed_step (Fleet.speed (Legacy.location v)) (t 0%nat) Hs)
    as (Hs0 & Hs1 & Hs2); [apply Ht..|].
  rewrite <- Hsp in Hs0, Hs1, Hs2.
  unfold Legacy.updateFuel, Legacy.updateEngine, Legacy.updateDriver.
  rewrite Hign. unfold bind, ret, Math_random.
  cbn [fst snd Legacy.location Legacy.fuel Legacy.engine Legacy.driver
       Legacy.previousSpeed Legacy.temperature Legacy.rpm Legacy.load
       Legacy.runtime Legacy.drivingTime andb].
  pose proof (Ht 2%nat) as [Ha0 Ha1]. pose proof (Ht 3%nat) as [Hb0 Hb1].
  pose proof (Ht 4%nat) as [Hc0 Hc1].
  rewrite <- !Htape in Ha0, Ha1, Hb0, Hb1, Hc0, Hc1.
  set (s1 := Fleet.speed loc1) in *.
  set (c := s1 / 100 * Fleet.efficiency (Legacy.fuel v) * (1 / 3600)).
  assert (Hc : 0 <= c).
  { unfold c. apply Qmult_le_0_compat; [|apply Qdiv_nonneg; lra].
    apply Qmult_le_0_compat; [|done]. apply Qdiv_nonneg; lra. }
  clearbody c.
  set (a20 := s1 / 100 * 2000). set (a80 := s1 / 100 * 80).
  assert (H20 : a20 == s1 * 20) by (unfold a20; field).
  assert (H80 : a80 == s1 * (4 # 5)) by (unfold a80; field).
  clearbody a20 a80.
  split; [by split_and!|].
  destruct (JS.gtb s1 0) eqn:Hg.
  - apply gtb_true in Hg.
    cbn [Fleet.level Fleet.consumption Fleet.capacity Fleet.efficiency
         Fleet.lastFill].
    split; [intros _; by split_and!|]. split; [intros Hle; lra|].
    split.
    { destruct (max0_sub (Fleet.level (Legacy.fuel v)) c Hlev Hc).
      pose proof (max_lb_r 0 (Fleet.level (Legacy.fuel v) - c)).
      split_and!; lra. }
    split; [reflexivity|]. split.
    { split_and!.
      - apply Q.min_glb; [lra|apply max_lb_l].
      - apply Q.le_min_l.
      - lra.
      - lra.
      - intros Hle. lra. }
    split; [reflexivity|]. split; reflexivity.
  - apply gtb_false in Hg.
    split; [intros Hpos; lra|]. split; [intros _; reflexivity|].
    split; [split_and!; lra|]. split; [reflexivity|]. split.
    { split_and!.
      - apply Q.min_glb; [lra|apply max_lb_l].
      - apply Q.le_min_l.
      - lra.
      - lra.
      - intros Hle. lra. }
    split; [reflexivity|]. split; reflexivity.
Qed.

Lemma legacy_running_vehicle_witness :
  let f' :=
    Legacy.fuel
      (fst (Legacy.updateVehicle Sample.Math_flat 0 Legacy.sample_running
              Sample.tape_half)) in
  (Fleet.consumption f' == 17 # 12000)%Q
  /\ (Fleet.level f' == 150 - (17 # 12000))%Q.
Proof.
  cbv zeta.
  destruct (legacy_running_vehicle Sample.Math_flat 0 Legacy.sample_running
              Sample.tape_half tape_half_ok eq_refl)
    as (_ & Hpos & _); [vm_compute; discriminate..|].
  destruct Hpos as (Hlevel & Hcons & _); [vm_compute; reflexivity|].
  rewrite Hlevel, Hcons. split; vm_compute; reflexivity.
Defined.

(** X23.  In one tick of the earlier simulation on a running vehicle
    whose speed and score are not negative, with draws in [0, 1), the
    score never grows, never becomes negative and drops by at most
    0.3.  When the remembered speed is absent or is the speed the tick
    started with, the harsh-driving penalty cannot fire, because the
    speed moves by at most 5: the score only loses 0.1 when the new
    speed is over 80.  When the vehicle was parked (speed 0) after
    last running at more than 25 km/h, the first running tick costs
    exactly the 0.2 harsh-driving penalty. *)
Theorem legacy_score_penalties (Math : Fleet.MathLib) (now : Q)
    (v : Legacy.Vehicle) (t : Tape) :
  tape_ok t ->
  Legacy.ignition (Legacy.status v) = true ->
  (0 <= Fleet.speed (Legacy.location v))%Q ->
  (0 <= Legacy.score (Legacy.driver v))%Q ->
  let v' := fst (Legacy.updateVehicle Math now v t) in
  let s' := Fleet.speed (Legacy.location v') in
  let sc := Legacy.score (Legacy.driver v) in
  let sc' := Legacy.score (Legacy.driver v') in
  (0 <= sc' /\ sc' <= sc /\ sc - 0.3 <= sc')%Q
  /\ (Legacy.previousSpeed v = None
      \/ Legacy.previousSpeed v = Some (Fleet.speed (Legacy.location v)) ->
      sc' = if JS.gtb s' 80 then JS.Math_max 0 (sc - 0.1) else sc)
  /\ (forall p,
        Legacy.previousSpeed v = Some p -> (25 < p)%Q ->
        (Fleet.speed (Legacy.location v) == 0)%Q ->
        sc' = JS.Math_max 0 (sc - 0.2)).
Proof.
  intros Ht Hign Hs Hsc. cbv zeta. unfold Legacy.updateVehicle, bind.
  destruct (legacy_location_running Math v t Hign) as (Hsp & _ & _).
  destruct (Legacy.updateLocation Math v t) as [loc1 t1]. simpl in Hsp.
  destruct (legacy_speed_step (Fleet.speed (Legacy.location v)) (t 0%nat) Hs)
    as (Hs0 & Hs1 & Hs2); [apply Ht..|].
  rewrite <- Hsp in Hs0, Hs1, Hs2. clear Hsp.
  destruct (Legacy.updateEngine v loc1 t1) as [e1 t2].
  unfold Legacy.updateDriver. rewrite Hign. unfold ret, Math_random.
  cbn [fst snd Legacy.location Legacy.driver Legacy.score].
  set (s1 := Fleet.speed loc1) in *.
  set (sc := Legacy.score (Legacy.driver v)) in *.
  set (sc1 := if JS.gtb s1 80 then JS.Math_max 0 (sc - 0.1) else sc).
  assert (Hsc1 : (0 <= sc1 /\ sc1 <= sc /\ sc - 0.1 <= sc1)%Q).
  { unfold sc1. destruct (JS.gtb s1 80); [|split_and!; lra].
    pose proof (max_lb_l 0 (sc - 0.1)). pose proof (max_lb_r 0 (sc - 0.1)).
    pose proof (max_ub 0 (sc - 0.1) sc Hsc ltac:(lra)). by split_and!. }
  destruct Hsc1 as (Hsc1a & Hsc1b & Hsc1c).
  split; [|split].
  - destruct (JS.gtb _ 20); [|split_and!; lra].
    pose proof (max_lb_l 0 (sc1 - 0.2)). pose proof (max_lb_r 0 (sc1 - 0.2)).
    pose proof (max_ub 0 (sc1 - 0.2) sc1 Hsc1a ltac:(lra)).
    split_and!; lra.
  - intros [-> | ->]; unfold Legacy.previousSpeed_or.
    + rewrite abs_small by lra. reflexivity.
    + destruct (Qeq_bool _ 0); rewrite abs_small by lra; reflexivity.
  - intros p -> Hp H0. unfold Legacy.previousSpeed_or.
    destruct (Qeq_bool p 0) eqn:Hp0;
      [apply Qeq_bool_eq in Hp0; lra|].
    rewrite abs_large by lra.
    unfold sc1. assert (Hslow : JS.gtb s1 80 = false)
      by (apply gtb_false; lra).
    by rewrite Hslow.
Qed.

Lemma legacy_score_penalties_witness :
  Legacy.score
    (Legacy.driver
       (fst (Legacy.updateVehicle Sample.Math_flat 0 Legacy.sample_restarted
               Sample.tape_half)))
  = JS.Math_max 0 (Legacy.score (Legacy.driver Legacy.sample_restarted) - 0.2).
Proof.
  destruct (legacy_score_penalties Sample.Math_flat 0 Legacy.sample_restarted
              Sample.tape_half tape_half_ok eq_refl)
    as (_ & _ & H); [vm_compute; discriminate..|].
  apply (H 90%Q); [reflexivity|reflexivity|reflexivity].
Defined.

(** * Further properties: which members reconciliation moves *)

Section ReconcileLists.

Import Overlay System.

Lemma releaseObject_last (this : t) (l : list nat) (obj : nat) :
  pool_wf this -> activeElements this = l ++ [obj] ->
  activeElements (releaseObject this obj) = l
  /\ inactiveElements (releaseObject this obj)
     = inactiveElements this ++ [obj].
Proof.
  intros Hwf Hact.
  assert (Hobj : obj ∈ activeElements this).
  { rewrite Hact, elem_of_app, list_elem_of_singleton. by right. }
  destruct (releaseObject_active this obj Hwf Hobj) as (k & Hk & ->).
  destruct Hwf as (_ & Hnd & _). apply NoDup_app in Hnd as (Hnd & _).
  rewrite Hact in Hnd, Hk. apply NoDup_app in Hnd as (_ & Hdisj & _).
  assert (Hnot : obj ∉ l).
  { intros Hin. apply (Hdisj obj Hin). by apply list_elem_of_singleton. }
  rewrite (indexOf_snoc_notin l obj Hnot) in Hk. injection Hk as <-.
  simpl. rewrite Hact. by rewrite splice1_snoc.
Qed.

(** Releasing the excess cuts the active list down to a prefix and
    appends what it cut, last first, to the inactive list. *)
Lemma releaseExcess_lists (fuel : nat) (this this' : t) :
  pool_wf this -> releaseExcess fuel this = Returns this' ->
  exists k,
    (k <= length (activeElements this))%nat
    /\ activeElements this' = take k (activeElements this)
    /\ inactiveElements this'
       = inactiveElements this ++ rev (drop k (activeElements this)).
Proof.
  assert (Hstop : forall this0 : t,
            exists k, (k <= length (activeElements this0))%nat
              /\ activeElements this0 = take k (activeElements this0)
              /\ inactiveElements this0
                 = inactiveElements this0
                   ++ rev (drop k (activeElements this0))).
  { intros this0. exists (length (activeElements this0)).
    rewrite firstn_all, drop_all. simpl. by rewrite app_nil_r. }
  revert this. induction fuel as [|fuel IH]; intros this Hwf; simpl.
  - case_bool_decide; [done|]. intros [= <-]. apply Hstop.
  - case_bool_decide; [|intros [= <-]; apply Hstop].
    destruct (last (activeElements this)) as [obj|] eqn:Hlast; [|done].
    apply last_Some in Hlast as [l Hl].
    destruct (releaseObject_last this l obj Hwf Hl) as [Ha Hi].
    intros Hr.
    apply IH in Hr as (k & Hk & Ha' & Hi');
      [|by apply pool_wf_releaseObject].
    rewrite Ha in Hk, Ha', Hi'. rewrite Hi in Hi'.
    exists k. rewrite Hl, length_app. split; [simpl; lia|].
    rewrite take_app_le, drop_app_le by done.
    split; [done|]. by rewrite rev_unit, Hi', <- app_assoc.
Qed.

(** Activating what is needed takes references off the end of the
    inactive list and appends them to the active list. *)
Lemma activateNeeded_lists (fuel : nat) (this this' : t) :
  activateNeeded fuel this = Returns this' ->
  exists j,
    (j <= length (inactiveElements this))%nat
    /\ inactiveElements this' = take j (inactiveElements this)
    /\ activeElements this'
       = activeElements this ++ rev (drop j (inactiveElements this)).
Proof.
  assert (Hstop : forall this0 : t,
            exists j, (j <= length (inactiveElements this0))%nat
              /\ inactiveElements this0 = take j (inactiveElements this0)
              /\ activeElements this0
                 = activeElements this0
                   ++ rev (drop j (inactiveElements this0))).
  { intros this0. exists (length (inactiveElements this0)).
    rewrite firstn_all, drop_all. simpl. by rewrite app_nil_r. }
  revert this. induction fuel as [|fuel IH]; intros this; simpl.
  - case_bool_decide; [done|]. intros [= <-]. apply Hstop.
  - case_bool_decide; [|intros [= <-]; apply Hstop].
    unfold getActiveObject.
    destruct (JS.pop (inactiveElements this)) as [[obj l]|] eqn:Hpop;
      [|intros [= <-]; apply Hstop].
    apply pop_Some in Hpop. intros Hr.
    apply IH in Hr as (j & Hj & Hi' & Ha'). simpl in Hj, Hi', Ha'.
    exists j. rewrite Hpop, length_app. split; [simpl; lia|].
    rewrite take_app_le, drop_app_le by done.
    split; [done|]. rewrite rev_unit, Ha'. unfold JS.push.
    by rewrite <- app_assoc.
Qed.

Lemma reconcile_lists (now : Q) (this this' : t) :
  pool_wf this -> (0 <= textCount (settings this))%Z ->
  updateDisplayMetrics now this = Returns this' ->
  exists k j,
    (k <= length (activeElements this))%nat
    /\ Z.of_nat k = Z.min (Z.of_nat (length (activeElements this)))
                      (textCount (settings this))
    /\ (j <= length (inactiveElements this
                     ++ rev (drop k (activeElements this))))%nat
    /\ activeElements this'
       = take k (activeElements this)
         ++ rev (drop j (inactiveElements this
                         ++ rev (drop k (activeElements this))))
    /\ inactiveElements this'
       = take j (inactiveElements this
                 ++ rev (drop k (activeElements this)))
    /\ ((textCount (settings this)
         < Z.of_nat (length (activeElements this)))%Z ->
        j = length (inactiveElements this
                    ++ rev (drop k (activeElements this)))).
Proof.
  intros Hwf Htc. unfold updateDisplayMetrics, updateDisplayMetrics_fuel.
  set (this0 := with_currentMetrics this _). set (fuel := S _).
  destruct (releaseExcess_spec fuel this0 Hwf Htc ltac:(simpl; lia))
    as (this1 & H1 & Hwf1 & (Hs1 & Hm1 & _) & Hcount).
  rewrite H1.
  destruct (releaseExcess_lists fuel this0 this1 Hwf H1)
    as (k & Hk & Ha1 & Hi1).
  change (activeElements this0) with (activeElements this) in *.
  change (inactiveElements this0) with (inactiveElements this) in *.
  change (settings this0) with (settings this) in *.
  destruct (activateNeeded fuel this1) as [this2| |] eqn:H2; [|done..].
  intros [= <-]. cbn [activeElements inactiveElements with_pool].
  destruct (activateNeeded_lists fuel this1 this2 H2) as (j & Hj & Hi2 & Ha2).
  rewrite Ha1, Hi1 in Ha2. rewrite Hi1 in Hi2, Hj.
  assert (Hklen : Z.of_nat k
                  = Z.min (Z.of_nat (length (activeElements this)))
                      (textCount (settings this))).
  { rewrite <- Hcount, Ha1, length_take. lia. }
  exists k, j. split_and!; try done.
  intros Hgt.
  (* the release loop ran down to the budget: nothing is activated *)
  unfold fuel in H2. simpl in H2.
  rewrite bool_decide_eq_false_2 in H2 by (rewrite Hcount, Hs1; lia).
  injection H2 as <-. rewrite Hi1 in Hi2.
  apply (f_equal length) in Hi2. rewrite length_take in Hi2. lia.
Qed.

End ReconcileLists.

(** X24.  Reconciliation never reorders the members that stay active: a
    reference found at a position of the new active list that the old
    list also had is the one the old list had there, so a surviving
    member keeps its metric.  Over budget, the new active list is the
    first [textCount] references of the old one and the cut ones go to
    the end of the inactive list, last first; within budget the old
    active list is extended by references taken off the end of the
    inactive list. *)
Theorem reconciliation_keeps_positions (navigator : Overlay.Navigator)
    (now : Q) (this this' : Overlay.t) :
  System.reachable navigator this ->
  Overlay.updateDisplayMetrics now this = Overlay.Returns this' ->
  let active := Overlay.activeElements this in
  let inactive := Overlay.inactiveElements this in
  let budget := Overlay.textCount (Overlay.settings this) in
  (forall i obj,
     Overlay.activeElements this' !! i = Some obj ->
     (i < length active)%nat -> active !! i = Some obj)
  /\ ((budget < Z.of_nat (length active))%Z ->
      Overlay.activeElements this' = take (Z.to_nat budget) active
      /\ Overlay.inactiveElements this'
         = inactive ++ rev (drop (Z.to_nat budget) active))
  /\ ((Z.of_nat (length active) <= budget)%Z ->
      exists j,
        (j <= length inactive)%nat
        /\ Overlay.activeElements this' = active ++ rev (drop j inactive)
        /\ Overlay.inactiveElements this' = take j inactive).
Proof.
  intros Hreach Hret. cbv zeta.
  apply reachable_inv in Hreach as (Hwf & _ & _ & Htc & _).
  destruct (reconcile_lists now this this' Hwf ltac:(lia) Hret)
    as (k & j & Hk & Hklen & Hj & Ha & Hi & Hover).
  split; [|split].
  - intros i obj Hobj Hlt. rewrite Ha in Hobj.
    destruct (decide (i < k)%nat) as [Hik|Hik].
    + rewrite lookup_app_l in Hobj by (rewrite length_take; lia).
      by rewrite lookup_take_lt in Hobj.
    + assert (Hgt : (Overlay.textCount (Overlay.settings this)
                     < Z.of_nat (length (Overlay.activeElements this)))%Z)
        by lia.
      rewrite (Hover Hgt), drop_all in Hobj. simpl in Hobj.
      rewrite app_nil_r in Hobj.
      apply lookup_lt_Some in Hobj. rewrite length_take in Hobj. lia.
  - intros Hgt. assert (k = Z.to_nat (Overlay.textCount
                                        (Overlay.settings this))) as <- by lia.
    rewrite Ha, Hi, (Hover Hgt), drop_all, firstn_all. simpl.
    by rewrite app_nil_r.
  - intros Hle.
    assert (k = length (Overlay.activeElements this)) as -> by lia.
    rewrite firstn_all, drop_all in *. simpl in *.
    rewrite app_nil_r in *. by exists j.
Qed.

Lemma reconciliation_keeps_positions_witness :
  exists this',
    Overlay.updateDisplayMetrics 0 Sample.overlay1 = Overlay.Returns this'
    /\ Overlay.activeElements this' !! 0%nat = Some 31%nat.
Proof.
  destruct (updateDisplayMetrics_spec 0 Sample.overlay1) as (this' & Hret & _).
  { apply (reachable_inv Sample.desktop), overlay1_reachable. }
  { apply (reachable_inv Sample.desktop Sample.overlay1 overlay1_reachable). }
  exists this'. split; [exact Hret|].
  destruct (reconciliation_keeps_positions Sample.desktop 0 Sample.overlay1
              this' overlay1_reachable Hret) as (_ & _ & Hgrow).
  destruct Hgrow as (j & _ & -> & _); [vm_compute; discriminate|].
  reflexivity.
Defined.

(** X25.  Reconciling twice in a row moves nothing the second time:
    after one reconciliation of a reachable overlay, a second one
    returns with the same active list, the same inactive list and the
    same settings. *)
Theorem reconciliation_settles (navigator : Overlay.Navigator)
    (now now2 : Q) (this this' : Overlay.t) :
  System.reachable navigator this ->
  Overlay.updateDisplayMetrics now this = Overlay.Returns this' ->
  exists this'',
    Overlay.updateDisplayMetrics now2 this' = Overlay.Returns this''
    /\ Overlay.activeElements this'' = Overlay.activeElements this'
    /\ Overlay.inactiveElements this'' = Overlay.inactiveElements this'
    /\ Overlay.settings this'' = Overlay.settings this'.
Proof.
  intros Hreach Hret.
  assert (Hreach' : System.reachable navigator this').
  { apply (System.reachable_step navigator this); [done|].
    by apply (System.step_reconcile navigator this now). }
  pose proof (reachable_inv _ _ Hreach) as (Hwf & Hn & _ & Htc & _ & Hfleet).
  pose proof (reachable_inv _ _ Hreach')
    as (Hwf' & Hn' & _ & Htc' & _ & Hfleet').
  pose proof (getOptimalTextCount_range navigator) as Hceil.
  apply fleet_reachable_inv in Hfleet as (_ & Hlen & _).
  apply fleet_reachable_inv in Hfleet' as (_ & Hlen' & _).
  destruct (updateDisplayMetrics_spec now this Hwf ltac:(lia))
    as (this1 & Hret1 & _ & Hs1 & _ & _ & Hc1).
  rewrite Hret in Hret1. injection Hret1 as <-.
  destruct (updateDisplayMetrics_spec now2 this' Hwf' ltac:(lia))
    as (this'' & Hret2 & _ & Hs2 & _ & _ & Hc2).
  rewrite getDisplayMetrics_length, Hlen, Hn in Hc1.
  rewrite getDisplayMetrics_length, Hlen', Hn' in Hc2.
  exists this''. split; [exact Hret2|].
  destruct (reconcile_lists now2 this' this'' Hwf' ltac:(lia) Hret2)
    as (k & j & Hk & Hklen & Hj & Ha & Hi & _).
  rewrite Hs1 in Hc2, Hklen.
  assert (k = length (Overlay.activeElements this')) as -> by lia.
  rewrite firstn_all, drop_all in *. simpl in *. rewrite app_nil_r in *.
  assert (Hnil : rev (drop j (Overlay.inactiveElements this')) = []).
  { apply (f_equal length) in Ha. rewrite length_app in Ha.
    apply length_zero_iff_nil. lia. }
  rewrite Hnil, app_nil_r in Ha. split; [exact Ha|]. split; [|exact Hs2].
  rewrite Hi. apply take_ge.
  apply (f_equal length) in Hnil. rewrite length_rev, length_drop in Hnil.
  simpl in Hnil. lia.
Qed.

Lemma reconciliation_settles_witness :
  exists this' this'',
    Overlay.updateDisplayMetrics 0 Sample.overlay0 = Overlay.Returns this'
    /\ Overlay.updateDisplayMetrics 1 this' = Overlay.Returns this''
    /\ Overlay.activeElements this'' = Overlay.activeElements this'.
Proof.
  destruct (updateDisplayMetrics_spec 0 Sample.overlay0) as (this' & Hret & _).
  { apply (reachable_inv Sample.desktop), overlay0_reachable. }
  { apply (reachable_inv Sample.desktop Sample.overlay0 overlay0_reachable). }
  destruct (reconciliation_settles Sample.desktop 0 1 Sample.overlay0 this'
              overlay0_reachable Hret) as (this'' & Hret2 & Ha & _).
  exists this', this''. by split_and!.
Defined.
